(** * HStream addon: crawl / cache / resolve engine

    A shallow embedding of [addon.js] (the catalog builder [fetchCatalog],
    the page fetcher [fetchPage] with its listing script, the lookup
    fallback of the meta and stream handlers, the stream resolver
    [fetchVideoDetails], the catalog and meta handlers and the
    expiring [Cache]) together with the properties of the specification
    that concern them and further properties of the code.  The repository also holds an earlier variant of
    the file; where the two differ the model follows [addon.js], and the
    lookup fallback of the earlier variant is modelled next to it
    ([Earlier]).

    JavaScript values are modelled as follows: strings are [string],
    array lengths, page numbers and offsets are [nat], timestamps and
    time spans (milliseconds) are [Z], a [Map] with string keys whose
    iteration order is observed is an insertion-ordered association list,
    the [Map] inside [Cache] (never iterated) is a [gmap].  The browser
    and the remote site are an oracle ([Env]); every effect of the code
    (clock reads, launched sessions, both caches, navigation) is threaded
    through an explicit state. *)

From Stdlib Require Import ZArith Lia Ascii String.
From stdpp Require Import base gmap strings list sorting pretty.

(** ** The expiring cache ([class Cache]) *)

Module Cache.

Local Open Scope Z_scope.

(** [{ value, expires }] *)
Record item (V : Type) : Type := Item { value : V; expires : Z }.
Arguments Item {V} _ _.
Arguments value {V} _.
Arguments expires {V} _.

(** [this.data], [this.ttl] *)
Record t (V : Type) : Type := Make { data : gmap string (item V); ttl : Z }.
Arguments Make {V} _ _.
Arguments data {V} _.
Arguments ttl {V} _.

Section Methods.
Context {V : Type}.

(** [constructor(ttl = 3600000)] *)
Definition new (ttl0 : option Z) : t V :=
  Make ∅ (match ttl0 with Some x => x | None => 3600000 end).

(** [get(key)], at clock reading [now].  The clock is read only when
    the key is present. *)
Definition get (key : string) (now : Z) (c : t V) : option V * t V :=
  match data c !! key with
  | None => (None, c)
  | Some it =>
      if bool_decide (now > expires it)
      then (None, Make (delete key (data c)) (ttl c))
      else (Some (value it), c)
  end.

(** [customTtl || this.ttl]: a missing ([null]) or zero override is
    falsy and falls back to the default. *)
Definition effective_ttl (customTtl : option Z) (c : t V) : Z :=
  match customTtl with
  | Some x => if bool_decide (x = 0) then ttl c else x
  | None => ttl c
  end.

(** [set(key, value, customTtl = null)] *)
Definition set (key : string) (v : V) (customTtl : option Z)
    (now : Z) (c : t V) : t V :=
  let expires := now + effective_ttl customTtl c in
  Make (<[key := Item v expires]> (data c)) (ttl c).

(** [clear()] *)
Definition clear (c : t V) : t V := Make ∅ (ttl c).

(** [this.data.has(key)] *)
Definition has (key : string) (c : t V) : bool :=
  bool_decide (is_Some (data c !! key)).

End Methods.

End Cache.

(** ** JavaScript strings and arrays *)

(** [s.includes(sub)] *)
Definition includes (s sub : string) : bool :=
  match String.index 0 sub s with Some _ => true | None => false end.

(** [s.endsWith(suf)] (used for the [$] anchor of the media pattern) *)
Definition endsWith (s suf : string) : bool :=
  let n := String.length s in
  let k := String.length suf in
  (k <=? n)%nat && bool_decide (String.substring (n - k) k s = suf).

Definition lower_ascii (c : ascii) : ascii :=
  let n := Ascii.nat_of_ascii c in
  if (65 <=? n)%nat && (n <=? 90)%nat then Ascii.ascii_of_nat (n + 32) else c.

(** [s.toLowerCase()] on ASCII text *)
Fixpoint toLowerCase (s : string) : string :=
  match s with
  | EmptyString => EmptyString
  | String c r => String (lower_ascii c) (toLowerCase r)
  end.

Definition is_digit (c : ascii) : bool :=
  let n := Ascii.nat_of_ascii c in (48 <=? n)%nat && (n <=? 57)%nat.

Definition is_letter (c : ascii) : bool :=
  let n := Ascii.nat_of_ascii c in
  ((65 <=? n)%nat && (n <=? 90)%nat) || ((97 <=? n)%nat && (n <=? 122)%nat).

Fixpoint leading_digits (s : string) (acc : option nat) : option nat :=
  match s with
  | String c r =>
      if is_digit c
      then leading_digits r
             (Some (10 * default 0 acc + (Ascii.nat_of_ascii c - 48)))
      else acc
  | EmptyString => acc
  end.

(** [parseInt(s)] for text that starts with its decimal digits (the
    quality labels); [None] is [NaN]. *)
Definition parseInt (s : string) : option nat := leading_digits s None.

(** [n || 0] on a number: [NaN] and [0] are falsy. *)
Definition num_or_zero (n : option nat) : nat := default 0 n.

(** [s.match(/^([A-Za-z]+)/)]: the leading run of letters, if any. *)
Fixpoint leading_letters (s : string) : string :=
  match s with
  | String c r => if is_letter c then String c (leading_letters r) else EmptyString
  | EmptyString => EmptyString
  end.

(** [a.slice(start, end)] for [0 <= start] and [0 <= end <= a.length]
    (an empty array when [end <= start]). *)
Definition slice {A} (start stop : nat) (a : list A) : list A :=
  drop start (take stop a).

(** [s.split(sep)] for a one-character separator. *)
Fixpoint split_on (sep : ascii) (s : string) (cur : string) : list string :=
  match s with
  | EmptyString => [cur]
  | String c r =>
      if bool_decide (c = sep) then cur :: split_on sep r EmptyString
      else split_on sep r (cur +:+ String c EmptyString)
  end.

(** ** [Map] with observable insertion order

    [Array.from(m.values())] lists the values in the order in which their
    keys were first inserted; [m.set] on a present key replaces the value
    in place. *)

Module JSMap.
Section Ops.
Context {V : Type}.

Definition t := list (string * V).

Definition empty : t := [].

Definition has (k : string) (m : t) : bool := bool_decide (k ∈ m.*1).

Fixpoint get (k : string) (m : t) : option V :=
  match m with
  | [] => None
  | (k', v) :: m' => if bool_decide (k' = k) then Some v else get k m'
  end.

Fixpoint set (k : string) (v : V) (m : t) : t :=
  match m with
  | [] => [(k, v)]
  | (k', v') :: m' =>
      if bool_decide (k' = k) then (k, v) :: m' else (k', v') :: set k v m'
  end.

Definition values (m : t) : list V := m.*2.

Definition keys (m : t) : list string := m.*1.
End Ops.
Arguments t : clear implicits.
End JSMap.

(** ** Object literals used as tables

    [obj[key]] on an object literal finds the own entry of [key] or,
    when there is none, the member of that name which every plain object
    inherits from [Object.prototype]. *)

(** [Object.getOwnPropertyNames(Object.prototype)] *)
Definition object_prototype_members : list string :=
  ["constructor"; "__defineGetter__"; "__defineSetter__"; "hasOwnProperty";
   "__lookupGetter__"; "__lookupSetter__"; "isPrototypeOf"; "propertyIsEnumerable";
   "toString"; "valueOf"; "__proto__"; "toLocaleString"].

(** What [table[key] || fallback] yields for a table of strings: a
    string, or the inherited member of the given name (a function, or
    the prototype object for [__proto__]: never falsy, never a string). *)
Inductive JSValue : Type :=
  | Str (s : string)
  | Inherited (member : string).

Global Instance JSValue_eq_dec : EqDecision JSValue.
Proof. solve_decision. Defined.

(** [table[key] || fallback] *)
Definition lookup_or (table : JSMap.t string) (key fallback : string) : JSValue :=
  match JSMap.get key table with
  | Some v => if bool_decide (v = "") then Str fallback else Str v
  | None =>
      if bool_decide (key ∈ object_prototype_members) then Inherited key
      else Str fallback
  end.

(** The text of a value inside a template string: a native function
    prints as [function <name>() { [native code] }] (the constructor is
    the function [Object]), the prototype object as [[object Object]]. *)
Definition template_text (v : JSValue) : string :=
  match v with
  | Str s => s
  | Inherited member =>
      if bool_decide (member = "__proto__") then "[object Object]"
      else
        "function "
        +:+ (if bool_decide (member = "constructor") then "Object" else member)
        +:+ "() { [native code] }"
  end.

(** ** Constants *)

Definition ITEMS_PER_PAGE : nat := 500.
Definition MAX_PAGES : nat := 20.
Definition CONCURRENT_PAGES : nat := 5.

(** ** Catalog records and listing pages *)

(** One record pushed by the extraction of [fetchPage]
    ([type: 'movie'] and [posterShape: 'poster'] are constants). *)
Record CatalogEntry : Type := Entry {
  e_id : string;
  e_name : string;
  e_poster : string;
  e_link : string;
  e_episodeNumber : option string
}.

Global Instance CatalogEntry_eq_dec : EqDecision CatalogEntry.
Proof. solve_decision. Defined.

(** The two listing URL shapes of [fetchPage]:
    [/search?q=<q>&page=<n>&view=poster] and
    [/search?view=poster&order=<order>&page=<n>]. *)
Inductive Listing : Type :=
  | SearchListing (q : string) (page : nat)
  | OrderListing (order : string) (page : nat).

Global Instance Listing_eq_dec : EqDecision Listing.
Proof. solve_decision. Defined.

Definition listing_page (l : Listing) : nat :=
  match l with SearchListing _ p => p | OrderListing _ p => p end.

(** [baseUrl] of [fetchPage] and of the lookup fallback. *)
Definition baseUrl (search catalogType : string) (pageNum : nat) : Listing :=
  if bool_decide (search = "") then
    OrderListing
      (if bool_decide (catalogType = "recent") then "recently-released"
       else "view-count") pageNum
  else SearchListing search pageNum.

(** Outcome of one [page.goto]: a response with its status, or a
    rejection (timeout, transport error). *)
Inductive Navigation : Type :=
  | Responded (status : nat)
  | Rejected (message : string).

Global Instance Navigation_eq_dec : EqDecision Navigation.
Proof. solve_decision. Defined.

(** ** Stream resolver: data *)

(** A value of the [streams] map: [{ url, quality, qualityNum }]. *)
Record StreamCandidate : Type := Candidate {
  s_url : string;
  s_quality : string;
  s_qualityNum : nat
}.

Global Instance StreamCandidate_eq_dec : EqDecision StreamCandidate.
Proof. solve_decision. Defined.

(** A value of the in-page [sources] map: [{ url, quality }]. *)
Record VideoSource : Type := VSource { vs_url : string; vs_quality : string }.

(** A value of the in-page [subtitles] map.  Button entries carry [name],
    track entries carry [format]. *)
Record Subtitle : Type := Sub {
  sub_url : string;
  sub_lang : string;
  sub_id : string;
  sub_name : option string;
  sub_format : option string
}.

Global Instance Subtitle_eq_dec : EqDecision Subtitle.
Proof. solve_decision. Defined.

(** The parts of the rendered detail page read by the first
    [page.evaluate]. *)

(** [button.group.rounded-md.shadow.bg-rose-600]: the [href] of its
    subtitle link ([None] when it has no [.ass]/[.srt]/[.vtt] link) and
    its trimmed text. *)
Record Button : Type := { b_href : option string; b_text : string }.

(** A [track] element. *)
Record Track : Type := {
  t_src : string;
  t_srclang : string;
  t_label : string;
  t_kind : string
}.

(** A [source] element with its [size], [label] and [title] attributes. *)
Record SourceEl : Type := {
  src_src : string;
  src_size : option string;
  src_label : option string;
  src_title : option string
}.

(** A [video] element. *)
Record Video : Type := {
  v_src : string;
  v_size : option string;
  v_sources : list SourceEl;
  v_tracks : list Track
}.

(** [d_tracks] is the result of
    [querySelectorAll('track[kind="subtitles"], track[kind="captions"]')]. *)
Record Dom : Type := {
  d_buttons : list Button;
  d_tracks : list Track;
  d_videos : list Video
}.

(** The object returned by the second [page.evaluate]. *)
Record Meta : Type := {
  m_title : string;
  m_japaneseTitle : option string;
  m_description : string;
  m_releaseInfo : option string;
  m_studio : option string;
  m_genres : list string;
  m_viewCount : option string;
  m_episodeNumber : option string;
  m_subtitles : list Subtitle
}.

(** A subtitle attached to a composed stream. *)
Record StreamSubtitle : Type := {
  ss_id : string;
  ss_url : string;
  ss_lang : string;
  ss_format : option string;
  ss_name : string
}.

(** [streamData]: [subtitles] is present only when the page had some;
    [title] is what the lookup in the table of titles yields. *)
Record StreamData : Type := {
  sd_title : JSValue;
  sd_url : string;
  sd_name : string;
  sd_subtitles : option (list StreamSubtitle)
}.

(** What [fetchVideoDetails] returns: [{ ...meta, streams }] or the
    degraded object [{ title: 'Unknown', streams: [] }]. *)
Inductive Details : Type :=
  | Resolved (meta : Meta) (streams : list StreamData)
  | Degraded.

Definition details_title (d : Details) : string :=
  match d with Resolved m _ => m_title m | Degraded => "Unknown" end.

Definition details_streams (d : Details) : list StreamData :=
  match d with Resolved _ s => s | Degraded => [] end.

(** ** Stream resolver: the request handler *)

Definition media_extensions : list string := ["m3u8"; "mp4"; "mkv"; "avi"; "mov"].

(** [requestUrl.match(/\.(m3u8|mp4|mkv|avi|mov)(\?|$)/i)] *)
Definition is_media (requestUrl : string) : bool :=
  let u := toLowerCase requestUrl in
  existsb (fun ext => includes u ("." +:+ ext +:+ "?") || endsWith u ("." +:+ ext))
    media_extensions.

(** The [if]/[else if] chain of the request handler. *)
Definition request_quality (requestUrl : string) : string :=
  if includes requestUrl "2160" then "2160p"
  else if includes requestUrl "1080" then "1080p"
  else if includes requestUrl "720" then "720p"
  else if includes requestUrl "480" then "480p"
  else if includes requestUrl "360" then "360p"
  else "Unknown".

(** [page.on('request', ...)] acting on the [streams] map (the request
    itself is aborted or continued, which the map does not show). *)
Definition on_request (requestUrl : string) (streams : JSMap.t StreamCandidate)
    : JSMap.t StreamCandidate :=
  if is_media requestUrl then
    let quality := request_quality requestUrl in
    if bool_decide (quality = "Unknown") then streams
    else JSMap.set quality
           (Candidate requestUrl quality (num_or_zero (parseInt quality))) streams
  else streams.

Definition on_requests (requests : list string) (streams : JSMap.t StreamCandidate)
    : JSMap.t StreamCandidate :=
  fold_left (fun m u => on_request u m) requests streams.

(** ** Stream resolver: the first [page.evaluate] *)

Definition langMap : JSMap.t string :=
  [("English", "eng"); ("German", "ger"); ("Spanish", "spa"); ("French", "fre");
   ("Hindi", "hin"); ("Portuguese", "por"); ("Russian", "rus"); ("Italian", "ita")].

(** [a || b] on strings *)
Definition str_or (a b : string) : string := if bool_decide (a = "") then b else a.

(** [el.getAttribute(n) || b] *)
Definition attr_or (a : option string) (b : string) : string :=
  match a with Some x => str_or x b | None => b end.

(** Body of [subtitleButtons.forEach], for a button whose language word
    [langMap] holds as an own entry or not at all (see [plain_button]
    below for the words this leaves out). *)
Definition button_subtitle (subtitles : JSMap.t Subtitle) (button : Button)
    : JSMap.t Subtitle :=
  match b_href button with
  | None => subtitles
  | Some href =>
      if bool_decide (href = "") then subtitles
      else
        let buttonText := b_text button in
        let lang := str_or (leading_letters buttonText) "English" in
        let langCode := default "eng" (JSMap.get lang langMap) in
        let isAuto := includes (toLowerCase buttonText) "auto translated" in
        JSMap.set lang
          (Sub href langCode langCode
             (Some (lang +:+ (if isAuto then " (Auto)" else ""))) None)
          subtitles
  end.

(** [track.src.split('.').pop().toLowerCase()] *)
Definition track_format (src : string) : string :=
  toLowerCase (default "" (last (split_on "." src ""))).

(** The subtitle written for a track with a source. *)
Definition track_entry (subtitles : JSMap.t Subtitle) (track : Track)
    : JSMap.t Subtitle :=
  let lang := str_or (t_srclang track) "und" in
  let label := str_or (t_label track) lang in
  JSMap.set lang (Sub (t_src track) lang label None (Some (track_format (t_src track))))
    subtitles.

(** Body of the document-level [track] loop. *)
Definition track_subtitle (subtitles : JSMap.t Subtitle) (track : Track)
    : JSMap.t Subtitle :=
  if bool_decide (t_src track = "") then subtitles else track_entry subtitles track.

(** Body of [video.querySelectorAll('track').forEach]. *)
Definition video_track_subtitle (subtitles : JSMap.t Subtitle) (track : Track)
    : JSMap.t Subtitle :=
  if bool_decide (t_src track = "") then subtitles
  else if bool_decide (t_kind track = "subtitles") || bool_decide (t_kind track = "captions")
  then track_entry subtitles track
  else subtitles.

Definition put_source (quality url : string) (sources : JSMap.t VideoSource)
    : JSMap.t VideoSource :=
  if bool_decide (quality = "Unknown") then sources
  else JSMap.set quality (VSource url quality) sources.

(** Body of [video.querySelectorAll('source').forEach]. *)
Definition source_element (sources : JSMap.t VideoSource) (source : SourceEl)
    : JSMap.t VideoSource :=
  if bool_decide (src_src source = "") then sources
  else
    let quality :=
      attr_or (src_size source)
        (attr_or (src_label source) (attr_or (src_title source) "Unknown")) in
    put_source quality (src_src source) sources.

(** Body of [videos.forEach]. *)
Definition video_element (acc : JSMap.t VideoSource * JSMap.t Subtitle) (video : Video)
    : JSMap.t VideoSource * JSMap.t Subtitle :=
  let '(sources, subtitles) := acc in
  let sources1 :=
    if bool_decide (v_src video = "") then sources
    else put_source (attr_or (v_size video) "Default") (v_src video) sources in
  let sources2 := fold_left source_element (v_sources video) sources1 in
  let subtitles1 := fold_left video_track_subtitle (v_tracks video) subtitles in
  (sources2, subtitles1).

(** The [subtitles] map once the buttons and the document-level tracks
    have been read. *)
Definition page_subtitles (dom : Dom) : JSMap.t Subtitle :=
  fold_left track_subtitle (d_tracks dom)
    (fold_left button_subtitle (d_buttons dom) JSMap.empty).

(** [videoData]: [{ sources, subtitles }] as arrays. *)
Definition videoData (dom : Dom) : list VideoSource * list Subtitle :=
  let '(sources, subtitles) :=
    fold_left video_element (d_videos dom) (JSMap.empty, page_subtitles dom) in
  (JSMap.values sources, JSMap.values subtitles).

(** ** Stream resolver: merging and composing *)

(** [qualityNum] of a page source (the [includes] chain of the merge). *)
Definition source_rank (quality : string) : nat :=
  if includes quality "2160" then 2160
  else if includes quality "1080" then 1080
  else if includes quality "720" then 720
  else if includes quality "480" then 480
  else if includes quality "360" then 360
  else 0.

(** Body of [videoData.sources.forEach]. *)
Definition merge_source (streams : JSMap.t StreamCandidate) (source : VideoSource)
    : JSMap.t StreamCandidate :=
  if negb (JSMap.has (vs_quality source) streams)
     && negb (bool_decide (vs_quality source = "Unknown"))
  then JSMap.set (vs_quality source)
         (Candidate (vs_url source) (vs_quality source) (source_rank (vs_quality source)))
         streams
  else streams.

Definition merge_sources (sources : list VideoSource) (streams : JSMap.t StreamCandidate)
    : JSMap.t StreamCandidate :=
  fold_left merge_source sources streams.

(** [.sort((a, b) => b.qualityNum - a.qualityNum)]: a stable sort, the
    higher [qualityNum] first. *)
Fixpoint insert_desc (x : StreamCandidate) (l : list StreamCandidate)
    : list StreamCandidate :=
  match l with
  | [] => [x]
  | y :: l' =>
      if (s_qualityNum y <=? s_qualityNum x)%nat then x :: y :: l'
      else y :: insert_desc x l'
  end.

Definition sort_streams (l : list StreamCandidate) : list StreamCandidate :=
  foldr insert_desc [] l.

Definition qualityDesc : JSMap.t string :=
  [("2160p", "4K Ultra HD"); ("1080p", "Full HD"); ("720p", "HD"); ("480p", "SD");
   ("360p", "Low Quality")].

(** [qualityDesc[stream.quality] || stream.quality] *)
Definition display_title (quality : string) : JSValue :=
  lookup_or qualityDesc quality quality.

Definition upper_ascii (c : ascii) : ascii :=
  let n := Ascii.nat_of_ascii c in
  if (97 <=? n)%nat && (n <=? 122)%nat then Ascii.ascii_of_nat (n - 32) else c.

(** [s.toUpperCase()] on ASCII text *)
Fixpoint toUpperCase (s : string) : string :=
  match s with
  | EmptyString => EmptyString
  | String c r => String (upper_ascii c) (toUpperCase r)
  end.

Definition stream_subtitle (sub : Subtitle) : StreamSubtitle :=
  {| ss_id := sub_id sub; ss_url := sub_url sub; ss_lang := sub_lang sub;
     ss_format := sub_format sub;
     ss_name := toUpperCase (sub_lang sub) +:+ " Subtitles" |}.

(** Body of the final [.map(stream => ...)]. *)
Definition streamData (title : string) (subtitles : list Subtitle)
    (stream : StreamCandidate) : StreamData :=
  {| sd_title := display_title (s_quality stream);
     sd_url := s_url stream;
     sd_name :=
       title +:+ " (" +:+ template_text (display_title (s_quality stream)) +:+ ")";
     sd_subtitles :=
       match subtitles with
       | [] => None
       | _ => Some (map stream_subtitle subtitles)
       end |}.

(** [new URL(u).protocol === 'https:'] inside [try]/[catch]; [protocol]
    is the URL parser ([None] when the constructor throws). *)
Definition is_https (protocol : string -> option string) (u : string) : bool :=
  bool_decide (protocol u = Some "https:").

(** The streams that survive the filter, in their final order. *)
Definition ranked_streams (protocol : string -> option string)
    (streams : JSMap.t StreamCandidate) : list StreamCandidate :=
  sort_streams (filter (fun s => is_https protocol (s_url s)) (JSMap.values streams)).

(** [uniqueStreams] *)
Definition uniqueStreams (protocol : string -> option string) (title : string)
    (subtitles : list Subtitle) (streams : JSMap.t StreamCandidate) : list StreamData :=
  map (streamData title subtitles) (ranked_streams protocol streams).

(** The [streams] map just before it is turned into an array: requests
    seen before the page sources are merged, the merge, requests seen
    after it. *)
Definition collected_streams (early : list string) (sources : list VideoSource)
    (late : list string) : JSMap.t StreamCandidate :=
  on_requests late (merge_sources sources (on_requests early JSMap.empty)).

(** ** Stream resolver: predicates used in the properties *)



(** Keys are distinct and every candidate sits under its own label. *)
Definition streams_wf (m : JSMap.t StreamCandidate) : Prop :=
  NoDup (JSMap.keys m) /\ Forall (fun kv => s_quality kv.2 = kv.1) m.

(** [c] was written by the request handler for one of [requests]. *)
Definition intercepted (requests : list string) (c : StreamCandidate) : Prop :=
  exists u, u ∈ requests /\ is_media u = true
    /\ c = Candidate u (request_quality u) (num_or_zero (parseInt (request_quality u))).

(** ** The environment

    Everything the code obtains from outside: the clock, the browser and
    the remote site.  Sessions are numbered in launch order; what the
    site answers may depend on the session, on the URL and, for the
    retried navigation of [fetchPage], on the attempt. *)

(** What the lookup fallback sees on its own page before it calls
    [fetchPage]: [newPage]/[goto] rejected, or a response with its status
    and whether the wait for [div.grid] and the scroll went through. *)
Inductive Probe : Type :=
  | ProbeRejected
  | ProbeResponded (status : nat) (ready : bool).

(** One rendering of a detail page by [fetchVideoDetails]. *)
Record Rendering : Type := {
  r_newPage : bool;               (* browser.newPage() *)
  r_intercept : bool;             (* page.setRequestInterception(true) *)
  r_goto : bool;                  (* page.goto(url, networkidle2) *)
  r_video : bool;                 (* page.waitForSelector('video') *)
  r_requests_early : list string; (* requests issued before the sources are merged *)
  r_dom : option Dom;             (* first page.evaluate; None: it rejects *)
  r_requests_late : list string;  (* requests issued after the merge, before close *)
  r_meta : option Meta;           (* second page.evaluate; None: it rejects *)
  r_compose : bool                (* false: an exception is raised while the
                                     stream list is composed *)
}.

Record Env : Type := {
  env_now : nat -> Z;                            (* successive Date.now() readings *)
  env_launch : nat -> bool;                      (* launchBrowser() *)
  env_newPage : nat -> Listing -> bool;          (* browser.newPage() in fetchPage *)
  env_prepare : nat -> Listing -> bool;          (* timeouts, interception, user agent *)
  env_goto : nat -> Listing -> nat -> Navigation;(* page.goto in fetchPage, per attempt *)
  env_extract : nat -> Listing -> option (list CatalogEntry);
                                                 (* page.evaluate in fetchPage *)
  env_probe : nat -> Listing -> Probe;
  env_render : nat -> string -> Rendering;
  env_protocol : string -> option string         (* new URL(u).protocol *)
}.

(** ** Program state and effects *)

Inductive Event : Type :=
  | Launch (session : nat)
  | Close (session : nat)
  | Goto (session : nat) (url : Listing)
  | ProbeGoto (session : nat) (url : Listing)
  | GotoDetail (session : nat) (url : string)
  | Delay (ms : Z).

Global Instance Event_eq_dec : EqDecision Event.
Proof. solve_decision. Defined.

Record State : Type := {
  ticks : nat;                                  (* Date.now() calls so far *)
  launched : nat;                               (* launchBrowser() calls so far *)
  catalogCache : Cache.t (list CatalogEntry);
  streamCache : Cache.t Details;
  trace : list Event
}.

Inductive Result (A : Type) : Type :=
  | Ret (a : A)
  | Throw (e : string).
Arguments Ret {A} _.
Arguments Throw {A} _.

(** A computation may read and change the state and may throw. *)
Definition M (A : Type) : Type := State -> Result A * State.

Global Instance M_ret : MRet M := fun A a s => (Ret a, s).
Global Instance M_bind : MBind M := fun A B f m s =>
  match m s with
  | (Ret a, s') => f a s'
  | (Throw e, s') => (Throw e, s')
  end.

Definition throw {A} (e : string) : M A := fun s => (Throw e, s).

(** [try { m } catch (e) { h e }] *)
Definition try_catch {A} (m : M A) (h : string -> M A) : M A := fun s =>
  match m s with
  | (Ret a, s') => (Ret a, s')
  | (Throw e, s') => h e s'
  end.

(** The state after some more events. *)
Definition log (events : list Event) (s : State) : State :=
  {| ticks := ticks s; launched := launched s;
     catalogCache := catalogCache s; streamCache := streamCache s;
     trace := trace s ++ events |}.

Definition emit (e : Event) : M unit := fun s => (Ret tt, log [e] s).

(** [await delay(ms)] *)
Definition delay (ms : Z) : M unit := emit (Delay ms).

(** [browser.close()] *)
Definition browser_close (session : nat) : M unit := emit (Close session).

(** [if (browser) await browser.close()] *)
Definition close_if_open (browser : option nat) : M unit :=
  match browser with Some b => browser_close b | None => mret tt end.

Definition guard (ok : bool) (e : string) : M unit :=
  if ok then mret tt else throw e.

(** One more call of [launchBrowser]. *)
Definition count_launch (s : State) : State :=
  {| ticks := ticks s; launched := S (launched s);
     catalogCache := catalogCache s; streamCache := streamCache s;
     trace := trace s |}.

Section Effects.
Context (env : Env).

(** [launchBrowser()] *)
Definition launchBrowser : M nat := fun s =>
  let session := launched s in
  if env_launch env session then (Ret session, log [Launch session] (count_launch s))
  else (Throw "launch", count_launch s).

(** [catalogCache.get(key)]: [Date.now()] is read only for a present key. *)
Definition catalogCache_get (key : string) : M (option (list CatalogEntry)) := fun s =>
  if Cache.has key (catalogCache s) then
    let '(v, c) := Cache.get key (env_now env (ticks s)) (catalogCache s) in
    (Ret v, {| ticks := S (ticks s); launched := launched s;
               catalogCache := c; streamCache := streamCache s; trace := trace s |})
  else (Ret None, s).

(** [catalogCache.set(key, value)] *)
Definition catalogCache_set (key : string) (v : list CatalogEntry) : M unit := fun s =>
  (Ret tt, {| ticks := S (ticks s); launched := launched s;
              catalogCache := Cache.set key v None (env_now env (ticks s)) (catalogCache s);
              streamCache := streamCache s; trace := trace s |}).

(** [streamCache.get(key)] *)
Definition streamCache_get (key : string) : M (option Details) := fun s =>
  if Cache.has key (streamCache s) then
    let '(v, c) := Cache.get key (env_now env (ticks s)) (streamCache s) in
    (Ret v, {| ticks := S (ticks s); launched := launched s;
               catalogCache := catalogCache s; streamCache := c; trace := trace s |})
  else (Ret None, s).

(** [streamCache.set(key, value)] *)
Definition streamCache_set (key : string) (v : Details) : M unit := fun s =>
  (Ret tt, {| ticks := S (ticks s); launched := launched s;
              catalogCache := catalogCache s;
              streamCache := Cache.set key v None (env_now env (ticks s)) (streamCache s);
              trace := trace s |}).

End Effects.

(** ** The page fetcher ([fetchPage]) *)

Section Crawl.
Context (env : Env).

(** The retry loop of [fetchPage]: [retries] attempts are left,
    [attempt] have been made, [response] is the last response
    received. *)
Fixpoint navigate (session : nat) (url : Listing) (retries attempt : nat)
    (response : option nat) : M (option nat) :=
  match retries with
  | 0 => mret response
  | S retries' =>
      emit (Goto session url);;
      match env_goto env session url attempt with
      | Responded status =>
          if bool_decide (status = 200) then mret (Some status)
          else
            (if (0 <? retries')%nat then delay 2000 else mret tt);;
            navigate session url retries' (S attempt) (Some status)
      | Rejected e =>
          if bool_decide (retries' = 0) then throw e
          else delay 2000;; navigate session url retries' (S attempt) response
      end
  end.

(** [fetchPage(browser, pageNum, search, catalogType)].  [newPage] is
    outside the [try]; the wait for [div.grid] is in a [try] of its own
    and never fails the page; closing the page does not show in the
    state. *)
Definition fetchPage (session pageNum : nat) (search catalogType : string)
    : M (list CatalogEntry) :=
  let url := baseUrl search catalogType pageNum in
  guard (env_newPage env session url) "newPage";;
  try_catch
    (guard (env_prepare env session url) "prepare";;
     response ← navigate session url 3 0 None;
     if negb (from_option (fun status => bool_decide (status = 200%nat)) false response)
     then mret []
     else
       match env_extract env session url with
       | Some pageItems => mret pageItems
       | None => throw "evaluate"
       end)
    (fun _ => mret []).

(** [await Promise.all(pagesToLoad.map(pageNum => fetchPage(...)))]:
    every page fetch is started; the result is rejected when one of
    them is. *)
Fixpoint fetchPages (session : nat) (pages : list nat) (search catalogType : string)
    : M (list (list CatalogEntry)) :=
  match pages with
  | [] => mret []
  | pageNum :: rest => fun s =>
      match fetchPage session pageNum search catalogType s with
      | (Ret items, s1) =>
          (others ← fetchPages session rest search catalogType;
           mret (items :: others)) s1
      | (Throw e, s1) =>
          (Throw e, (fetchPages session rest search catalogType s1).2)
      end
  end.

(** ** The catalog builder ([fetchCatalog]) *)

(** The [for] loop that fills [pagesToLoad]. *)
Fixpoint pagesToLoad_from (nextPage i fuel : nat) : list nat :=
  match fuel with
  | 0 => []
  | S fuel' =>
      if (i <? CONCURRENT_PAGES)%nat && (nextPage + i <=? MAX_PAGES)%nat
      then (nextPage + i) :: pagesToLoad_from nextPage (S i) fuel'
      else []
  end.

Definition pagesToLoad (nextPage : nat) : list nat :=
  pagesToLoad_from nextPage 0 CONCURRENT_PAGES.

(** [globalCacheKey] *)
Definition globalCacheKey (search catalogType : string) : string :=
  if bool_decide (search = "") then "catalog-" +:+ catalogType +:+ "-all"
  else "search-" +:+ search +:+ "-all".

(** The guard of the [while] loop. *)
Definition needs_more (skip : nat) (allItems : list CatalogEntry) : bool :=
  (length allItems <? skip + ITEMS_PER_PAGE)%nat
  && (length allItems <? MAX_PAGES * ITEMS_PER_PAGE)%nat.

(** The [while] loop of [fetchCatalog], returning the final [allItems].
    Each turn either leaves the loop or makes [allItems] longer, so
    [fuel] beyond the distance to the ceiling is never used up
    (see [fetchCatalog_loop_crawl]). *)
Fixpoint fetchCatalog_loop (fuel skip : nat) (search catalogType : string)
    (allItems : list CatalogEntry) : M (list CatalogEntry) :=
  match fuel with
  | 0 => mret allItems
  | S fuel' =>
      if needs_more skip allItems then
        let nextPage := (length allItems / ITEMS_PER_PAGE + 1)%nat in
        match pagesToLoad nextPage with
        | [] => mret allItems
        | pages => fun s =>
            match launchBrowser env s with
            | (Throw _, s1) => (Ret allItems, s1)
            | (Ret browser, s1) =>
                match fetchPages browser pages search catalogType s1 with
                | (Throw _, s2) => (browser_close browser;; mret allItems) s2
                | (Ret fetched, s2) =>
                    match concat fetched with
                    | [] => (browser_close browser;; mret allItems) s2
                    | pageItems =>
                        (catalogCache_set env (globalCacheKey search catalogType)
                           (allItems ++ pageItems);;
                         browser_close browser;;
                         fetchCatalog_loop fuel' skip search catalogType
                           (allItems ++ pageItems)) s2
                    end
                end
            end
        end
      else mret allItems
  end.

(** [fetchCatalog(skip, search, catalogType)], returning the slice
    together with the final [allItems]. *)
Definition fetchCatalog_full (skip : nat) (search catalogType : string)
    : M (list CatalogEntry * list CatalogEntry) :=
  cached ← catalogCache_get env (globalCacheKey search catalogType);
  allItems ← fetchCatalog_loop (S (MAX_PAGES * ITEMS_PER_PAGE)) skip search catalogType
               (default [] cached);
  let start := skip in
  let stop := (skip + ITEMS_PER_PAGE) `min` length allItems in
  mret (slice start stop allItems, allItems).

Definition fetchCatalog (skip : nat) (search catalogType : string)
    : M (list CatalogEntry) :=
  r ← fetchCatalog_full skip search catalogType; mret r.1.

End Crawl.

(** ** The lookup fallback of the meta and stream handlers

    [defineMetaHandler] and [defineStreamHandler] start with the same
    block: find the requested [id] in the cached catalog and, when it is
    not there, crawl listing pages until it shows up. *)

Section Lookup.
Context (env : Env).

(** [const [prefix, catalogType, ...rest] = id.split(':')], the second
    component as it prints in a template string. *)
Definition catalogType_of (id : string) : string :=
  nth 1 (split_on ":" id "") "undefined".

(** [items.find(i => i.id === id)] *)
Definition find_item (id : string) (items : list CatalogEntry) : option CatalogEntry :=
  List.find (fun i => bool_decide (e_id i = id)) items.

(** How one turn of the crawl loop ends. *)
Inductive Turn : Type :=
  | Stop                               (* [break] without an item *)
  | Found (item : CatalogEntry)        (* [found = true; break] *)
  | Next (cachedItems : list CatalogEntry).  (* [pageNum++] *)

(** The [try] block of one turn, after [launchBrowser]. *)
Definition lookup_turn (browser pageNum : nat) (id catalogType cacheKey : string)
    (cachedItems : list CatalogEntry) : M Turn :=
  let url := baseUrl "" catalogType pageNum in
  emit (ProbeGoto browser url);;
  match env_probe env browser url with
  | ProbeRejected => throw "goto"
  | ProbeResponded status ready =>
      if negb (bool_decide (status = 200)) then mret Stop
      else
        guard ready "waitForSelector";;
        delay 1000;;
        pageItems ← fetchPage env browser pageNum "" catalogType;
        match pageItems with
        | [] => mret Stop
        | _ =>
            catalogCache_set env cacheKey (cachedItems ++ pageItems);;
            match find_item id pageItems with
            | Some item => mret (Found item)
            | None => mret (Next (cachedItems ++ pageItems))
            end
        end
  end.

(** [while (!found && pageNum <= MAX_PAGES)].  [browser] is declared
    outside the loop: it keeps the session of the previous turn until
    the next launch succeeds.  The page number grows by one per turn,
    so [fuel] is the number of pages up to the ceiling. *)
Fixpoint lookup_loop (fuel pageNum : nat) (browser : option nat)
    (id catalogType cacheKey : string) (cachedItems : list CatalogEntry)
    : M (option CatalogEntry) :=
  match fuel with
  | 0 => mret None
  | S fuel' =>
      if (pageNum <=? MAX_PAGES)%nat then fun s =>
        match launchBrowser env s with
        | (Throw _, s1) => (close_if_open browser;; mret None) s1
        | (Ret b, s1) =>
            match lookup_turn b pageNum id catalogType cacheKey cachedItems s1 with
            | (Throw _, s2) => (browser_close b;; mret None) s2
            | (Ret Stop, s2) => (browser_close b;; mret None) s2
            | (Ret (Found item), s2) => (browser_close b;; mret (Some item)) s2
            | (Ret (Next cachedItems'), s2) =>
                (browser_close b;;
                 lookup_loop fuel' (S pageNum) (Some b) id catalogType cacheKey
                   cachedItems') s2
            end
        end
      else mret None
  end.

(** The lookup block: [let pageNum = 1]. *)
Definition lookupItem (id : string) : M (option CatalogEntry) :=
  let catalogType := catalogType_of id in
  let cacheKey := "catalog-" +:+ catalogType +:+ "-all" in
  cached ← catalogCache_get env cacheKey;
  let cachedItems := default [] cached in
  match find_item id cachedItems with
  | Some item => mret (Some item)
  | None => lookup_loop MAX_PAGES 1 None id catalogType cacheKey cachedItems
  end.

End Lookup.

(** ** The lookup fallback of the earlier variant

    The earlier version of the file keeps one catalog namespace
    (['catalog-all']) and has the fallback in [defineMetaHandler] only.
    It extracts the records on the handler's own page instead of calling
    [fetchPage], declares [browser] inside the loop, and its loop
    ([while (!found)]) has no page ceiling, so this model stops with
    [None] when [fuel] turns have been made. *)

Module Earlier.
Section Lookup.
Context (env : Env).

(** The [try] block of one turn, after [launchBrowser]. *)
Definition lookup_turn (browser pageNum : nat) (id : string)
    (allItems : list CatalogEntry) : M Turn :=
  let url := OrderListing "view-count" pageNum in
  emit (ProbeGoto browser url);;
  match env_probe env browser url with
  | ProbeRejected => throw "goto"
  | ProbeResponded status ready =>
      if negb (bool_decide (status = 200%nat)) then mret Stop
      else
        guard ready "waitForSelector";;
        delay 1000;;
        match env_extract env browser url with
        | None => throw "evaluate"
        | Some [] => mret Stop
        | Some pageItems =>
            catalogCache_set env "catalog-all" (allItems ++ pageItems);;
            match find_item id pageItems with
            | Some item => mret (Found item)
            | None => mret (Next (allItems ++ pageItems))
            end
        end
  end.

(** [while (!found)] *)
Fixpoint lookup_loop (fuel pageNum : nat) (id : string) (allItems : list CatalogEntry)
    : M (option (option CatalogEntry)) :=
  match fuel with
  | 0 => mret None
  | S fuel' => fun s =>
      match launchBrowser env s with
      | (Throw _, s1) => (Ret (Some None), s1)
      | (Ret b, s1) =>
          match lookup_turn b pageNum id allItems s1 with
          | (Throw _, s2) => (browser_close b;; mret (Some None)) s2
          | (Ret Stop, s2) => (browser_close b;; mret (Some None)) s2
          | (Ret (Found item), s2) => (browser_close b;; mret (Some (Some item))) s2
          | (Ret (Next allItems'), s2) =>
              (browser_close b;; lookup_loop fuel' (S pageNum) id allItems') s2
          end
      end
  end.

(** The lookup block:
    [let pageNum = Math.floor(allItems.length / ITEMS_PER_PAGE) + 1]. *)
Definition lookupItem (fuel : nat) (id : string) : M (option (option CatalogEntry)) :=
  cached ← catalogCache_get env "catalog-all";
  let allItems := default [] cached in
  match find_item id allItems with
  | Some item => mret (Some (Some item))
  | None => lookup_loop fuel (length allItems / ITEMS_PER_PAGE + 1) id allItems
  end.

End Lookup.
End Earlier.

(** ** The stream resolver ([fetchVideoDetails]) *)

Section Resolve.
Context (env : Env).

(** [s.replace(pat, rep)] with a string pattern: the first occurrence. *)
Definition replace_first (pat rep s : string) : string :=
  match String.index 0 pat s with
  | Some i =>
      String.substring 0 i s +:+ rep
      +:+ String.substring (i + String.length pat)
            (String.length s - (i + String.length pat)) s
  | None => s
  end.

(** The repair of a doubled origin at the top of [fetchVideoDetails]. *)
Definition normalize_url (url : string) : string :=
  if includes url "hstream.moehttps://"
  then replace_first "hstream.moehttps://" "https://" url
  else url.

Definition detailsKey (url : string) : string := "details-" +:+ normalize_url url.

(** Every step of one rendering goes through. *)
Definition rendering_ok (r : Rendering) : bool :=
  r_newPage r && r_intercept r && r_goto r && r_video r
  && bool_decide (is_Some (r_dom r)) && bool_decide (is_Some (r_meta r))
  && r_compose r.

(** The [try] block after [launchBrowser]. *)
Definition resolve_in (browser : nat) (url cacheKey : string) : M Details :=
  let r := env_render env browser url in
  guard (r_newPage r) "newPage";;
  guard (r_intercept r) "setRequestInterception";;
  emit (GotoDetail browser url);;
  guard (r_goto r) "goto";;
  guard (r_video r) "waitForSelector";;
  match r_dom r with
  | None => throw "evaluate"
  | Some dom =>
      let vd := videoData dom in
      match r_meta r with
      | None => throw "evaluate"
      | Some meta =>
          browser_close browser;;
          guard (r_compose r) "compose";;
          let streams :=
            collected_streams (r_requests_early r) vd.1 (r_requests_late r) in
          let result :=
            Resolved meta (uniqueStreams (env_protocol env) (m_title meta) vd.2 streams) in
          streamCache_set env cacheKey result;;
          mret result
      end
  end.

(** [fetchVideoDetails(url)] *)
Definition fetchVideoDetails (url : string) : M Details :=
  let url := normalize_url url in
  let cacheKey := "details-" +:+ url in
  cached ← streamCache_get env cacheKey;
  match cached with
  | Some details => mret details
  | None => fun s =>
      match launchBrowser env s with
      | (Throw _, s1) => (Ret Degraded, s1)
      | (Ret browser, s1) =>
          match resolve_in browser url cacheKey s1 with
          | (Ret details, s2) => (Ret details, s2)
          | (Throw _, s2) => (browser_close browser;; mret Degraded) s2
          end
      end
  end.

End Resolve.

(** ** The in-page extraction of [fetchPage]

    The callback of [page.evaluate] in [fetchPage] turns every listing
    container of the page into at most one catalog record.  A container
    is given by what the callback reads from it. *)

(** A title candidate: its trimmed text content and its trimmed [title]
    and [alt] attributes ([None]: no such attribute). *)
Record TitleEl : Type := {
  te_text : string;
  te_title : option string;
  te_alt : option string
}.

(** An [img] element: [img.src] and its [data-src] attribute. *)
Record ImageEl : Type := { img_src : string; img_data_src : option string }.

(** A container: the [href] of its link (the container itself when it is
    an anchor, its first anchor otherwise; [None] without one), the eight
    title candidates and the two image candidates in the order in which
    the callback tries them ([None]: the selector finds nothing). *)
Record Container : Type := {
  c_href : option string;
  c_titles : list (option TitleEl);
  c_images : list (option ImageEl)
}.

Fixpoint all_digits (s : string) : bool :=
  match s with
  | EmptyString => true
  | String c r => is_digit c && all_digits r
  end.

(** [href.match(/-(\d+)$/)]: the digits captured by the leftmost match. *)
Fixpoint episode_match (s : string) : option string :=
  match s with
  | EmptyString => None
  | String c r =>
      if bool_decide (c = "-"%char) && negb (bool_decide (r = "")) && all_digits r
      then Some r
      else episode_match r
  end.

(** [s.startsWith(p)] *)
Definition startsWith (s p : string) : bool := String.prefix p s.

(** An optional group [(?:p)?] at the head of [s]: what is left after it. *)
Definition skip_group (p s : string) : string :=
  if startsWith s p
  then String.substring (String.length p) (String.length s - String.length p) s
  else s.

(** Whether all of [s] matches
    [\/?(?:-watch)?(?:-online)?(?:-free)?(?:-streaming)?(?:-sub)?(?:-eng)?(?:-ita)?(?:-\d+)?].
    No group can start where the one before it was left out, so taking
    every group that is present decides the match. *)
Definition slug_tail (s : string) : bool :=
  let rest :=
    fold_left (fun rest group => skip_group group rest)
      ["/"; "-watch"; "-online"; "-free"; "-streaming"; "-sub"; "-eng"; "-ita"] s in
  match rest with
  | EmptyString => true
  | String c digits =>
      bool_decide (c = "-"%char) && negb (bool_decide (digits = "")) && all_digits digits
  end.

(** [rawId.replace(/...$/, '')]: the pattern also matches the empty
    string at the end, so there is always a match; the leftmost one is
    removed. *)
Fixpoint strip_slug (s : string) : string :=
  if slug_tail s then EmptyString
  else
    match s with
    | EmptyString => EmptyString
    | String c r => String c (strip_slug r)
    end.

(** [s.split(sep)[1]] for a separator that occurs in [s]: the text
    between its first and its second occurrence. *)
Definition second_part (sep s : string) : option string :=
  match String.index 0 sep s with
  | None => None
  | Some i =>
      let rest :=
        String.substring (i + String.length sep)
          (String.length s - (i + String.length sep)) s in
      match String.index 0 sep rest with
      | Some j => Some (String.substring 0 j rest)
      | None => Some rest
      end
  end.

(** [textContent?.trim() || getAttribute('title')?.trim()
     || getAttribute('alt')?.trim()]; [None] when the result is falsy. *)
Definition candidate_text (candidate : TitleEl) : option string :=
  if negb (bool_decide (te_text candidate = "")) then Some (te_text candidate)
  else
    match te_title candidate with
    | Some t =>
        if negb (bool_decide (t = "")) then Some t
        else
          match te_alt candidate with
          | Some a => if negb (bool_decide (a = "")) then Some a else None
          | None => None
          end
    | None =>
        match te_alt candidate with
        | Some a => if negb (bool_decide (a = "")) then Some a else None
        | None => None
        end
    end.

(** The loop over [titleCandidates], from [let title = 'Unknown Title']. *)
Fixpoint pick_title (candidates : list (option TitleEl)) : string :=
  match candidates with
  | [] => "Unknown Title"
  | Some candidate :: rest =>
      match candidate_text candidate with
      | Some text => text
      | None => pick_title rest
      end
  | None :: rest => pick_title rest
  end.

(** The loop over [imgCandidates], from [let poster = '']. *)
Fixpoint pick_poster (candidates : list (option ImageEl)) : string :=
  match candidates with
  | [] => ""
  | Some img :: rest =>
      let poster := str_or (img_src img) (attr_or (img_data_src img) "") in
      if bool_decide (poster = "") then pick_poster rest else poster
  | None :: rest => pick_poster rest
  end.

(** Body of [containers.forEach]: the record pushed for one container,
    if any. *)
Definition extract_item (catalogType : string) (item : Container) : option CatalogEntry :=
  match c_href item with
  | None => None
  | Some href =>
      if bool_decide (href = "") then None
      else if negb (includes href "/hentai/") then None
      else
        let episodeMatch := episode_match href in
        match second_part "/hentai/" href with
        | None => None
        | Some rawId =>
            let baseId := strip_slug rawId in
            let id :=
              match episodeMatch with
              | Some episodeNumber => baseId +:+ "-" +:+ episodeNumber
              | None => baseId
              end in
            if bool_decide (id = "") then None
            else
              let fullId := "hstream:" +:+ catalogType +:+ ":" +:+ id in
              let title := pick_title (c_titles item) in
              let title :=
                match episodeMatch with
                | Some episodeNumber => title +:+ " - " +:+ episodeNumber
                | None => title
                end in
              let poster := pick_poster (c_images item) in
              let poster :=
                if negb (bool_decide (poster = "")) && negb (startsWith poster "http")
                then "https://hstream.moe" +:+ poster
                else poster in
              Some (Entry fullId title poster href episodeMatch)
        end
  end.

(** The records returned by the callback for the containers of a page,
    in document order of the selectors. *)
Definition extract_items (catalogType : string) (containers : list Container)
    : list CatalogEntry :=
  omap (extract_item catalogType) containers.

(** ** The handlers

    The catalog handler and the meta handler.  The stream handler
    rewrites the details object that the stream cache holds; its response
    is not modelled. *)

(** One element of [metas] in the catalog response ([type: 'movie'] and
    [posterShape: 'poster'] are constants). *)
Record MetaPreview : Type := {
  mp_id : string;
  mp_name : string;
  mp_poster : string
}.

Definition preview (item : CatalogEntry) : MetaPreview :=
  {| mp_id := e_id item; mp_name := e_name item; mp_poster := e_poster item |}.

(** The [meta] object of the meta response; [None] stands for
    [undefined].  [type], [posterShape], [language], [country] and
    [imdbRating] are constants. *)
Record MetaView : Type := {
  mv_id : string;
  mv_name : string;
  mv_poster : string;
  mv_background : string;
  mv_description : option string;
  mv_releaseInfo : option string;
  mv_genres : option (list string);
  mv_runtime : string;
  mv_awards : option string;
  mv_director : option string;
  mv_originalTitle : option string
}.

(** The object literal returned by [defineMetaHandler]. *)
Definition meta_view (item : CatalogEntry) (details : Details) : MetaView :=
  {| mv_id := e_id item;
     mv_name := str_or (details_title details) (e_name item);
     mv_poster := e_poster item;
     mv_background := e_poster item;
     mv_description :=
       match details with Resolved m _ => Some (m_description m) | Degraded => None end;
     mv_releaseInfo :=
       match details with Resolved m _ => m_releaseInfo m | Degraded => None end;
     mv_genres :=
       match details with Resolved m _ => Some (m_genres m) | Degraded => None end;
     mv_runtime :=
       "Episode "
       +:+ default "undefined"
             (match details with Resolved m _ => m_episodeNumber m | Degraded => None end);
     mv_awards :=
       match details with
       | Resolved m _ =>
           match m_viewCount m with
           | Some viewCount =>
               if bool_decide (viewCount = "") then None else Some (viewCount +:+ " views")
           | None => None
           end
       | Degraded => None
       end;
     mv_director :=
       match details with Resolved m _ => m_studio m | Degraded => None end;
     mv_originalTitle :=
       match details with Resolved m _ => m_japaneseTitle m | Degraded => None end |}.

Section Handlers.
Context (env : Env).

(** [defineCatalogHandler], with [skip] and [search] as read from
    [extra]; the result is [metas]. *)
Definition catalogHandler (id : string) (skip : nat) (search : string)
    : M (list MetaPreview) :=
  let catalogType := if bool_decide (id = "hstream-recent") then "recent" else "popular" in
  catalog ← fetchCatalog env skip search catalogType;
  mret (preview <$> catalog).

(** [defineMetaHandler]; the result is [meta] ([None]: [null]). *)
Definition metaHandler (id : string) : M (option MetaView) :=
  found ← lookupItem env id;
  match found with
  | None => mret None
  | Some item =>
      details ← fetchVideoDetails env (e_link item);
      mret (Some (meta_view item details))
  end.

End Handlers.

(** ** Sessions left open *)

(** The sessions open after an event, given those open before it. *)
Definition track_session (open : list nat) (e : Event) : list nat :=
  match e with
  | Launch b => b :: open
  | Close b => filter (fun b' => b' ≠ b) open
  | _ => open
  end.

(** The sessions launched and not closed in the course of [events]. *)
Definition open_sessions (events : list Event) : list nat :=
  fold_left track_session events [].

(** What a call of [fetchCatalog] may do on the site: launch and close
    sessions, wait, and navigate to listing pages of its namespace
    within the page range. *)
Definition catalog_event (search catalogType : string) (e : Event) : Prop :=
  match e with
  | Launch _ | Close _ | Delay _ => True
  | Goto _ url =>
      exists pageNum, (1 <= pageNum <= MAX_PAGES)%nat
                      /\ url = baseUrl search catalogType pageNum
  | ProbeGoto _ _ | GotoDetail _ _ => False
  end.


(** ** Predicates used in the further properties *)

(** [c] was merged from one of the page [sources]. *)
Definition from_page (sources : list VideoSource) (c : StreamCandidate) : Prop :=
  exists source, source ∈ sources
    /\ c = Candidate (vs_url source) (vs_quality source) (source_rank (vs_quality source)).

(** An entry of the [streams] map sits under a label other than
    ['Unknown'] and was written by the request handler for one of
    [requests] or merged from one of [sources]. *)
Definition origin_ok (requests : list string) (sources : list VideoSource)
    (kv : string * StreamCandidate) : Prop :=
  kv.1 ≠ "Unknown" /\ (intercepted requests kv.2 \/ from_page sources kv.2).

(** An entry of the in-page [sources] map sits under its own label and
    has a URL; the label is neither empty nor ['Unknown']. *)
Definition source_ok (kv : string * VideoSource) : Prop :=
  vs_quality kv.2 = kv.1 /\ vs_url kv.2 ≠ "" /\ kv.1 ≠ "" /\ kv.1 ≠ "Unknown".

(** The language word of a download button names no member that plain
    objects inherit: [langMap[lang]] is then an own entry of the table or
    [undefined], as [button_subtitle] has it.  (For a word such as
    [constructor] the code finds the inherited member, and the language
    code and the identifier of the subtitle are that member, not a
    string.) *)
Definition plain_button (button : Button) : Prop :=
  str_or (leading_letters (b_text button)) "English" ∉ object_prototype_members.

(** An entry of the in-page [subtitles] map has a URL, a language code
    and an identifier. *)
Definition subtitle_ok (kv : string * Subtitle) : Prop :=
  sub_url kv.2 ≠ "" /\ sub_lang kv.2 ≠ "" /\ sub_id kv.2 ≠ "".

(** No session is launched in the course of [events]. *)
Definition quiet (events : list Event) : Prop :=
  Forall (fun e => match e with Launch _ => False | _ => True end) events.

(** [events] leave no session open that was not open before them. *)
Definition tidy (events : list Event) : Prop :=
  forall open, fold_left track_session events open ⊆ open.

(** What the lookup fallback may do on the site: launch and close
    sessions, wait, and open or navigate to listing pages of the
    catalog named in the identity, within the page range. *)
Definition lookup_event (catalogType : string) (e : Event) : Prop :=
  match e with
  | Launch _ | Close _ | Delay _ => True
  | Goto _ url | ProbeGoto _ url =>
      exists pageNum, (1 <= pageNum <= MAX_PAGES)%nat
                      /\ url = baseUrl "" catalogType pageNum
  | GotoDetail _ _ => False
  end.

(** What a call of [fetchVideoDetails] for [url] may do on the site:
    launch and close a session and open the detail page. *)
Definition detail_event (url : string) (e : Event) : Prop :=
  match e with
  | Launch _ | Close _ => True
  | GotoDetail _ u => u = normalize_url url
  | Goto _ _ | ProbeGoto _ _ | Delay _ => False
  end.


(** ** Concrete scenarios *)

(** The scheme up to the first colon, in lower case: what the URL parser
    reports as [protocol] for the absolute URLs used below. *)
Definition scheme_of (u : string) : option string :=
  match String.index 0 ":" u with
  | Some i => Some (toLowerCase (String.substring 0 (S i) u))
  | None => None
  end.

Definition blank_rendering : Rendering :=
  {| r_newPage := true; r_intercept := true; r_goto := true; r_video := true;
     r_requests_early := []; r_dom := None; r_requests_late := [];
     r_meta := None; r_compose := true |}.

(** A site on which every call goes through and every page is empty. *)
Definition calm_env : Env :=
  {| env_now := fun n => Z.of_nat n;
     env_launch := fun _ => true;
     env_newPage := fun _ _ => true;
     env_prepare := fun _ _ => true;
     env_goto := fun _ _ _ => Responded 200;
     env_extract := fun _ _ => Some [];
     env_probe := fun _ _ => ProbeResponded 200 true;
     env_render := fun _ _ => blank_rendering;
     env_protocol := scheme_of |}.

(** The state at start-up: [new Cache(3 * 60 * 60 * 1000)] for the
    catalog, [new Cache(1 * 60 * 60 * 1000)] for the streams. *)
Definition boot : State :=
  {| ticks := 0; launched := 0;
     catalogCache := Cache.new (Some (3 * 60 * 60 * 1000)%Z);
     streamCache := Cache.new (Some (1 * 60 * 60 * 1000)%Z);
     trace := [] |}.

(** A detail page whose player requests the 720p playlist and whose
    markup also lists a 720p source. *)
Definition playlist_720 : string := "https://cdn.example/v/720/index.m3u8".
Definition plain_playlist_720 : string := "http://cdn.example/v/720/index.m3u8".
Definition inline_720 : VideoSource := VSource "https://cdn.example/v/720.mp4" "720p".

(** A player that requests the 360p, the 1080p and the 720p playlist, in
    that order. *)
Definition three_playlists : list string :=
  ["https://cdn.example/v/360/index.m3u8";
   "https://cdn.example/v/1080/index.m3u8";
   "https://cdn.example/v/720/index.m3u8"].



(** A detail page offering the English subtitles twice: as a download
    button and as a [track] of the player. *)
Definition english_button : Button :=
  {| b_href := Some "/subs/episode-1.eng.ass"; b_text := "English" |}.

Definition english_track : Track :=
  {| t_src := "https://hstream.moe/subs/episode-1.eng.vtt"; t_srclang := "eng";
     t_label := "English"; t_kind := "subtitles" |}.

Definition english_page : Dom :=
  {| d_buttons := [english_button]; d_tracks := [english_track]; d_videos := [] |}.

(** The same page with the track tagged by the language name. *)
Definition english_track_named : Track :=
  {| t_src := "https://hstream.moe/subs/episode-1.eng.vtt"; t_srclang := "English";
     t_label := "English"; t_kind := "subtitles" |}.

Definition english_page_named : Dom :=
  {| d_buttons := [english_button]; d_tracks := [english_track_named]; d_videos := [] |}.

(** What the retry loop of [fetchPage] does on the page when it makes [k]
    attempts: navigations two seconds apart. *)
Definition navigation_events (session : nat) (url : Listing) (k : nat) : list Event :=
  match k with
  | 0 => []
  | S k' => Goto session url :: concat (replicate k' [Delay 2000; Goto session url])
  end.

Definition entry_a : CatalogEntry :=
  Entry "hstream:popular:alpha-1" "Alpha - 1" "https://hstream.moe/img/alpha.webp"
    "https://hstream.moe/hentai/alpha-1" (Some "1").

Definition entry_b : CatalogEntry :=
  Entry "hstream:popular:beta-2" "Beta - 2" "https://hstream.moe/img/beta.webp"
    "https://hstream.moe/hentai/beta-2" (Some "2").

(** A site that cannot be reached: every navigation is rejected. *)
Definition unreachable_env : Env :=
  {| env_now := env_now calm_env;
     env_launch := env_launch calm_env;
     env_newPage := env_newPage calm_env;
     env_prepare := env_prepare calm_env;
     env_goto := fun _ _ _ => Rejected "net::ERR_CONNECTION_REFUSED";
     env_extract := env_extract calm_env;
     env_probe := env_probe calm_env;
     env_render := env_render calm_env;
     env_protocol := env_protocol calm_env |}.

(** A site that answers 503, then drops the connection, then serves the
    page, which lists one record. *)
Definition flaky_env : Env :=
  {| env_now := env_now calm_env;
     env_launch := env_launch calm_env;
     env_newPage := env_newPage calm_env;
     env_prepare := env_prepare calm_env;
     env_goto := fun _ _ attempt =>
       match attempt with
       | 0 => Responded 503
       | 1 => Rejected "net::ERR_CONNECTION_RESET"
       | _ => Responded 200
       end;
     env_extract := fun _ _ => Some [entry_a];
     env_probe := env_probe calm_env;
     env_render := env_render calm_env;
     env_protocol := env_protocol calm_env |}.

Definition detail_alpha : string := "https://hstream.moe/hentai/alpha-1".

Definition meta_alpha : Meta :=
  {| m_title := "Alpha - 1"; m_japaneseTitle := None; m_description := "";
     m_releaseInfo := Some "2024-01-05"; m_studio := None; m_genres := ["4k"];
     m_viewCount := None; m_episodeNumber := Some "1"; m_subtitles := [] |}.

(** A detail page that renders: the player requests three playlists and
    the page offers the English subtitles as a button and as a track. *)
Definition alpha_rendering : Rendering :=
  {| r_newPage := true; r_intercept := true; r_goto := true; r_video := true;
     r_requests_early := three_playlists;
     r_dom := Some english_page;
     r_requests_late := [];
     r_meta := Some meta_alpha;
     r_compose := true |}.

Definition alpha_env : Env :=
  {| env_now := env_now calm_env;
     env_launch := env_launch calm_env;
     env_newPage := env_newPage calm_env;
     env_prepare := env_prepare calm_env;
     env_goto := env_goto calm_env;
     env_extract := env_extract calm_env;
     env_probe := env_probe calm_env;
     env_render := fun _ _ => alpha_rendering;
     env_protocol := env_protocol calm_env |}.

(** A detail page whose navigation times out. *)
Definition stalled_rendering : Rendering :=
  {| r_newPage := true; r_intercept := true; r_goto := false; r_video := true;
     r_requests_early := []; r_dom := None; r_requests_late := [];
     r_meta := None; r_compose := true |}.

Definition stalled_env : Env :=
  {| env_now := env_now calm_env;
     env_launch := env_launch calm_env;
     env_newPage := env_newPage calm_env;
     env_prepare := env_prepare calm_env;
     env_goto := env_goto calm_env;
     env_extract := env_extract calm_env;
     env_probe := env_probe calm_env;
     env_render := fun _ _ => stalled_rendering;
     env_protocol := env_protocol calm_env |}.

(** No browser can be launched. *)
Definition headless_env : Env :=
  {| env_now := env_now calm_env;
     env_launch := fun _ => false;
     env_newPage := env_newPage calm_env;
     env_prepare := env_prepare calm_env;
     env_goto := env_goto calm_env;
     env_extract := env_extract calm_env;
     env_probe := env_probe calm_env;
     env_render := env_render calm_env;
     env_protocol := env_protocol calm_env |}.

(** A state whose stream cache still holds, at clock reading 10, a
    result for [detail_alpha] that expired at 5. *)
Definition stale_streams : Cache.t Details :=
  Cache.Make {[ "details-" +:+ detail_alpha := Cache.Item (Resolved meta_alpha []) 5%Z ]}
    (1 * 60 * 60 * 1000)%Z.

Definition stale_state : State :=
  {| ticks := 10; launched := 3;
     catalogCache := Cache.new (Some (3 * 60 * 60 * 1000)%Z);
     streamCache := stale_streams;
     trace := [] |}.

(** ** The catalog builder as the specification words it

    "While the accumulated length is less than offset + pageSize and less
    than the ceiling: take the next page number from
    floor(length / pageSize) + 1; build a batch of up to 5 consecutive
    pages starting there; launch a session and fetch the batch; if it
    yields nothing, stop; otherwise append and persist; close the
    session; on an error stop with what has accumulated." *)

(** Up to five consecutive pages from [first], none beyond the ceiling. *)
Definition batch_of (first : nat) : list nat :=
  seq first (CONCURRENT_PAGES `min` (S MAX_PAGES - first)).

Inductive crawl (env : Env) (skip : nat) (search catalogType : string)
    : list CatalogEntry -> State -> list CatalogEntry -> State -> Prop :=
  | crawl_enough allItems s :
      ~ ((length allItems < skip + ITEMS_PER_PAGE)%nat
         /\ (length allItems < MAX_PAGES * ITEMS_PER_PAGE)%nat) ->
      crawl env skip search catalogType allItems s allItems s
  | crawl_no_session allItems s e s1 :
      (length allItems < skip + ITEMS_PER_PAGE)%nat ->
      (length allItems < MAX_PAGES * ITEMS_PER_PAGE)%nat ->
      launchBrowser env s = (Throw e, s1) ->
      crawl env skip search catalogType allItems s allItems s1
  | crawl_batch_failed allItems s browser s1 e s2 :
      (length allItems < skip + ITEMS_PER_PAGE)%nat ->
      (length allItems < MAX_PAGES * ITEMS_PER_PAGE)%nat ->
      launchBrowser env s = (Ret browser, s1) ->
      fetchPages env browser (batch_of (length allItems / ITEMS_PER_PAGE + 1))
        search catalogType s1 = (Throw e, s2) ->
      crawl env skip search catalogType allItems s allItems (log [Close browser] s2)
  | crawl_end_of_catalog allItems s browser s1 fetched s2 :
      (length allItems < skip + ITEMS_PER_PAGE)%nat ->
      (length allItems < MAX_PAGES * ITEMS_PER_PAGE)%nat ->
      launchBrowser env s = (Ret browser, s1) ->
      fetchPages env browser (batch_of (length allItems / ITEMS_PER_PAGE + 1))
        search catalogType s1 = (Ret fetched, s2) ->
      concat fetched = [] ->
      crawl env skip search catalogType allItems s allItems (log [Close browser] s2)
  | crawl_batch allItems s browser s1 fetched s2 allItems' s' :
      (length allItems < skip + ITEMS_PER_PAGE)%nat ->
      (length allItems < MAX_PAGES * ITEMS_PER_PAGE)%nat ->
      launchBrowser env s = (Ret browser, s1) ->
      fetchPages env browser (batch_of (length allItems / ITEMS_PER_PAGE + 1))
        search catalogType s1 = (Ret fetched, s2) ->
      concat fetched ≠ [] ->
      crawl env skip search catalogType (allItems ++ concat fetched)
        (log [Close browser]
           (catalogCache_set env (globalCacheKey search catalogType)
              (allItems ++ concat fetched) s2).2)
        allItems' s' ->
      crawl env skip search catalogType allItems s allItems' s'.

(** A site whose first two listing pages both show [entry_b] the first
    time they are fetched, and which is empty afterwards. *)
Definition twin_env : Env :=
  {| env_now := env_now calm_env;
     env_launch := env_launch calm_env;
     env_newPage := env_newPage calm_env;
     env_prepare := env_prepare calm_env;
     env_goto := env_goto calm_env;
     env_extract := fun session url =>
       match session, listing_page url with
       | 0, 1 => Some [entry_a; entry_b]
       | 0, 2 => Some [entry_b]
       | _, _ => Some []
       end;
     env_probe := env_probe calm_env;
     env_render := env_render calm_env;
     env_protocol := env_protocol calm_env |}.

(** The listing pages on which the lookup fallback opened its own page,
    in order. *)
Definition probed_pages (events : list Event) : list nat :=
  omap (fun e => match e with ProbeGoto _ url => Some (listing_page url) | _ => None end)
    events.

(** Five hundred distinct records, a full window of the catalog. *)
Definition numbered (n : nat) : CatalogEntry :=
  Entry ("hstream:popular:item-" +:+ pretty n) ("Item " +:+ pretty n) ""
    ("https://hstream.moe/hentai/item-" +:+ pretty n) (Some (pretty n)).

Definition first_window : list CatalogEntry := numbered <$> seq 1 500.

(** The catalog cache holds that window, valid for hours to come. *)
Definition warm_state : State :=
  {| ticks := 0; launched := 0;
     catalogCache :=
       Cache.Make {[ "catalog-popular-all" := Cache.Item first_window 10800000%Z ]}
         (3 * 60 * 60 * 1000)%Z;
     streamCache := Cache.new (Some (1 * 60 * 60 * 1000)%Z);
     trace := [] |}.

(** Three full windows in the cache of the popular catalog. *)
Definition three_windows : list CatalogEntry := numbered <$> seq 1 1500.

Definition seeded_state : State :=
  {| ticks := 0; launched := 0;
     catalogCache :=
       Cache.Make {[ "catalog-popular-all" := Cache.Item three_windows 10800000%Z ]}
         (3 * 60 * 60 * 1000)%Z;
     streamCache := Cache.new (Some (1 * 60 * 60 * 1000)%Z);
     trace := [] |}.

(** The same window under the single namespace of the earlier variant. *)
Definition warm_state_earlier : State :=
  {| ticks := 0; launched := 0;
     catalogCache :=
       Cache.Make {[ "catalog-all" := Cache.Item first_window 10800000%Z ]}
         (3 * 60 * 60 * 1000)%Z;
     streamCache := Cache.new (Some (1 * 60 * 60 * 1000)%Z);
     trace := [] |}.

(** A site that lists [entry_a] on its first page and [entry_b] on its
    second. *)
Definition deep_env : Env :=
  {| env_now := env_now calm_env;
     env_launch := env_launch calm_env;
     env_newPage := env_newPage calm_env;
     env_prepare := env_prepare calm_env;
     env_goto := env_goto calm_env;
     env_extract := fun _ url =>
       match listing_page url with
       | 1 => Some [entry_a]
       | 2 => Some [entry_b]
       | _ => Some []
       end;
     env_probe := env_probe calm_env;
     env_render := env_render calm_env;
     env_protocol := env_protocol calm_env |}.

(** The listing container of [entry_a]: a link with a caption and a
    lazily loaded image with a relative address. *)
Definition alpha_container : Container :=
  {| c_href := Some "https://hstream.moe/hentai/alpha-1";
     c_titles :=
       [None; Some {| te_text := "Alpha"; te_title := None; te_alt := None |}];
     c_images := [Some {| img_src := ""; img_data_src := Some "/img/alpha.webp" |}] |}.

(** A container whose link carries the slug words of the site and no
    episode number, and one whose link leads elsewhere. *)
Definition plain_container : Container :=
  {| c_href := Some "https://hstream.moe/hentai/gamma-watch-online-free";
     c_titles := [Some {| te_text := ""; te_title := None; te_alt := Some "Gamma" |}];
     c_images := [None; Some {| img_src := "https://cdn.example/gamma.webp";
                                img_data_src := None |}] |}.

Definition foreign_container : Container :=
  {| c_href := Some "https://hstream.moe/studios/delta"; c_titles := []; c_images := [] |}.


(* ===================================================================== *)
(** * Properties *)
(* ===================================================================== *)

(** ** Worked examples *)

Example request_quality_1080 :
  request_quality "https://cdn.example/v/1080/index.m3u8" = "1080p".
Proof. reflexivity. Qed.

Example request_quality_none : request_quality "https://cdn.example/v/intro.mp4" = "Unknown".
Proof. reflexivity. Qed.

Example is_media_with_query : is_media "https://cdn.example/v/720/clip.MP4?token=1" = true.
Proof. reflexivity. Qed.

Example is_media_detail_page : is_media "https://hstream.moe/hentai/alpha-1" = false.
Proof. reflexivity. Qed.

Example is_media_needs_end : is_media "https://cdn.example/v/clip.mp4.json" = false.
Proof. reflexivity. Qed.

Example parseInt_label : parseInt "720p" = Some 720%nat.
Proof. reflexivity. Qed.

Example parseInt_no_digits : num_or_zero (parseInt "Default") = 0%nat.
Proof. reflexivity. Qed.

Example pagesToLoad_first : pagesToLoad 1 = [1; 2; 3; 4; 5]%nat.
Proof. reflexivity. Qed.

Example pagesToLoad_near_ceiling : pagesToLoad 18 = [18; 19; 20]%nat.
Proof. reflexivity. Qed.

Example slice_inner : slice 1 3 ["a"; "b"; "c"; "d"] = ["b"; "c"].
Proof. reflexivity. Qed.

Example slice_beyond : slice 5 4 ["a"; "b"; "c"; "d"] = [].
Proof. reflexivity. Qed.

Example normalize_url_doubled :
  normalize_url "hstream.moehttps://hstream.moe/hentai/alpha-1" = detail_alpha.
Proof. reflexivity. Qed.

Example catalogType_of_recent : catalogType_of "hstream:recent:alpha-1" = "recent".
Proof. reflexivity. Qed.

Example catalogType_of_bare : catalogType_of "alpha-1" = "undefined".
Proof. reflexivity. Qed.

Example track_format_upper : track_format "https://hstream.moe/subs/ep.1.VTT" = "vtt".
Proof. reflexivity. Qed.

Example button_auto_translated :
  JSMap.values
    (button_subtitle JSMap.empty
       {| b_href := Some "/subs/ep-1.ger.ass"; b_text := "German (Auto Translated)" |})
  = [Sub "/subs/ep-1.ger.ass" "ger" "ger" (Some "German (Auto)") None].
Proof. reflexivity. Qed.

Example sort_streams_ties :
  s_url <$> sort_streams [Candidate "a" "480p" 480; Candidate "b" "720p" 720;
                          Candidate "c" "720" 720; Candidate "d" "Default" 0]
  = ["b"; "c"; "a"; "d"].
Proof. reflexivity. Qed.

(** The end-to-end scenario of the specification: with three windows of
    500 records cached, the window at offset 1400 holds the 100 records
    1400 to 1499, after one more batch (pages 4 to 8) turned out empty. *)
Example fetchCatalog_last_window :
  (fetchCatalog calm_env 1400 "" "popular" seeded_state).1
  = Ret (numbered <$> seq 1401 100)
  /\ trace (fetchCatalog calm_env 1400 "" "popular" seeded_state).2
     = [Launch 0; Goto 0 (baseUrl "" "popular" 4); Goto 0 (baseUrl "" "popular" 5);
        Goto 0 (baseUrl "" "popular" 6); Goto 0 (baseUrl "" "popular" 7);
        Goto 0 (baseUrl "" "popular" 8); Close 0].
Proof. split; by vm_compute. Qed.

(** A resolution that goes through: three streams in order of rank, each
    with the two subtitle entries of the page; the result is cached, and
    a second call returns it without launching a browser. *)
Example fetchVideoDetails_resolves :
  (sd_title <$> details_streams
     (match (fetchVideoDetails alpha_env detail_alpha boot).1 with
      | Ret d => d
      | Throw _ => Degraded
      end)) = [Str "Full HD"; Str "HD"; Str "Low Quality"]
  /\ trace (fetchVideoDetails alpha_env detail_alpha boot).2
     = [Launch 0; GotoDetail 0 detail_alpha; Close 0]
  /\ (fetchVideoDetails alpha_env detail_alpha
        (fetchVideoDetails alpha_env detail_alpha boot).2).1
     = (fetchVideoDetails alpha_env detail_alpha boot).1
  /\ trace (fetchVideoDetails alpha_env detail_alpha
              (fetchVideoDetails alpha_env detail_alpha boot).2).2
     = [Launch 0; GotoDetail 0 detail_alpha; Close 0].
Proof. split_and!; by vm_compute. Qed.

(** On a site without records the catalog builder fetches one batch and
    stops; the lookup fallback opens page 1 and stops. *)
Example empty_site :
  fetchCatalog calm_env 0 "" "recent" boot
  = (Ret [],
     log [Launch 0; Goto 0 (OrderListing "recently-released" 1);
          Goto 0 (OrderListing "recently-released" 2);
          Goto 0 (OrderListing "recently-released" 3);
          Goto 0 (OrderListing "recently-released" 4);
          Goto 0 (OrderListing "recently-released" 5); Close 0] (count_launch boot))
  /\ lookupItem calm_env "hstream:recent:alpha-1" boot
     = (Ret None,
        log [Launch 0; ProbeGoto 0 (OrderListing "recently-released" 1); Delay 1000;
             Goto 0 (OrderListing "recently-released" 1); Close 0] (count_launch boot)).
Proof. split; by vm_compute. Qed.

(** ** Expiring cache *)

Section CacheProperties.
Context {V : Type}.
Implicit Types (c : Cache.t V) (key : string) (now : Z).

Lemma get_missing c key now :
  Cache.data c !! key = None -> Cache.get key now c = (None, c).
Proof. intros H. unfold Cache.get. by rewrite H. Qed.

Lemma get_expired c key now it :
  Cache.data c !! key = Some it -> (now > Cache.expires it)%Z ->
  Cache.get key now c = (None, Cache.Make (delete key (Cache.data c)) (Cache.ttl c)).
Proof.
  intros H Hexp. unfold Cache.get. rewrite H.
  by rewrite bool_decide_eq_true_2.
Qed.

Lemma get_live c key now it :
  Cache.data c !! key = Some it -> (now <= Cache.expires it)%Z ->
  Cache.get key now c = (Some (Cache.value it), c).
Proof.
  intros H Hlive. unfold Cache.get. rewrite H.
  rewrite bool_decide_eq_false_2; [done | lia].
Qed.

Lemma get_other c key now k :
  k ≠ key -> Cache.data (Cache.get key now c).2 !! k = Cache.data c !! k.
Proof.
  intros Hne. unfold Cache.get.
  destruct (Cache.data c !! key) as [it|]; [|done].
  case_bool_decide; [|done]. simpl. by rewrite lookup_delete_ne.
Qed.

Lemma get_data c key now :
  Cache.data (Cache.get key now c).2 = Cache.data c
  ∨ Cache.data (Cache.get key now c).2 = delete key (Cache.data c).
Proof.
  unfold Cache.get. destruct (Cache.data c !! key) as [it|]; [|by left].
  case_bool_decide; [by right | by left].
Qed.

End CacheProperties.

(** C9.  [get] on a key whose entry has expired removes the entry and
    returns nothing; [get] on a key without an entry returns nothing and
    leaves the cache as it is; an entry that has not expired is returned
    and kept.  Nothing but a [get] of its own key removes an entry: a
    [get] or a [set] of another key leaves it in the table whatever its
    expiry.  [set] replaces the whole entry of its key by the new value
    with expiry [now + ttl] for the default of the cache, or
    [now + customTtl] for a (non-zero) override. *)
Theorem cache_get_set_contract {V : Type} (c : Cache.t V) (key : string) (now : Z) :
  (forall it, Cache.data c !! key = Some it -> (now > Cache.expires it)%Z ->
     (Cache.get key now c).1 = None
     /\ Cache.data (Cache.get key now c).2 !! key = None)
  /\ (Cache.data c !! key = None -> Cache.get key now c = (None, c))
  /\ (forall it, Cache.data c !! key = Some it -> (now <= Cache.expires it)%Z ->
        Cache.get key now c = (Some (Cache.value it), c))
  /\ (forall k, k ≠ key ->
        Cache.data (Cache.get key now c).2 !! k = Cache.data c !! k)
  /\ (forall k v customTtl, k ≠ key ->
        Cache.data (Cache.set key v customTtl now c) !! k = Cache.data c !! k)
  /\ (forall v, Cache.data (Cache.set key v None now c) !! key
                = Some (Cache.Item v (now + Cache.ttl c)%Z))
  /\ (forall v x, x ≠ 0%Z ->
        Cache.data (Cache.set key v (Some x) now c) !! key
        = Some (Cache.Item v (now + x)%Z))
  /\ (forall v customTtl, Cache.ttl (Cache.set key v customTtl now c) = Cache.ttl c).
Proof.
  repeat split.
  - by erewrite get_expired.
  - erewrite get_expired by eassumption. simpl. apply lookup_delete_eq.
  - apply get_missing.
  - apply get_live.
  - intros k Hne. by apply get_other.
  - intros k v o Hne. unfold Cache.set. simpl. by rewrite lookup_insert_ne.
  - intros v. unfold Cache.set. simpl. by rewrite lookup_insert_eq.
  - intros v x Hx. unfold Cache.set, Cache.effective_ttl. simpl.
    rewrite lookup_insert_eq. by rewrite bool_decide_eq_false_2.
Qed.

Lemma cache_get_set_contract_witness :
  (Cache.get "k" 11%Z (Cache.set "k" 7%nat None 0%Z (Cache.new (Some 10%Z)))).1 = None
  /\ Cache.data (Cache.get "k" 11%Z (Cache.set "k" 7%nat None 0%Z (Cache.new (Some 10%Z)))).2
       !! "k" = None.
Proof.
  apply (proj1 (cache_get_set_contract
                  (Cache.set "k" 7%nat None 0%Z (Cache.new (Some 10%Z))) "k" 11%Z)
           (Cache.Item 7%nat 10%Z)).
  - vm_compute. reflexivity.
  - reflexivity.
Defined.

(** ** Insertion-ordered maps *)

Section JSMapProperties.
Context {V : Type}.
Implicit Types (m : JSMap.t V) (k : string) (v : V).

Lemma jsmap_get_set_eq m k v : JSMap.get k (JSMap.set k v m) = Some v.
Proof.
  induction m as [|[k' v'] m IH]; simpl.
  - by rewrite bool_decide_eq_true_2.
  - case_bool_decide as E; simpl.
    + by rewrite bool_decide_eq_true_2.
    + by rewrite bool_decide_eq_false_2.
Qed.

Lemma jsmap_get_set_ne m k k' v :
  k ≠ k' -> JSMap.get k' (JSMap.set k v m) = JSMap.get k' m.
Proof.
  intros Hne. induction m as [|[k0 v0] m IH]; simpl.
  - by rewrite bool_decide_eq_false_2.
  - case_bool_decide as E; simpl.
    + subst k0. by rewrite !bool_decide_eq_false_2.
    + by rewrite IH.
Qed.

Lemma jsmap_has_get m k : JSMap.has k m = true <-> is_Some (JSMap.get k m).
Proof.
  unfold JSMap.has. rewrite bool_decide_eq_true.
  induction m as [|[k' v'] m IH]; simpl.
  - split; [by intros ?%elem_of_nil | by intros [? ?]].
  - rewrite elem_of_cons. case_bool_decide as E.
    + split; [eauto | by left].
    + rewrite <- IH. split; [intros [->|?]; done | by right].
Qed.

Lemma jsmap_keys_set m k v :
  JSMap.keys (JSMap.set k v m)
  = if JSMap.has k m then JSMap.keys m else JSMap.keys m ++ [k].
Proof.
  unfold JSMap.keys, JSMap.has.
  induction m as [|[k' v'] m IH]; csimpl; [done|].
  destruct (bool_decide_reflect (k' = k)) as [E|E]; csimpl.
  - subst k'. rewrite bool_decide_eq_true_2; [done | by left].
  - rewrite IH. destruct (bool_decide (k ∈ m.*1)) eqn:Hin.
    + rewrite bool_decide_eq_true_2; [done|].
      right. by apply bool_decide_eq_true in Hin.
    + rewrite bool_decide_eq_false_2; [done|].
      apply bool_decide_eq_false in Hin.
      intros [->|?]%elem_of_cons; done.
Qed.

Lemma jsmap_set_nodup m k v :
  NoDup (JSMap.keys m) -> NoDup (JSMap.keys (JSMap.set k v m)).
Proof.
  intros Hnd. rewrite jsmap_keys_set. unfold JSMap.has.
  case_bool_decide as Hin; [done|].
  apply NoDup_app. split_and!; [done | | apply NoDup_singleton].
  intros x Hx ->%list_elem_of_singleton. done.
Qed.

Lemma jsmap_set_Forall (P : string * V -> Prop) m k v :
  Forall P m -> P (k, v) -> Forall P (JSMap.set k v m).
Proof.
  intros Hm Hkv. induction Hm as [|[k' v'] m Hx Hm IH]; simpl.
  - by constructor.
  - case_bool_decide; constructor; done.
Qed.

(** With distinct keys, the entries under a key are the one [get] finds. *)
Lemma jsmap_filter_key (key_of : V -> string) m k :
  NoDup (JSMap.keys m) ->
  Forall (fun kv => key_of kv.2 = kv.1) m ->
  filter (fun v => key_of v = k) (JSMap.values m)
  = match JSMap.get k m with Some v => [v] | None => [] end.
Proof.
  unfold JSMap.keys, JSMap.values.
  induction m as [|[k' v'] m IH]; csimpl; [done|].
  intros [Hnin Hnd]%NoDup_cons [Hk Hall]%Forall_cons. simpl in Hk.
  rewrite filter_cons. destruct (bool_decide_reflect (k' = k)) as [E|E].
  - subst k'. rewrite decide_True by done. f_equal.
    rewrite IH by done.
    destruct (JSMap.get k m) eqn:G; [|done].
    exfalso. apply Hnin.
    assert (JSMap.has k m = true) as Hh by (apply jsmap_has_get; eauto).
    apply bool_decide_eq_true in Hh. congruence.
  - rewrite decide_False by congruence. by apply IH.
Qed.

End JSMapProperties.

(** ** Ranking of streams *)

Lemma insert_desc_perm x l : insert_desc x l ≡ₚ x :: l.
Proof.
  induction l as [|y l IH]; simpl; [done|].
  case_match; [done|]. rewrite IH. apply Permutation_swap.
Qed.

Lemma sort_streams_perm l : sort_streams l ≡ₚ l.
Proof.
  induction l as [|x l IH]; simpl; [done|].
  rewrite insert_desc_perm. by rewrite IH.
Qed.





(** ** The [streams] map of one resolution *)

Lemma streams_wf_empty : streams_wf JSMap.empty.
Proof. split; [apply NoDup_nil_2 | constructor]. Qed.

Lemma streams_wf_set m c :
  streams_wf m -> streams_wf (JSMap.set (s_quality c) c m).
Proof.
  intros [Hnd Hall]. split; [by apply jsmap_set_nodup|].
  by apply jsmap_set_Forall.
Qed.

Lemma on_request_wf u m : streams_wf m -> streams_wf (on_request u m).
Proof.
  intros Hwf. unfold on_request. case_match; [|done].
  case_bool_decide; [done|].
  by apply (streams_wf_set m (Candidate u (request_quality u) _)).
Qed.

Lemma on_requests_wf requests m : streams_wf m -> streams_wf (on_requests requests m).
Proof.
  unfold on_requests. revert m.
  induction requests as [|u requests IH]; intros m Hwf; simpl; [done|].
  apply IH. by apply on_request_wf.
Qed.

Lemma merge_source_wf m source : streams_wf m -> streams_wf (merge_source m source).
Proof.
  intros Hwf. unfold merge_source. case_match; [|done].
  by apply (streams_wf_set m (Candidate (vs_url source) (vs_quality source) _)).
Qed.

Lemma merge_sources_wf sources m : streams_wf m -> streams_wf (merge_sources sources m).
Proof.
  unfold merge_sources. revert m.
  induction sources as [|x sources IH]; intros m Hwf; simpl; [done|].
  apply IH. by apply merge_source_wf.
Qed.

Lemma collected_streams_wf early sources late :
  streams_wf (collected_streams early sources late).
Proof.
  unfold collected_streams.
  apply on_requests_wf, merge_sources_wf, on_requests_wf, streams_wf_empty.
Qed.

(** A label already in the map is out of reach of the page sources. *)
Lemma merge_source_keeps m source q :
  JSMap.has q m = true -> JSMap.get q (merge_source m source) = JSMap.get q m.
Proof.
  intros Hhas. unfold merge_source.
  destruct (decide (vs_quality source = q)) as [->|Hne].
  - by rewrite Hhas.
  - case_match; [|done]. by apply jsmap_get_set_ne.
Qed.

Lemma merge_sources_keeps sources m q :
  JSMap.has q m = true -> JSMap.get q (merge_sources sources m) = JSMap.get q m.
Proof.
  unfold merge_sources. revert m.
  induction sources as [|x sources IH]; intros m Hhas; simpl; [done|].
  rewrite IH.
  - by apply merge_source_keeps.
  - apply jsmap_has_get. rewrite merge_source_keeps by done. by apply jsmap_has_get.
Qed.

(** A page source whose label is free (and is not ['Unknown']) is merged. *)
Lemma merge_source_fresh m source :
  JSMap.has (vs_quality source) m = false -> vs_quality source ≠ "Unknown" ->
  JSMap.get (vs_quality source) (merge_source m source)
  = Some (Candidate (vs_url source) (vs_quality source) (source_rank (vs_quality source))).
Proof.
  intros Hhas Hne. unfold merge_source. rewrite Hhas.
  rewrite bool_decide_eq_false_2 by done. simpl. apply jsmap_get_set_eq.
Qed.

(** What the request handler leaves under a label depends on the map only
    through what the map holds under that label. *)
Lemma on_request_get_congr u m1 m2 q :
  JSMap.get q m1 = JSMap.get q m2 ->
  JSMap.get q (on_request u m1) = JSMap.get q (on_request u m2).
Proof.
  intros Heq. unfold on_request. case_match; [|done].
  case_bool_decide; [done|].
  destruct (decide (request_quality u = q)) as [<-|Hne].
  - by rewrite !jsmap_get_set_eq.
  - by rewrite !jsmap_get_set_ne.
Qed.

Lemma on_requests_get_congr requests m1 m2 q :
  JSMap.get q m1 = JSMap.get q m2 ->
  JSMap.get q (on_requests requests m1) = JSMap.get q (on_requests requests m2).
Proof.
  unfold on_requests. revert m1 m2.
  induction requests as [|u requests IH]; intros m1 m2 Heq; simpl; [done|].
  by apply IH, on_request_get_congr.
Qed.

(** A candidate found after some requests was written for one of them or
    was there before. *)
Lemma on_requests_get requests m q c :
  JSMap.get q (on_requests requests m) = Some c ->
  intercepted requests c \/ JSMap.get q m = Some c.
Proof.
  unfold on_requests. revert m.
  induction requests as [|u requests IH]; intros m Hget; simpl in *; [by right|].
  destruct (IH _ Hget) as [(u' & Hin & Hmedia & ->)|Hprev].
  - left. exists u'. split_and!; [by right | done | done].
  - unfold on_request in Hprev.
    destruct (is_media u) eqn:Hmedia; [|by right].
    case_bool_decide; [by right|].
    destruct (decide (request_quality u = q)) as [<-|Hne].
    + rewrite jsmap_get_set_eq in Hprev. left. exists u.
      split_and!; [by left | done | congruence].
    + rewrite jsmap_get_set_ne in Hprev by done. by right.
Qed.

Lemma intercepted_mono requests requests' c :
  requests ⊆ requests' -> intercepted requests c -> intercepted requests' c.
Proof. intros Hsub (u & Hin & ? & ?). exists u. split_and!; [by apply Hsub | done..]. Qed.

Lemma filter_swap {A} (P Q : A -> Prop) `{!forall x, Decision (P x)}
    `{!forall x, Decision (Q x)} (l : list A) :
  filter P (filter Q l) = filter Q (filter P l).
Proof.
  induction l as [|x l IH]; [done|].
  rewrite !filter_cons.
  destruct (decide (Q x)), (decide (P x)); rewrite ?filter_cons;
    repeat case_decide; try done; by rewrite IH.
Qed.

(** Later requests either settle what stands under a label, or leave it
    as it was. *)
Lemma on_requests_get_cases requests m1 m2 q :
  JSMap.get q (on_requests requests m1) = JSMap.get q (on_requests requests m2)
  \/ (JSMap.get q (on_requests requests m1) = JSMap.get q m1
      /\ JSMap.get q (on_requests requests m2) = JSMap.get q m2).
Proof.
  unfold on_requests. revert m1 m2.
  induction requests as [|u requests IH]; intros m1 m2; simpl; [by right|].
  destruct (decide (is_media u = true /\ request_quality u ≠ "Unknown"
                    /\ request_quality u = q)) as [(Hm & Hk & Hq)|Hno].
  - left. apply (on_requests_get_congr requests). unfold on_request.
    rewrite Hm, bool_decide_eq_false_2 by done. subst q.
    by rewrite !jsmap_get_set_eq.
  - assert (forall m, JSMap.get q (on_request u m) = JSMap.get q m) as Hsame.
    { intros m. unfold on_request. destruct (is_media u) eqn:Hm; [|done].
      case_bool_decide as Hk; [done|].
      apply jsmap_get_set_ne. intros Hq. apply Hno. done. }
    destruct (IH (on_request u m1) (on_request u m2)) as [?|[H1 H2]]; [by left|].
    right. by rewrite H1, H2, !Hsame.
Qed.

(** C6 (as amended).  When a quality label is captured from an
    intercepted request during a resolution, the page sources play no
    part for that label: the merged map holds exactly one candidate under
    it, the one it would hold without any page source, written by the
    request handler for one of the intercepted requests.  The resolved
    stream list holds that candidate, and nothing else of that label,
    when its URL is HTTPS; otherwise it holds no stream of that label. *)
Theorem interception_priority (protocol : string -> option string)
    (early late : list string) (sources : list VideoSource) (q : string) :
  JSMap.has q (collected_streams early [] late) = true ->
  exists c,
    JSMap.get q (collected_streams early sources late) = Some c
    /\ JSMap.get q (collected_streams early [] late) = Some c
    /\ intercepted (early ++ late) c
    /\ filter (fun s => s_quality s = q)
         (JSMap.values (collected_streams early sources late)) = [c]
    /\ filter (fun s => s_quality s = q)
         (ranked_streams protocol (collected_streams early sources late))
       = if is_https protocol (s_url c) then [c] else [].
Proof.
  intros Hhas. apply jsmap_has_get in Hhas as [c Hc].
  assert (JSMap.get q (collected_streams early sources late)
          = JSMap.get q (collected_streams early [] late)) as Hsame.
  { unfold collected_streams in *. simpl in *.
    destruct (on_requests_get_cases late
                (merge_sources sources (on_requests early JSMap.empty))
                (on_requests early JSMap.empty) q) as [?|[H1 H2]]; [done|].
    rewrite H1, H2. apply merge_sources_keeps, jsmap_has_get.
    rewrite <- H2, Hc. eauto. }
  destruct (collected_streams_wf early sources late) as [Hnd Hall].
  assert (filter (fun s => s_quality s = q)
            (JSMap.values (collected_streams early sources late)) = [c]) as Hone.
  { rewrite (jsmap_filter_key s_quality) by done. by rewrite Hsame, Hc. }
  exists c. rewrite Hsame. split_and!; [done | done | | done |].
  - unfold collected_streams in Hc. simpl in Hc.
    apply on_requests_get in Hc as [Hl|He].
    + eapply intercepted_mono; [|exact Hl].
      intros x Hx. apply elem_of_app. by right.
    + apply on_requests_get in He as [He|?]; [|done].
      eapply intercepted_mono; [|exact He].
      intros x Hx. apply elem_of_app. by left.
  - assert (filter (fun s => s_quality s = q)
              (ranked_streams protocol (collected_streams early sources late))
            ≡ₚ filter (fun s => is_https protocol (s_url s)) [c]) as Hperm.
    { unfold ranked_streams. rewrite sort_streams_perm.
      rewrite filter_swap. by rewrite Hone. }
    rewrite filter_cons, filter_nil in Hperm.
    case_decide as Hs.
    + apply Is_true_true in Hs. rewrite Hs.
      by apply Permutation_singleton_r in Hperm.
    + apply Is_true_false in Hs. rewrite Hs.
      by apply Permutation_nil_r in Hperm.
Qed.

Lemma interception_priority_witness :
  exists c,
    JSMap.get "720p" (collected_streams [playlist_720] [inline_720] []) = Some c
    /\ JSMap.get "720p" (collected_streams [playlist_720] [] []) = Some c
    /\ intercepted ([playlist_720] ++ []) c
    /\ filter (fun s => s_quality s = "720p")
         (JSMap.values (collected_streams [playlist_720] [inline_720] [])) = [c]
    /\ filter (fun s => s_quality s = "720p")
         (ranked_streams scheme_of (collected_streams [playlist_720] [inline_720] []))
       = if is_https scheme_of (s_url c) then [c] else [].
Proof.
  apply (interception_priority scheme_of [playlist_720] [] [inline_720] "720p").
  vm_compute. reflexivity.
Defined.

(** C6, as stated, fails when the intercepted request is not HTTPS: the
    request takes the label, the HTTPS page source of the same label is
    not merged, and the filter then drops the label altogether. *)
Lemma interception_priority_counterexample :
  JSMap.has "720p" (on_requests [plain_playlist_720] JSMap.empty) = true
  /\ vs_quality inline_720 = "720p"
  /\ is_https scheme_of (vs_url inline_720) = true
  /\ uniqueStreams scheme_of "Title" []
       (collected_streams [plain_playlist_720] [inline_720] []) = [].
Proof. vm_compute. done. Qed.




(** ** Subtitles of one resolution *)

(** C4.  What the code does with a button and a track of one language.
    A track with a source is always written under its [srclang],
    whatever the map holds there.  On [english_page] the button is
    stored under ["English"] and the track under ["eng"], so the page
    yields two subtitles of language [eng]; on [english_page_named],
    where both use the key ["English"], the track replaces the button
    entry. *)
Theorem track_overwrites_button :
  (forall (subtitles : JSMap.t Subtitle) (track : Track),
     t_src track ≠ "" ->
     JSMap.get (str_or (t_srclang track) "und") (track_subtitle subtitles track)
     = Some (Sub (t_src track) (str_or (t_srclang track) "und")
               (str_or (t_label track) (str_or (t_srclang track) "und")) None
               (Some (track_format (t_src track)))))
  /\ (videoData english_page).2
     = [Sub "/subs/episode-1.eng.ass" "eng" "eng" (Some "English") None;
        Sub "https://hstream.moe/subs/episode-1.eng.vtt" "eng" "English" None (Some "vtt")]
  /\ map sub_lang (videoData english_page).2 = ["eng"; "eng"]
  /\ (videoData english_page_named).2
     = [Sub "https://hstream.moe/subs/episode-1.eng.vtt" "English" "English" None
          (Some "vtt")].
Proof.
  split_and!.
  - intros subtitles track Hsrc. unfold track_subtitle, track_entry.
    rewrite bool_decide_eq_false_2 by done. apply jsmap_get_set_eq.
  - by vm_compute.
  - by vm_compute.
  - by vm_compute.
Qed.

(** ** Page fetcher *)

Lemma log_log a b s : log b (log a s) = log (a ++ b) s.
Proof. unfold log. simpl. by rewrite app_assoc. Qed.

Lemma log_nil s : log [] s = s.
Proof. destruct s. unfold log. simpl. by rewrite app_nil_r. Qed.

Lemma bind_emit {A} (e : Event) (k : unit -> M A) (s : State) :
  (emit e ≫= k) s = k tt (log [e] s).
Proof. done. Qed.

Lemma bind_delay {A} (ms : Z) (k : unit -> M A) (s : State) :
  (delay ms ≫= k) s = k tt (log [Delay ms] s).
Proof. done. Qed.

Lemma bind_ret {A B} (a : A) (k : A -> M B) (s : State) : (mret a ≫= k) s = k a s.
Proof. done. Qed.

Lemma bind_run {A B} (m : M A) (k : A -> M B) (s s' : State) (r : Result A) :
  m s = (r, s') ->
  (m ≫= k) s = match r with Ret a => k a s' | Throw e => (Throw e, s') end.
Proof. intros H. unfold mbind, M_bind. by rewrite H. Qed.

(** Runs the deterministic prefix of a computation. *)
Ltac run_m :=
  repeat first
    [ rewrite bind_ret
    | rewrite bind_emit
    | rewrite bind_delay
    | rewrite log_log
    | progress unfold guard, browser_close, close_if_open
    | progress cbn beta iota ].

Lemma navigation_events_S session url k :
  navigation_events session url (S (S k))
  = [Goto session url; Delay 2000] ++ navigation_events session url (S k).
Proof. done. Qed.

(** The retry loop: with [retries] attempts left it makes [k] of them,
    stopping at the first 200. *)
Lemma navigate_spec env session url retries attempt response s :
  exists k r,
    navigate env session url (S retries) attempt response s
    = (r, log (navigation_events session url k) s)
    /\ (1 <= k <= S retries)%nat
    /\ (forall j, (j < k - 1)%nat -> env_goto env session url (attempt + j) ≠ Responded 200)
    /\ (env_goto env session url (attempt + (k - 1)) = Responded 200 -> r = Ret (Some 200%nat))
    /\ (env_goto env session url (attempt + (k - 1)) ≠ Responded 200 ->
          k = S retries
          /\ ((exists e, r = Throw e) \/ (exists status, status ≠ 200%nat /\ r = Ret (Some status)))).
Proof.
  revert attempt response s.
  induction retries as [|retries IH]; intros attempt response s.
  - exists 1%nat. cbn. replace (attempt + 0)%nat with attempt by lia.
    destruct (env_goto env session url attempt) as [status|e] eqn:G.
    + case_bool_decide as E.
      * subst status. eexists.
        split; [done|]. split; [lia|]. split; [intros; lia|]. split; done.
      * eexists.
        split; [done|]. split; [lia|]. split; [intros; lia|].
        split; [congruence|]. intros _. split; [done|]. right. eauto.
    + eexists.
      split; [done|]. split; [lia|]. split; [intros; lia|]. split; [done|].
      intros _. split; [done|]. left. eauto.
  - change (navigate env session url (S (S retries)) attempt response s)
      with ((emit (Goto session url);;
             match env_goto env session url attempt with
             | Responded status =>
                 if bool_decide (status = 200%nat) then mret (Some status)
                 else
                   (if (0 <? S retries)%nat then delay 2000 else mret tt);;
                   navigate env session url (S retries) (S attempt) (Some status)
             | Rejected e =>
                 if bool_decide (S retries = 0%nat) then throw e
                 else delay 2000;; navigate env session url (S retries) (S attempt) response
             end) s).
    assert (forall k r response',
      navigate env session url (S retries) (S attempt) response'
        (log [Goto session url; Delay 2000] s)
      = (r, log (navigation_events session url k)
              (log [Goto session url; Delay 2000] s)) ->
      (1 <= k <= S retries)%nat ->
      (forall j, (j < k - 1)%nat ->
         env_goto env session url (S attempt + j) ≠ Responded 200) ->
      (env_goto env session url (S attempt + (k - 1)) = Responded 200 ->
         r = Ret (Some 200%nat)) ->
      (env_goto env session url (S attempt + (k - 1)) ≠ Responded 200 ->
         k = S retries
         /\ ((exists e, r = Throw e)
             \/ (exists status, status ≠ 200%nat /\ r = Ret (Some status)))) ->
      env_goto env session url attempt ≠ Responded 200 ->
      (1 <= S k <= S (S retries))%nat
      /\ (forall j, (j < S k - 1)%nat ->
            env_goto env session url (attempt + j) ≠ Responded 200)
      /\ (env_goto env session url (attempt + (S k - 1)) = Responded 200 ->
            r = Ret (Some 200%nat))
      /\ (env_goto env session url (attempt + (S k - 1)) ≠ Responded 200 ->
            S k = S (S retries)
            /\ ((exists e, r = Throw e)
                \/ (exists status, status ≠ 200%nat /\ r = Ret (Some status))))) as Hstep.
    { intros k r response' _ Hk Hbefore Hok Hfail Hfirst.
      replace (attempt + (S k - 1))%nat with (S attempt + (k - 1))%nat by lia.
      split; [lia|]. split; [|split; [done|]].
      - intros j Hj. destruct j as [|j].
        + by replace (attempt + 0)%nat with attempt by lia.
        + replace (attempt + S j)%nat with (S attempt + j)%nat by lia.
          apply Hbefore. lia.
      - intros Hlast. destruct (Hfail Hlast) as [? ?]. split; [lia | done]. }
    destruct (env_goto env session url attempt) as [status|e] eqn:G.
    + destruct (decide (status = 200%nat)) as [->|Hne].
      * exists 1%nat. cbn. replace (attempt + 0)%nat with attempt by lia.
        eexists.
        split; [done|]. split; [lia|]. split; [intros; lia|]. split; [done|].
        congruence.
      * destruct (IH (S attempt) (Some status) (log [Goto session url; Delay 2000] s))
          as (k & r & Hrun & Hk & Hbefore & Hok & Hfail).
        exists (S k), r. split.
        -- destruct k as [|k]; [lia|]. rewrite navigation_events_S, <- log_log.
           rewrite <- Hrun. cbn -[navigate].
           rewrite bool_decide_eq_false_2 by done.
           by rewrite bind_emit, bind_delay, log_log.
        -- eapply Hstep; eauto. congruence.
    + destruct (IH (S attempt) response (log [Goto session url; Delay 2000] s))
        as (k & r & Hrun & Hk & Hbefore & Hok & Hfail).
      exists (S k), r. split.
      * destruct k as [|k]; [lia|]. rewrite navigation_events_S, <- log_log.
        rewrite <- Hrun. cbn -[navigate].
        rewrite bind_emit, bool_decide_eq_false_2 by done.
        by rewrite bind_delay, log_log.
      * eapply Hstep; eauto.
Qed.

(** Whatever its outcome, [fetchPage] leaves behind the events of some
    number of navigation attempts and nothing else. *)
Lemma fetchPage_logs (env : Env) (session pageNum : nat)
    (search catalogType : string) (s : State) :
  exists r k,
    fetchPage env session pageNum search catalogType s
    = (r, log (navigation_events session (baseUrl search catalogType pageNum) k) s).
Proof.
  unfold fetchPage.
  set (url := baseUrl search catalogType pageNum).
  destruct (env_newPage env session url);
    [|exists (Throw "newPage"), 0%nat; by rewrite log_nil].
  cbn -[navigate]. rewrite bind_ret. unfold try_catch.
  destruct (env_prepare env session url);
    [|exists (Ret []), 0%nat; by rewrite log_nil].
  cbn -[navigate]. rewrite bind_ret.
  destruct (navigate_spec env session url 2 0 None s) as (k & r & Hrun & _).
  rewrite (bind_run _ _ _ _ _ Hrun).
  destruct r as [[status|]|e]; cbn; [|by eexists _, k..].
  destruct (bool_decide (status = 200%nat)); cbn; [|by eexists _, k].
  destruct (env_extract env session url); by eexists _, k.
Qed.

(** C2 (as amended).  Once its page is open and set up, [fetchPage]
    navigates at most three times, two seconds apart, going on to the
    next attempt only after a rejection or a response other than 200.  A
    200 response ends the attempts and the records extracted from the
    page are returned (none if the extraction fails).  When the third
    attempt fails too, [fetchPage] returns the empty list: nothing is
    thrown to its caller.  Only the trace of the state changes. *)
Theorem fetchPage_retries (env : Env) (session pageNum : nat)
    (search catalogType : string) (s : State) :
  env_newPage env session (baseUrl search catalogType pageNum) = true ->
  env_prepare env session (baseUrl search catalogType pageNum) = true ->
  exists k items,
    fetchPage env session pageNum search catalogType s
    = (Ret items, log (navigation_events session (baseUrl search catalogType pageNum) k) s)
    /\ (1 <= k <= 3)%nat
    /\ (forall j, (j < k - 1)%nat ->
          env_goto env session (baseUrl search catalogType pageNum) j ≠ Responded 200)
    /\ (env_goto env session (baseUrl search catalogType pageNum) (k - 1) = Responded 200 ->
          items = default [] (env_extract env session (baseUrl search catalogType pageNum)))
    /\ (env_goto env session (baseUrl search catalogType pageNum) (k - 1) ≠ Responded 200 ->
          k = 3%nat /\ items = []).
Proof.
  intros Hnew Hprep. unfold fetchPage.
  set (url := baseUrl search catalogType pageNum) in *.
  rewrite Hnew, Hprep. cbn -[navigate]. rewrite bind_ret.
  unfold try_catch. rewrite bind_ret.
  destruct (navigate_spec env session url 2 0 None s)
    as (k & r & Hrun & Hk & Hbefore & Hok & Hfail).
  cbn [Nat.add] in *.
  exists k.
  destruct (decide (env_goto env session url (k - 1) = Responded 200)) as [Hlast|Hlast].
  - specialize (Hok Hlast). subst r.
    exists (default [] (env_extract env session url)).
    split; [|by auto].
    rewrite (bind_run _ _ _ _ _ Hrun). cbn.
    by destruct (env_extract env session url).
  - destruct (Hfail Hlast) as [-> Hr].
    exists []. split; [|by auto].
    rewrite (bind_run _ _ _ _ _ Hrun).
    destruct Hr as [[e ->]|(status & Hne & ->)]; [done|].
    cbn. by rewrite bool_decide_eq_false_2.
Qed.

Lemma fetchPage_retries_witness :
  exists k items,
    fetchPage flaky_env 0 1 "" "popular" boot
    = (Ret items, log (navigation_events 0 (baseUrl "" "popular" 1) k) boot)
    /\ (1 <= k <= 3)%nat
    /\ (forall j, (j < k - 1)%nat ->
          env_goto flaky_env 0 (baseUrl "" "popular" 1) j ≠ Responded 200)
    /\ (env_goto flaky_env 0 (baseUrl "" "popular" 1) (k - 1) = Responded 200 ->
          items = default [] (env_extract flaky_env 0 (baseUrl "" "popular" 1)))
    /\ (env_goto flaky_env 0 (baseUrl "" "popular" 1) (k - 1) ≠ Responded 200 ->
          k = 3%nat /\ items = []).
Proof.
  apply (fetchPage_retries flaky_env 0 1 "" "popular" boot); reflexivity.
Defined.

(** C2, as stated, fails on its last part: when all three navigations are
    rejected, the caller of [fetchPage] receives the empty list and no
    error. *)
Lemma fetchPage_swallows_failure :
  (forall attempt, env_goto unreachable_env 0 (baseUrl "" "popular" 1) attempt
                   = Rejected "net::ERR_CONNECTION_REFUSED")
  /\ (fetchPage unreachable_env 0 1 "" "popular" boot).1 = Ret []
  /\ trace (fetchPage unreachable_env 0 1 "" "popular" boot).2
     = [Goto 0 (baseUrl "" "popular" 1); Delay 2000;
        Goto 0 (baseUrl "" "popular" 1); Delay 2000;
        Goto 0 (baseUrl "" "popular" 1)]
  /\ ~ (exists e, (fetchPage unreachable_env 0 1 "" "popular" boot).1 = Throw e).
Proof.
  split_and!; [done | by vm_compute | by vm_compute |].
  intros [e He]. vm_compute in He. discriminate.
Qed.

(** ** Stream resolver: failure and the stream cache *)

Section ResolveProperties.
Context (env : Env).

(** A miss of the initial cache check leaves no entry under the key and
    touches nothing else. *)
Lemma streamCache_get_miss key s :
  (streamCache_get env key s).1 = Ret None ->
  Cache.data (streamCache (streamCache_get env key s).2)
    = delete key (Cache.data (streamCache s))
  /\ Cache.ttl (streamCache (streamCache_get env key s).2) = Cache.ttl (streamCache s)
  /\ launched (streamCache_get env key s).2 = launched s
  /\ trace (streamCache_get env key s).2 = trace s
  /\ catalogCache (streamCache_get env key s).2 = catalogCache s.
Proof.
  unfold streamCache_get, Cache.has.
  destruct (Cache.data (streamCache s) !! key) as [it|] eqn:E.
  - rewrite bool_decide_eq_true_2 by (by eexists).
    unfold Cache.get. rewrite E.
    case_bool_decide; simpl; [done|]. discriminate.
  - rewrite bool_decide_eq_false_2 by (by intros [? ?]).
    simpl. intros _. by rewrite delete_id.
Qed.

Lemma streamCache_get_absent key s :
  Cache.data (streamCache s) !! key = None ->
  streamCache_get env key s = (Ret None, s).
Proof.
  intros E. unfold streamCache_get, Cache.has. rewrite E.
  by rewrite bool_decide_eq_false_2 by (by intros [? ?]).
Qed.

(** A rendering with a failing step throws, leaving both caches alone. *)
Lemma resolve_in_fails browser url key s :
  rendering_ok (env_render env browser url) = false ->
  exists e events, resolve_in env browser url key s = (Throw e, log events s).
Proof.
  unfold rendering_ok, resolve_in. intros Hbad.
  destruct (env_render env browser url)
    as [newPage intercept goto video early dom late meta compose]; simpl in *.
  destruct newPage; [|exists "newPage", []; by rewrite log_nil].
  destruct intercept; [|exists "setRequestInterception", []; by rewrite log_nil].
  destruct goto; [|by exists "goto", [GotoDetail browser url]].
  destruct video; [|by exists "waitForSelector", [GotoDetail browser url]].
  destruct dom as [dom|]; [|by exists "evaluate", [GotoDetail browser url]].
  destruct meta as [meta|]; [|by exists "evaluate", [GotoDetail browser url]].
  destruct compose; [by vm_compute in Hbad|].
  exists "compose", [GotoDetail browser url; Close browser]. by run_m.
Qed.

(** A rendering without a failing step returns a composed result and
    stores it. *)
Lemma resolve_in_ok browser url key s :
  rendering_ok (env_render env browser url) = true ->
  exists meta streams,
    (resolve_in env browser url key s).1 = Ret (Resolved meta streams)
    /\ streamCache (resolve_in env browser url key s).2
       = Cache.set key (Resolved meta streams) None (env_now env (ticks s)) (streamCache s).
Proof.
  unfold rendering_ok, resolve_in. intros Hok.
  destruct (env_render env browser url)
    as [newPage intercept goto video early dom late meta compose]; simpl in *.
  destruct newPage, intercept, goto, video, dom as [dom|], meta as [meta|], compose;
    try done.
  eexists _, _. split; reflexivity.
Qed.

(** The outcome of a call that misses the cache and then fails. *)
Lemma fetchVideoDetails_failure url s :
  (streamCache_get env (detailsKey url) s).1 = Ret None ->
  env_launch env (launched s) = false
  \/ rendering_ok (env_render env (launched s) (normalize_url url)) = false ->
  exists events,
    fetchVideoDetails env url s
    = (Ret Degraded,
       log events (count_launch (streamCache_get env (detailsKey url) s).2))
    /\ (env_launch env (launched s) = false -> events = [])
    /\ (env_launch env (launched s) = true ->
          exists mid, events = Launch (launched s) :: mid ++ [Close (launched s)]).
Proof.
  intros Hmiss Hfail. unfold fetchVideoDetails. fold (detailsKey url).
  destruct (streamCache_get_miss _ _ Hmiss) as (_ & _ & Hl & _ & _).
  destruct (streamCache_get env (detailsKey url) s) as [r s0] eqn:Hget.
  simpl in *. subst r. rewrite (bind_run _ _ _ _ _ Hget).
  unfold launchBrowser. rewrite Hl.
  destruct (env_launch env (launched s)) eqn:Hlaunch.
  - destruct Hfail as [?|Hbad]; [done|].
    destruct (resolve_in_fails (launched s) (normalize_url url) (detailsKey url)
                (log [Launch (launched s)] (count_launch s0)) Hbad)
      as (e & mid & Hrun).
    rewrite Hrun.
    exists (Launch (launched s) :: mid ++ [Close (launched s)]).
    split_and!; [|done|by eauto].
    by run_m.
  - exists []. rewrite log_nil. split_and!; [done | done | done].
Qed.

End ResolveProperties.

Section ResolveInvariants.
Context (env : Env).

Lemma resolve_in_launched browser url key s :
  launched (resolve_in env browser url key s).2 = launched s.
Proof.
  unfold resolve_in.
  destruct (env_render env browser url)
    as [newPage intercept goto video early dom late meta compose]; simpl.
  destruct newPage, intercept, goto, video, dom as [dom|], meta as [meta|], compose;
    reflexivity.
Qed.

(** Without an entry under its key, a call launches a session. *)
Lemma fetchVideoDetails_miss_launches url s :
  Cache.data (streamCache s) !! detailsKey url = None ->
  launched (fetchVideoDetails env url s).2 = S (launched s).
Proof.
  intros Habs. unfold fetchVideoDetails. fold (detailsKey url).
  rewrite (bind_run _ _ _ _ _ (streamCache_get_absent env _ _ Habs)).
  unfold launchBrowser.
  destruct (env_launch env (launched s)); [|done].
  pose proof (resolve_in_launched (launched s) (normalize_url url) (detailsKey url)
                (log [Launch (launched s)] (count_launch s))) as Hl.
  destruct (resolve_in env (launched s) (normalize_url url) (detailsKey url) _)
    as [[d|e] s2]; simpl in *; [done|].
  by run_m.
Qed.

(** Whatever the stream cache holds after a call was there before or is
    a composed result. *)
Lemma fetchVideoDetails_caches_resolved url s key it :
  Cache.data (streamCache (fetchVideoDetails env url s).2) !! key = Some it ->
  Cache.data (streamCache s) !! key = Some it
  \/ exists meta streams, Cache.value it = Resolved meta streams.
Proof.
  unfold fetchVideoDetails. fold (detailsKey url).
  destruct (streamCache_get env (detailsKey url) s) as [r s0] eqn:Hget.
  assert (forall it', Cache.data (streamCache s0) !! key = Some it' ->
                      Cache.data (streamCache s) !! key = Some it') as Hold.
  { intros it'. revert Hget. unfold streamCache_get.
    destruct (Cache.has (detailsKey url) (streamCache s)); [|by intros [= _ <-]].
    destruct (Cache.get (detailsKey url) (env_now env (ticks s)) (streamCache s))
      as [v c] eqn:Hc.
    intros [= _ <-]. simpl.
    pose proof (get_data (streamCache s) (detailsKey url) (env_now env (ticks s))) as Hd.
    rewrite Hc in Hd. simpl in Hd. destruct Hd as [->| ->]; [done|].
    intros Hin. by apply lookup_delete_Some in Hin as [_ ?]. }
  rewrite (bind_run _ _ _ _ _ Hget).
  destruct r as [[d|]|e]; [by left; apply Hold | | by left; apply Hold].
  unfold launchBrowser.
  destruct (env_launch env (launched s0)) eqn:Hlaunch; [|by left; apply Hold].
  destruct (rendering_ok (env_render env (launched s0) (normalize_url url))) eqn:Hok.
  - destruct (resolve_in_ok env (launched s0) (normalize_url url) (detailsKey url)
                (log [Launch (launched s0)] (count_launch s0)) Hok)
      as (meta & streams & Hr & Hc).
    destruct (resolve_in env (launched s0) (normalize_url url) (detailsKey url) _)
      as [r2 s2]; simpl in *. subst r2. simpl. rewrite Hc.
    unfold Cache.set. simpl.
    destruct (decide (key = detailsKey url)) as [->|Hne].
    + rewrite lookup_insert_eq. intros [= <-]. right. eauto.
    + rewrite lookup_insert_ne by done. left. by apply Hold.
  - destruct (resolve_in_fails env (launched s0) (normalize_url url) (detailsKey url)
                (log [Launch (launched s0)] (count_launch s0)) Hok)
      as (e & mid & Hrun).
    rewrite Hrun. run_m. simpl. left. by apply Hold.
Qed.

End ResolveInvariants.

(** C8.  When the cache check misses and the resolution then fails (no
    browser can be launched, or a step of the rendering throws: opening
    the page, interception, navigation, the wait for the player, either
    extraction, the composition of the streams), [fetchVideoDetails]
    throws nothing: it returns [{ title: 'Unknown', streams: [] }].  If a
    session was launched, the last thing the call does is to close it; if
    none was, nothing is opened or closed. *)
Theorem fetchVideoDetails_degrades (env : Env) (url : string) (s : State) :
  (streamCache_get env (detailsKey url) s).1 = Ret None ->
  env_launch env (launched s) = false
  \/ rendering_ok (env_render env (launched s) (normalize_url url)) = false ->
  (fetchVideoDetails env url s).1 = Ret Degraded
  /\ details_title Degraded = "Unknown"
  /\ details_streams Degraded = []
  /\ (env_launch env (launched s) = false ->
        trace (fetchVideoDetails env url s).2 = trace s)
  /\ (env_launch env (launched s) = true ->
        exists mid,
          trace (fetchVideoDetails env url s).2
          = trace s ++ Launch (launched s) :: mid ++ [Close (launched s)]).
Proof.
  intros Hmiss Hfail.
  destruct (fetchVideoDetails_failure env url s Hmiss Hfail) as (events & Hrun & Hno & Hyes).
  destruct (streamCache_get_miss env _ _ Hmiss) as (_ & _ & _ & Htrace & _).
  rewrite Hrun. simpl. rewrite Htrace. split_and!; [done | done | done | |].
  - intros Hl. rewrite (Hno Hl). by rewrite app_nil_r.
  - intros Hl. destruct (Hyes Hl) as [mid ->]. by exists mid.
Qed.

Lemma fetchVideoDetails_degrades_witness :
  (fetchVideoDetails stalled_env detail_alpha boot).1 = Ret Degraded
  /\ details_title Degraded = "Unknown"
  /\ details_streams Degraded = []
  /\ (env_launch stalled_env (launched boot) = false ->
        trace (fetchVideoDetails stalled_env detail_alpha boot).2 = trace boot)
  /\ (env_launch stalled_env (launched boot) = true ->
        exists mid,
          trace (fetchVideoDetails stalled_env detail_alpha boot).2
          = trace boot ++ Launch (launched boot) :: mid ++ [Close (launched boot)]).
Proof.
  apply (fetchVideoDetails_degrades stalled_env detail_alpha boot).
  - reflexivity.
  - right. reflexivity.
Defined.

(** C10 (as amended).  A call that misses the cache and then fails
    writes nothing to the stream cache: afterwards the table is the one
    before the call without the entry under the detail key (the initial
    check evicts an expired entry; with no entry there, the cache is the
    same as before), the default expiry is the same, and the key has no
    entry.  A later call for the same URL, as long as nothing was stored
    under the key, launches a session again.  After any call, every
    entry of the stream cache was there before the call or holds a
    composed result. *)
Theorem failure_is_not_cached (env : Env) (url : string) (s : State) :
  ((streamCache_get env (detailsKey url) s).1 = Ret None ->
   env_launch env (launched s) = false
   \/ rendering_ok (env_render env (launched s) (normalize_url url)) = false ->
   (fetchVideoDetails env url s).1 = Ret Degraded
   /\ Cache.data (streamCache (fetchVideoDetails env url s).2)
      = delete (detailsKey url) (Cache.data (streamCache s))
   /\ Cache.ttl (streamCache (fetchVideoDetails env url s).2) = Cache.ttl (streamCache s)
   /\ (Cache.data (streamCache s) !! detailsKey url = None ->
         streamCache (fetchVideoDetails env url s).2 = streamCache s)
   /\ Cache.data (streamCache (fetchVideoDetails env url s).2) !! detailsKey url = None
   /\ (forall s2, Cache.data (streamCache s2) !! detailsKey url = None ->
         launched (fetchVideoDetails env url s2).2 = S (launched s2)))
  /\ (forall key it,
        Cache.data (streamCache (fetchVideoDetails env url s).2) !! key = Some it ->
        Cache.data (streamCache s) !! key = Some it
        \/ exists meta streams, Cache.value it = Resolved meta streams).
Proof.
  split; [|apply fetchVideoDetails_caches_resolved].
  intros Hmiss Hfail.
  destruct (fetchVideoDetails_failure env url s Hmiss Hfail) as (events & Hrun & _ & _).
  destruct (streamCache_get_miss env _ _ Hmiss) as (Hdata & Httl & _ & _ & _).
  rewrite Hrun. simpl. split_and!; [done | done | done | | | ].
  - intros Habs. by rewrite (streamCache_get_absent env _ _ Habs).
  - rewrite Hdata. apply lookup_delete_eq.
  - intros s2. apply fetchVideoDetails_miss_launches.
Qed.

Lemma failure_is_not_cached_witness :
  (fetchVideoDetails headless_env detail_alpha stale_state).1 = Ret Degraded
  /\ Cache.data (streamCache (fetchVideoDetails headless_env detail_alpha stale_state).2)
     = delete (detailsKey detail_alpha) (Cache.data (streamCache stale_state))
  /\ Cache.ttl (streamCache (fetchVideoDetails headless_env detail_alpha stale_state).2)
     = Cache.ttl (streamCache stale_state)
  /\ (Cache.data (streamCache stale_state) !! detailsKey detail_alpha = None ->
        streamCache (fetchVideoDetails headless_env detail_alpha stale_state).2
        = streamCache stale_state)
  /\ Cache.data (streamCache (fetchVideoDetails headless_env detail_alpha stale_state).2)
       !! detailsKey detail_alpha = None
  /\ (forall s2, Cache.data (streamCache s2) !! detailsKey detail_alpha = None ->
        launched (fetchVideoDetails headless_env detail_alpha s2).2 = S (launched s2)).
Proof.
  apply (failure_is_not_cached headless_env detail_alpha stale_state).
  - vm_compute. reflexivity.
  - left. reflexivity.
Defined.

(** C10, as stated, fails when the key holds an expired entry: the call
    fails and returns the degraded result, and the entry that was in the
    stream cache before the call is gone after it. *)
Lemma failed_call_evicts_stale_entry :
  (fetchVideoDetails headless_env detail_alpha stale_state).1 = Ret Degraded
  /\ Cache.data (streamCache stale_state) !! detailsKey detail_alpha
     = Some (Cache.Item (Resolved meta_alpha []) 5%Z)
  /\ Cache.data (streamCache (fetchVideoDetails headless_env detail_alpha stale_state).2)
       !! detailsKey detail_alpha = None
  /\ streamCache (fetchVideoDetails headless_env detail_alpha stale_state).2
     ≠ streamCache stale_state.
Proof.
  assert (Cache.data (streamCache (fetchVideoDetails headless_env detail_alpha stale_state).2)
            !! detailsKey detail_alpha = None) as Hafter by (by vm_compute).
  assert (Cache.data (streamCache stale_state) !! detailsKey detail_alpha
          = Some (Cache.Item (Resolved meta_alpha []) 5%Z)) as Hbefore by (by vm_compute).
  split_and!; [by vm_compute | done | done |].
  intros Heq. rewrite Heq in Hafter. congruence.
Qed.

(** ** Catalog builder *)

Lemma pagesToLoad_from_seq nextPage i fuel :
  pagesToLoad_from nextPage i fuel
  = seq (nextPage + i)
      (fuel `min` ((CONCURRENT_PAGES - i) `min` (S MAX_PAGES - (nextPage + i)))).
Proof.
  revert i. induction fuel as [|fuel IH]; intros i; [done|].
  cbn [pagesToLoad_from].
  destruct (Nat.ltb_spec i CONCURRENT_PAGES) as [Hi|Hi];
    destruct (Nat.leb_spec (nextPage + i) MAX_PAGES) as [Hp|Hp]; cbn [andb].
  - rewrite IH.
    replace (S fuel `min` ((CONCURRENT_PAGES - i) `min` (S MAX_PAGES - (nextPage + i))))
      with (S (fuel `min` ((CONCURRENT_PAGES - S i) `min` (S MAX_PAGES - (nextPage + S i)))))
      by lia.
    cbn [seq]. f_equal. f_equal. lia.
  - by replace (S fuel `min` ((CONCURRENT_PAGES - i) `min` (S MAX_PAGES - (nextPage + i))))
      with 0%nat by lia.
  - by replace (S fuel `min` ((CONCURRENT_PAGES - i) `min` (S MAX_PAGES - (nextPage + i))))
      with 0%nat by lia.
  - by replace (S fuel `min` ((CONCURRENT_PAGES - i) `min` (S MAX_PAGES - (nextPage + i))))
      with 0%nat by lia.
Qed.

(** The [for] loop builds the batch of the specification. *)
Lemma pagesToLoad_batch nextPage : pagesToLoad nextPage = batch_of nextPage.
Proof.
  unfold pagesToLoad, batch_of. rewrite pagesToLoad_from_seq.
  replace (nextPage + 0)%nat with nextPage by lia. f_equal. lia.
Qed.

(** Below the ceiling the next page is within the site's page range, so
    the batch starts with it. *)
Lemma next_page_in_range (allItems : list CatalogEntry) :
  (length allItems < MAX_PAGES * ITEMS_PER_PAGE)%nat ->
  (1 <= length allItems / ITEMS_PER_PAGE + 1 <= MAX_PAGES)%nat.
Proof.
  intros Hlen. split; [lia|].
  assert (length allItems / ITEMS_PER_PAGE < MAX_PAGES)%nat; [|lia].
  apply Nat.Div0.div_lt_upper_bound. lia.
Qed.

Lemma batch_of_cons first :
  (first <= MAX_PAGES)%nat -> exists rest, batch_of first = first :: rest.
Proof.
  intros H. unfold batch_of.
  destruct (CONCURRENT_PAGES `min` (S MAX_PAGES - first)) as [|n] eqn:E.
  - unfold CONCURRENT_PAGES in E. lia.
  - by exists (seq (S first) n).
Qed.

Lemma needs_more_true skip (allItems : list CatalogEntry) :
  needs_more skip allItems = true
  <-> (length allItems < skip + ITEMS_PER_PAGE)%nat
      /\ (length allItems < MAX_PAGES * ITEMS_PER_PAGE)%nat.
Proof.
  unfold needs_more. rewrite andb_true_iff, !Nat.ltb_lt. done.
Qed.

Section CatalogProperties.
Context (env : Env).

(** One turn of the [while] loop, by its outcome. *)
Lemma fetchCatalog_loop_turn fuel skip search catalogType allItems s :
  fetchCatalog_loop env (S fuel) skip search catalogType allItems s
  = if needs_more skip allItems then
      match launchBrowser env s with
      | (Throw _, s1) => (Ret allItems, s1)
      | (Ret browser, s1) =>
          match fetchPages env browser
                  (batch_of (length allItems / ITEMS_PER_PAGE + 1))
                  search catalogType s1 with
          | (Throw _, s2) => (Ret allItems, log [Close browser] s2)
          | (Ret fetched, s2) =>
              if decide (concat fetched = []) then
                (Ret allItems, log [Close browser] s2)
              else
                fetchCatalog_loop env fuel skip search catalogType
                  (allItems ++ concat fetched)
                  (log [Close browser]
                     (catalogCache_set env (globalCacheKey search catalogType)
                        (allItems ++ concat fetched) s2).2)
          end
      end
    else (Ret allItems, s).
Proof.
  cbn [fetchCatalog_loop].
  destruct (needs_more skip allItems) eqn:Hmore; [|done].
  apply needs_more_true in Hmore as [_ Hceil].
  rewrite pagesToLoad_batch.
  destruct (batch_of_cons (length allItems / ITEMS_PER_PAGE + 1)) as [rest Hb];
    [by apply next_page_in_range|].
  rewrite Hb.
  destruct (launchBrowser env s) as [[browser|e] s1]; [|done].
  destruct (fetchPages env browser _ search catalogType s1) as [[fetched|e] s2];
    [|by run_m].
  destruct (concat fetched) as [|x pageItems] eqn:Hc.
  - rewrite decide_True by done. by run_m.
  - rewrite decide_False by done. reflexivity.
Qed.

(** The loop always ends, never throws, and runs as the specification
    words it; [fuel] beyond the distance to the ceiling is enough. *)
Lemma fetchCatalog_loop_crawl fuel skip search catalogType allItems s :
  (MAX_PAGES * ITEMS_PER_PAGE - length allItems < fuel)%nat ->
  exists allItems' s',
    fetchCatalog_loop env fuel skip search catalogType allItems s = (Ret allItems', s')
    /\ crawl env skip search catalogType allItems s allItems' s'.
Proof.
  revert allItems s. induction fuel as [|fuel IH]; intros allItems s Hfuel; [lia|].
  rewrite fetchCatalog_loop_turn.
  destruct (needs_more skip allItems) eqn:Hmore.
  - apply needs_more_true in Hmore as [Hwin Hceil].
    destruct (launchBrowser env s) as [[browser|e] s1] eqn:Hl.
    + destruct (fetchPages env browser _ search catalogType s1)
        as [[fetched|e] s2] eqn:Hf.
      * case_decide as Hc.
        -- eexists _, _. split; [done|]. by eapply crawl_end_of_catalog.
        -- destruct (IH (allItems ++ concat fetched)
                       (log [Close browser]
                          (catalogCache_set env (globalCacheKey search catalogType)
                             (allItems ++ concat fetched) s2).2))
             as (allItems' & s' & Hrun & Hcrawl).
           { rewrite length_app.
             assert (length (concat fetched) ≠ 0)%nat
               by (by intros ?%nil_length_inv). lia. }
           exists allItems', s'. split; [done|]. by eapply crawl_batch.
      * eexists _, _. split; [done|]. by eapply crawl_batch_failed.
    + eexists _, _. split; [done|]. by eapply crawl_no_session.
  - eexists _, _. split; [done|]. apply crawl_enough.
    rewrite <- needs_more_true. by rewrite Hmore.
Qed.

End CatalogProperties.

Lemma slice_lookup {A} (start stop : nat) (a : list A) (i : nat) :
  slice start stop a !! i
  = if decide (start + i < stop)%nat then a !! (start + i)%nat else None.
Proof.
  unfold slice. rewrite lookup_drop. case_decide.
  - by apply lookup_take_lt.
  - apply lookup_take_ge. lia.
Qed.

Lemma catalogCache_get_returns env key s :
  exists cached, (catalogCache_get env key s).1 = Ret cached.
Proof.
  unfold catalogCache_get. destruct (Cache.has key (catalogCache s)); [|by eexists].
  destruct (Cache.get key (env_now env (ticks s)) (catalogCache s)). by eexists.
Qed.

(** C5.  [fetchCatalog] always returns, and never throws.  Starting from
    the cached sequence of the namespace (empty on a miss) it runs the
    loop of the specification ([crawl]): a batch is fetched only while
    the accumulated length is below [skip + 500] and below [20 * 500];
    the batch starts at page [floor(length / 500) + 1]; an empty batch
    ends the loop.  With enough records accumulated at the start nothing
    is fetched at all.  The result is the slice
    [skip, min (skip + 500) length) of the accumulated sequence: its
    [i]-th record is record [skip + i] of the sequence as long as that
    index is below the bound, and there is no further record. *)
Theorem fetchCatalog_follows_spec (env : Env) (skip : nat)
    (search catalogType : string) (s : State) :
  exists cached s0 allItems s',
    catalogCache_get env (globalCacheKey search catalogType) s = (Ret cached, s0)
    /\ crawl env skip search catalogType (default [] cached) s0 allItems s'
    /\ (~ ((length (default [] cached) < skip + ITEMS_PER_PAGE)%nat
           /\ (length (default [] cached) < MAX_PAGES * ITEMS_PER_PAGE)%nat) ->
        allItems = default [] cached /\ s' = s0)
    /\ fetchCatalog env skip search catalogType s
       = (Ret (slice skip ((skip + ITEMS_PER_PAGE) `min` length allItems) allItems), s')
    /\ (forall i,
          slice skip ((skip + ITEMS_PER_PAGE) `min` length allItems) allItems !! i
          = if decide (skip + i < (skip + ITEMS_PER_PAGE) `min` length allItems)%nat
            then allItems !! (skip + i)%nat else None)
    /\ length (slice skip ((skip + ITEMS_PER_PAGE) `min` length allItems) allItems)
       = ((skip + ITEMS_PER_PAGE) `min` length allItems - skip)%nat.
Proof.
  destruct (catalogCache_get_returns env (globalCacheKey search catalogType) s)
    as [cached Hget].
  destruct (catalogCache_get env (globalCacheKey search catalogType) s)
    as [r s0] eqn:Hrun. simpl in Hget. subst r.
  destruct (fetchCatalog_loop_crawl env (S (MAX_PAGES * ITEMS_PER_PAGE)) skip search
              catalogType (default [] cached) s0) as (allItems & s' & Hloop & Hcrawl);
    [lia|].
  exists cached, s0, allItems, s'. split_and!; [done | done | | | |].
  - intros Hguard. rewrite fetchCatalog_loop_turn in Hloop.
    destruct (needs_more skip (default [] cached)) eqn:Hmore.
    + by apply needs_more_true in Hmore.
    + by simplify_eq.
  - assert (fetchCatalog_full env skip search catalogType s
            = (Ret (slice skip ((skip + ITEMS_PER_PAGE) `min` length allItems) allItems,
                    allItems), s')) as Hfull.
    { unfold fetchCatalog_full. rewrite (bind_run _ _ _ _ _ Hrun).
      cbn beta iota. by rewrite (bind_run _ _ _ _ _ Hloop). }
    unfold fetchCatalog. by rewrite (bind_run _ _ _ _ _ Hfull).
  - intros i. apply slice_lookup.
  - unfold slice. rewrite length_drop, length_take. lia.
Qed.

(** C1 (as amended).  When a fetched batch is not empty, [fetchCatalog]
    appends all of it: the sequence carried into the next turn, and
    stored in the catalog cache under the key of the namespace, is the
    previous sequence followed by every record of the batch in fetch
    order.  No record is held back: for every identity the stored
    sequence has as many records as the previous sequence and the batch
    together. *)
Theorem fetchCatalog_appends_whole_batch (env : Env) (fuel skip : nat)
    (search catalogType : string) (allItems : list CatalogEntry) (s : State)
    (browser : nat) (s1 : State) (fetched : list (list CatalogEntry)) (s2 : State) :
  needs_more skip allItems = true ->
  launchBrowser env s = (Ret browser, s1) ->
  fetchPages env browser (pagesToLoad (length allItems / ITEMS_PER_PAGE + 1))
    search catalogType s1 = (Ret fetched, s2) ->
  concat fetched ≠ [] ->
  exists s3,
    fetchCatalog_loop env (S fuel) skip search catalogType allItems s
    = fetchCatalog_loop env fuel skip search catalogType (allItems ++ concat fetched) s3
    /\ Cache.data (catalogCache s3) !! globalCacheKey search catalogType
       = Some (Cache.Item (allItems ++ concat fetched)
                 (env_now env (ticks s2) + Cache.ttl (catalogCache s2))%Z)
    /\ length (allItems ++ concat fetched) = (length allItems + length (concat fetched))%nat
    /\ (forall id,
          length (filter (fun e => e_id e = id) (allItems ++ concat fetched))
          = (length (filter (fun e => e_id e = id) allItems)
             + length (filter (fun e => e_id e = id) (concat fetched)))%nat).
Proof.
  intros Hmore Hl Hf Hne.
  rewrite pagesToLoad_batch in Hf.
  eexists. split_and!.
  - rewrite fetchCatalog_loop_turn, Hmore, Hl, Hf.
    rewrite decide_False by done. reflexivity.
  - simpl. unfold Cache.set. simpl. by rewrite lookup_insert_eq.
  - apply length_app.
  - intros id. by rewrite filter_app, length_app.
Qed.

Lemma fetchCatalog_appends_whole_batch_witness :
  exists s3,
    fetchCatalog_loop twin_env 1 0 "" "popular" [] boot
    = fetchCatalog_loop twin_env 0 0 "" "popular"
        ([] ++ concat [[entry_a; entry_b]; [entry_b]; []; []; []]) s3
    /\ Cache.data (catalogCache s3) !! globalCacheKey "" "popular"
       = Some (Cache.Item ([] ++ concat [[entry_a; entry_b]; [entry_b]; []; []; []])
                 (env_now twin_env
                    (ticks (fetchPages twin_env 0 (pagesToLoad 1) "" "popular"
                              (log [Launch 0] (count_launch boot))).2)
                  + Cache.ttl
                      (catalogCache (fetchPages twin_env 0 (pagesToLoad 1) "" "popular"
                                       (log [Launch 0] (count_launch boot))).2))%Z)
    /\ length ([] ++ concat [[entry_a; entry_b]; [entry_b]; []; []; []])
       = (length (@nil CatalogEntry)
          + length (concat [[entry_a; entry_b]; [entry_b]; []; []; []]))%nat
    /\ (forall id,
          length (filter (fun e => e_id e = id)
                    ([] ++ concat [[entry_a; entry_b]; [entry_b]; []; []; []]))
          = (length (filter (fun e => e_id e = id) (@nil CatalogEntry))
             + length (filter (fun e => e_id e = id)
                         (concat [[entry_a; entry_b]; [entry_b]; []; []; []])))%nat).
Proof.
  apply (fetchCatalog_appends_whole_batch twin_env 0 0 "" "popular" [] boot 0
           (log [Launch 0] (count_launch boot))
           [[entry_a; entry_b]; [entry_b]; []; []; []]
           (fetchPages twin_env 0 (pagesToLoad 1) "" "popular"
              (log [Launch 0] (count_launch boot))).2).
  - reflexivity.
  - reflexivity.
  - vm_compute. reflexivity.
  - discriminate.
Defined.

(** C1, as stated, fails: on [twin_env], whose first two pages both list
    [entry_b], the sequence built and cached by [fetchCatalog] holds that
    record twice. *)
Lemma fetchCatalog_keeps_duplicates :
  (fetchCatalog_full twin_env 0 "" "popular" boot).1
  = Ret ([entry_a; entry_b; entry_b], [entry_a; entry_b; entry_b])
  /\ Cache.value
       <$> Cache.data (catalogCache (fetchCatalog_full twin_env 0 "" "popular" boot).2)
             !! globalCacheKey "" "popular"
     = Some [entry_a; entry_b; entry_b]
  /\ ~ NoDup (e_id <$> [entry_a; entry_b; entry_b]).
Proof.
  split_and!; [by vm_compute | by vm_compute |].
  intros Hnd. simpl in Hnd. apply NoDup_cons in Hnd as [_ Hnd].
  apply NoDup_cons in Hnd as [Hnin _]. apply Hnin. by left.
Qed.

(** ** Lookup fallback *)

Lemma probed_pages_app a b : probed_pages (a ++ b) = probed_pages a ++ probed_pages b.
Proof. apply omap_app. Qed.

Lemma probed_pages_navigation session url k :
  probed_pages (navigation_events session url k) = [].
Proof.
  destruct k as [|k]; [done|]. simpl.
  induction k as [|k IH]; [done|]. simpl. exact IH.
Qed.

Section LookupProperties.
Context (env : Env).

(** [fetchPage] adds navigations and delays to the trace, nothing else. *)
Lemma fetchPage_trace session pageNum search catalogType s :
  exists r events,
    fetchPage env session pageNum search catalogType s = (r, log events s)
    /\ probed_pages events = [].
Proof.
  destruct (fetchPage_logs env session pageNum search catalogType s) as (r & k & Hrun).
  eexists _, _. split; [exact Hrun|]. apply probed_pages_navigation.
Qed.

End LookupProperties.

Lemma probed_pages_turn b catalogType pageNum events rest :
  probed_pages events = [] ->
  probed_pages (Launch b :: ProbeGoto b (baseUrl "" catalogType pageNum)
                  :: events ++ [Close b] ++ rest)
  = pageNum :: probed_pages rest.
Proof.
  intros He.
  change (Launch b :: ProbeGoto b (baseUrl "" catalogType pageNum)
            :: events ++ [Close b] ++ rest)
    with ([Launch b; ProbeGoto b (baseUrl "" catalogType pageNum)]
            ++ events ++ [Close b] ++ rest).
  rewrite !probed_pages_app, He. done.
Qed.

Section LookupRuns.
Context (env : Env).

Lemma catalogCache_set_trace key v s :
  catalogCache_set env key v s = (Ret tt, (catalogCache_set env key v s).2)
  /\ trace (catalogCache_set env key v s).2 = trace s.
Proof. done. Qed.

(** One turn opens the handler's page on [pageNum] and on no other. *)
Lemma lookup_turn_trace browser pageNum id catalogType cacheKey cachedItems s :
  exists events,
    trace (lookup_turn env browser pageNum id catalogType cacheKey cachedItems s).2
    = trace s ++ ProbeGoto browser (baseUrl "" catalogType pageNum) :: events
    /\ probed_pages events = [].
Proof.
  unfold lookup_turn. rewrite bind_emit.
  destruct (env_probe env browser (baseUrl "" catalogType pageNum)) as [|status ready].
  { exists []. done. }
  destruct (bool_decide (status = 200%nat)); cbn [negb]; [|by exists []].
  destruct ready; [|by exists []].
  run_m.
  destruct (fetchPage_trace env browser pageNum "" catalogType
              (log [ProbeGoto browser (baseUrl "" catalogType pageNum); Delay 1000] s))
    as (r & events & Hrun & Hprobed).
  rewrite (bind_run _ _ _ _ _ Hrun).
  exists (Delay 1000 :: events). split; [|done].
  assert (trace (log events
                   (log [ProbeGoto browser (baseUrl "" catalogType pageNum); Delay 1000] s))
          = trace s ++ ProbeGoto browser (baseUrl "" catalogType pageNum)
               :: Delay 1000 :: events) as Htrace.
  { simpl. by rewrite <- app_assoc. }
  destruct r as [pageItems|e]; [|done].
  destruct pageItems as [|x pageItems]; [done|].
  rewrite (bind_run _ _ _ _ _ (proj1 (catalogCache_set_trace _ _ _))).
  by destruct (find_item id (x :: pageItems)).
Qed.

(** The crawl loop never throws and opens the pages [pageNum],
    [pageNum + 1], ... one after the other, never one beyond the
    ceiling. *)
Lemma lookup_loop_pages fuel pageNum browser id catalogType cacheKey cachedItems s :
  exists r events k,
    (lookup_loop env fuel pageNum browser id catalogType cacheKey cachedItems s).1 = Ret r
    /\ trace (lookup_loop env fuel pageNum browser id catalogType cacheKey cachedItems s).2
       = trace s ++ events
    /\ probed_pages events = seq pageNum k
    /\ (k <= fuel)%nat
    /\ (k = 0 \/ pageNum + k <= S MAX_PAGES)%nat
    /\ ((0 < fuel)%nat -> (pageNum <= MAX_PAGES)%nat ->
        env_launch env (launched s) = true -> (1 <= k)%nat).
Proof.
  revert pageNum browser cachedItems s.
  induction fuel as [|fuel IH]; intros pageNum browser cachedItems s.
  { exists None, [], 0%nat. simpl. rewrite app_nil_r. split_and!; auto. }
  cbn [lookup_loop].
  destruct (Nat.leb_spec pageNum MAX_PAGES) as [Hp|Hp];
    [|exists None, [], 0%nat; simpl; rewrite app_nil_r; split_and!; auto; lia].
  unfold launchBrowser.
  destruct (env_launch env (launched s)) eqn:Hlaunch.
  - set (b := launched s).
    set (s1 := log [Launch b] (count_launch s)).
    destruct (lookup_turn_trace b pageNum id catalogType cacheKey cachedItems s1)
      as (events & Htrace & Hprobed).
    destruct (lookup_turn env b pageNum id catalogType cacheKey cachedItems s1)
      as [[turn|e] s2]; simpl in Htrace.
    + destruct turn as [|item|cachedItems'].
      * exists None, (Launch b :: ProbeGoto b (baseUrl "" catalogType pageNum)
                        :: events ++ [Close b] ++ []), 1%nat.
        rewrite probed_pages_turn by done.
        run_m. simpl. rewrite Htrace, <- !app_assoc. simpl.
        split_and!; auto; lia.
      * exists (Some item), (Launch b :: ProbeGoto b (baseUrl "" catalogType pageNum)
                               :: events ++ [Close b] ++ []), 1%nat.
        rewrite probed_pages_turn by done.
        run_m. simpl. rewrite Htrace, <- !app_assoc. simpl.
        split_and!; auto; lia.
      * run_m.
        destruct (IH (S pageNum) (Some b) cachedItems' (log [Close b] s2))
          as (r & rest & k & Hr & Ht & Hpp & Hk & Hceil & _).
        exists r, (Launch b :: ProbeGoto b (baseUrl "" catalogType pageNum)
                     :: events ++ [Close b] ++ rest), (S k).
        rewrite probed_pages_turn by done.
        split_and!; [done | | by rewrite Hpp | lia | right; lia | lia].
        rewrite Ht. simpl. rewrite Htrace, <- !app_assoc. done.
    + exists None, (Launch b :: ProbeGoto b (baseUrl "" catalogType pageNum)
                      :: events ++ [Close b] ++ []), 1%nat.
      rewrite probed_pages_turn by done.
      run_m. simpl. rewrite Htrace, <- !app_assoc. simpl.
      split_and!; auto; lia.
  - destruct browser as [b|].
    + exists None, [Close b], 0%nat. run_m. simpl. split_and!; auto; lia.
    + exists None, [], 0%nat. run_m. simpl. rewrite app_nil_r. split_and!; auto; lia.
Qed.

End LookupRuns.

(** C3.  What the lookup fallback of [addon.js] does.  When the
    requested identity is not in the cached sequence, the handler opens
    listing pages one at a time, and the pages it opens are 1, 2, ..., k
    for some [k] up to the ceiling: the crawl starts at page 1 whatever
    the cached length, and it throws nothing.  On [warm_state], whose
    cache holds a full window of 500 records, a request for [entry_b]
    (listed on page 2) crawls page 1 and then page 2, although
    [floor(500 / 500) + 1] is 2, and leaves the records of page 1 behind
    the cached window.  The earlier variant of the handler, on the same
    window, opens page 2 only. *)
Theorem lookup_restarts_from_page_one :
  (forall (env : Env) (id : string) (s s0 : State) (cached : option (list CatalogEntry)),
     catalogCache_get env ("catalog-" +:+ catalogType_of id +:+ "-all") s = (Ret cached, s0) ->
     find_item id (default [] cached) = None ->
     exists r events k,
       (lookupItem env id s).1 = Ret r
       /\ trace (lookupItem env id s).2 = trace s0 ++ events
       /\ probed_pages events = seq 1 k
       /\ (k <= MAX_PAGES)%nat
       /\ (env_launch env (launched s0) = true -> (1 <= k)%nat))
  /\ length first_window = 500%nat
  /\ (length first_window / ITEMS_PER_PAGE + 1)%nat = 2%nat
  /\ find_item (e_id entry_b) first_window = None
  /\ (lookupItem deep_env (e_id entry_b) warm_state).1 = Ret (Some entry_b)
  /\ probed_pages (trace (lookupItem deep_env (e_id entry_b) warm_state).2) = [1; 2]%nat
  /\ Cache.value
       <$> Cache.data (catalogCache (lookupItem deep_env (e_id entry_b) warm_state).2)
             !! "catalog-popular-all"
     = Some (first_window ++ [entry_a; entry_b])
  /\ (Earlier.lookupItem deep_env MAX_PAGES (e_id entry_b) warm_state_earlier).1
     = Ret (Some (Some entry_b))
  /\ probed_pages
       (trace (Earlier.lookupItem deep_env MAX_PAGES (e_id entry_b) warm_state_earlier).2)
     = [2]%nat.
Proof.
  split_and!.
  - intros env id s s0 cached Hget Hfind.
    unfold lookupItem. rewrite (bind_run _ _ _ _ _ Hget). cbn beta iota. rewrite Hfind.
    destruct (lookup_loop_pages env MAX_PAGES 1 None id (catalogType_of id)
                ("catalog-" +:+ catalogType_of id +:+ "-all") (default [] cached) s0)
      as (r & events & k & Hr & Ht & Hpp & Hk & _ & Hfirst).
    exists r, events, k. split_and!; [done..|].
    intros Hlaunch. apply Hfirst; [unfold MAX_PAGES; lia | unfold MAX_PAGES; lia | done].
  - by vm_compute.
  - by vm_compute.
  - by vm_compute.
  - by vm_compute.
  - by vm_compute.
  - by vm_compute.
  - by vm_compute.
  - by vm_compute.
Qed.

(* ===================================================================== *)
(** * Further properties

    What the code shows beyond the statements of the specification:
    the lifetime of a cached value, where the resolved streams come
    from, the records built by the listing script, what a call of the
    catalog builder, of the lookup block and of the stream resolver
    changes and leaves alone, and the responses of the handlers. *)
(* ===================================================================== *)

(** ** Expiring cache: lifetime of a value *)

(** X1.  A value written by [set] is what [get] returns for its key up
    to and including the instant [now + ttl] of the write (the override
    when it is given and not zero, the default of the cache otherwise);
    any later read returns nothing and removes the entry.  An earlier
    write to the same key leaves no trace: neither its value nor its
    expiry plays a part. *)
Theorem cache_value_lifetime {V : Type} (c : Cache.t V) (key : string) (v0 v : V)
    (ttl0 customTtl : option Z) (t0 t1 now : Z) :
  let c1 := Cache.set key v customTtl t1 (Cache.set key v0 ttl0 t0 c) in
  Cache.get key now c1
  = if decide (now <= t1 + Cache.effective_ttl customTtl c)%Z
    then (Some v, c1)
    else (None, Cache.Make (delete key (Cache.data c)) (Cache.ttl c)).
Proof.
  intros c1. unfold Cache.get. subst c1. unfold Cache.set at 1. cbn [Cache.data Cache.ttl].
  rewrite lookup_insert_eq. cbn [Cache.expires Cache.value].
  assert (Cache.effective_ttl customTtl (Cache.set key v0 ttl0 t0 c)
          = Cache.effective_ttl customTtl c) as -> by done.
  case_decide as Hlive.
  - rewrite bool_decide_eq_false_2 by lia. done.
  - rewrite bool_decide_eq_true_2 by lia. f_equal. f_equal.
    unfold Cache.set. cbn [Cache.data].
    rewrite delete_insert_eq, delete_insert_eq. done.
Qed.

(** X2.  Expiry is final: once [get] has returned nothing for a key, a
    further [get] of that key returns nothing again and changes nothing,
    whatever the clock reads then. *)
Theorem cache_expiry_is_final {V : Type} (c : Cache.t V) (key : string) (now later : Z) :
  (Cache.get key now c).1 = None ->
  Cache.get key later (Cache.get key now c).2 = (None, (Cache.get key now c).2).
Proof.
  unfold Cache.get at 1 3 4.
  destruct (Cache.data c !! key) as [it|] eqn:E.
  - case_bool_decide; [|done]. intros _. cbn [snd].
    apply get_missing. cbn [Cache.data]. apply lookup_delete_eq.
  - intros _. by apply get_missing.
Qed.

Lemma cache_expiry_is_final_witness :
  Cache.get "k" 3%Z (Cache.get "k" 11%Z (Cache.set "k" 7%nat None 0%Z (Cache.new (Some 10%Z)))).2
  = (None, (Cache.get "k" 11%Z (Cache.set "k" 7%nat None 0%Z (Cache.new (Some 10%Z)))).2).
Proof.
  apply (cache_expiry_is_final (Cache.set "k" 7%nat None 0%Z (Cache.new (Some 10%Z)))
           "k" 11%Z 3%Z).
  vm_compute. reflexivity.
Defined.

(** ** Stream resolver: where the streams come from *)

Section StreamOrigin.
Context (requests : list string) (sources : list VideoSource).

Lemma on_request_origin u m :
  u ∈ requests -> Forall (origin_ok requests sources) m -> Forall (origin_ok requests sources) (on_request u m).
Proof.
  intros Hu Hm. unfold on_request.
  destruct (is_media u) eqn:Hmedia; [|done].
  case_bool_decide as Hq; [done|].
  apply jsmap_set_Forall; [done|].
  split; [done|]. left. exists u. done.
Qed.

Lemma on_requests_origin us m :
  us ⊆ requests -> Forall (origin_ok requests sources) m -> Forall (origin_ok requests sources) (on_requests us m).
Proof.
  unfold on_requests. revert m.
  induction us as [|u us IH]; intros m Hsub Hm; simpl; [done|].
  apply IH.
  - intros x Hx. apply Hsub. by right.
  - apply on_request_origin; [|done]. apply Hsub. by left.
Qed.

Lemma merge_source_origin source m :
  source ∈ sources -> Forall (origin_ok requests sources) m -> Forall (origin_ok requests sources) (merge_source m source).
Proof.
  intros Hs Hm. unfold merge_source.
  destruct (JSMap.has (vs_quality source) m); [done|].
  case_bool_decide as Hq; [done|]. simpl.
  apply jsmap_set_Forall; [done|].
  split; [done|]. right. by exists source.
Qed.

Lemma merge_sources_origin ss m :
  ss ⊆ sources -> Forall (origin_ok requests sources) m -> Forall (origin_ok requests sources) (merge_sources ss m).
Proof.
  unfold merge_sources. revert m.
  induction ss as [|x ss IH]; intros m Hsub Hm; simpl; [done|].
  apply IH.
  - intros y Hy. apply Hsub. by right.
  - apply merge_source_origin; [|done]. apply Hsub. by left.
Qed.

End StreamOrigin.

Lemma collected_streams_origin early sources late :
  Forall (origin_ok (early ++ late) sources) (collected_streams early sources late).
Proof.
  unfold collected_streams.
  apply on_requests_origin; [set_solver|].
  apply merge_sources_origin; [done|].
  apply on_requests_origin; [set_solver|]. constructor.
Qed.

(** X3.  The streams of one resolution: no two of them carry the same
    quality label, none is labelled ['Unknown'], each has an HTTPS URL,
    and each is a request the page issued for a media file or a source
    listed in the page markup; nothing else is ever returned.  The URLs
    of the composed streams are those of the ranked candidates, in the
    same order. *)
Theorem streams_have_an_origin (protocol : string -> option string)
    (early late : list string) (sources : list VideoSource)
    (title : string) (subtitles : list Subtitle) :
  let ranked := ranked_streams protocol (collected_streams early sources late) in
  NoDup (s_quality <$> ranked)
  /\ Forall (fun c => s_quality c ≠ "Unknown"
                      /\ is_https protocol (s_url c) = true
                      /\ (intercepted (early ++ late) c \/ from_page sources c)) ranked
  /\ sd_url <$> uniqueStreams protocol title subtitles (collected_streams early sources late)
     = s_url <$> ranked.
Proof.
  intros ranked.
  destruct (collected_streams_wf early sources late) as [Hnd Hkeys].
  pose proof (collected_streams_origin early sources late) as Horigin.
  set (m := collected_streams early sources late) in *.
  assert (ranked ≡ₚ filter (fun s => is_https protocol (s_url s)) (JSMap.values m)) as Hperm
    by apply sort_streams_perm.
  assert (s_quality <$> JSMap.values m = JSMap.keys m) as Hlabels.
  { unfold JSMap.values, JSMap.keys. clear -Hkeys.
    induction Hkeys as [|[k c] m Hk _ IH]; csimpl; [done|].
    simpl in Hk. by rewrite Hk, IH. }
  split_and!.
  - rewrite Hperm. rewrite <- Hlabels in Hnd.
    eapply sublist_NoDup; [exact Hnd|]. apply fmap_sublist, sublist_filter.
  - rewrite Hperm. apply Forall_forall. intros c [Hs Hc]%list_elem_of_filter.
    apply Is_true_true in Hs.
    unfold JSMap.values in Hc. apply list_elem_of_fmap in Hc as ([k c'] & -> & Hin).
    rewrite Forall_forall in Horigin, Hkeys.
    destruct (Horigin _ Hin) as [Hne Hfrom]. specialize (Hkeys _ Hin). simpl in *.
    split_and!; [congruence | done | done].
  - unfold uniqueStreams. fold m. fold ranked. rewrite <- list_fmap_compose. done.
Qed.

(** ** Stream resolver: what the page markup yields *)

Lemma langMap_codes lang code : JSMap.get lang langMap = Some code -> code ≠ "".
Proof.
  unfold langMap. simpl. repeat (case_bool_decide; [by intros [= <-]|]). done.
Qed.

Lemma str_or_nonempty a b : b ≠ "" -> str_or a b ≠ "".
Proof. intros Hb. unfold str_or. by case_bool_decide. Qed.

Lemma attr_or_nonempty a b : b ≠ "" -> attr_or a b ≠ "".
Proof. intros Hb. destruct a; simpl; [by apply str_or_nonempty | done]. Qed.

Lemma put_source_ok quality url sources :
  url ≠ "" -> quality ≠ "" ->
  NoDup (JSMap.keys sources) /\ Forall source_ok sources ->
  NoDup (JSMap.keys (put_source quality url sources))
  /\ Forall source_ok (put_source quality url sources).
Proof.
  intros Hu Hq [Hnd Hall]. unfold put_source. case_bool_decide; [done|].
  split; [by apply jsmap_set_nodup|]. by apply jsmap_set_Forall.
Qed.

Lemma source_element_ok sources source :
  NoDup (JSMap.keys sources) /\ Forall source_ok sources ->
  NoDup (JSMap.keys (source_element sources source))
  /\ Forall source_ok (source_element sources source).
Proof.
  intros H. unfold source_element. case_bool_decide; [done|].
  apply put_source_ok; [done | | done].
  by repeat apply attr_or_nonempty.
Qed.

Lemma button_subtitle_ok subtitles button :
  Forall subtitle_ok subtitles -> Forall subtitle_ok (button_subtitle subtitles button).
Proof.
  intros H. unfold button_subtitle.
  destruct (b_href button) as [href|]; [|done].
  case_bool_decide; [done|].
  apply jsmap_set_Forall; [done|].
  assert (default "eng" (JSMap.get (str_or (leading_letters (b_text button)) "English")
                           langMap) ≠ "") as Hcode.
  { destruct (JSMap.get _ langMap) eqn:G; simpl; [by eapply langMap_codes | done]. }
  by split_and!.
Qed.

Lemma track_entry_ok subtitles track :
  t_src track ≠ "" ->
  Forall subtitle_ok subtitles -> Forall subtitle_ok (track_entry subtitles track).
Proof.
  intros Hsrc H. unfold track_entry. apply jsmap_set_Forall; [done|].
  split_and!; simpl; [done | by apply str_or_nonempty |].
  by apply str_or_nonempty, str_or_nonempty.
Qed.

Lemma track_subtitle_ok subtitles track :
  Forall subtitle_ok subtitles -> Forall subtitle_ok (track_subtitle subtitles track).
Proof.
  intros H. unfold track_subtitle. case_bool_decide; [done|]. by apply track_entry_ok.
Qed.

Lemma video_track_subtitle_ok subtitles track :
  Forall subtitle_ok subtitles -> Forall subtitle_ok (video_track_subtitle subtitles track).
Proof.
  intros H. unfold video_track_subtitle. case_bool_decide; [done|].
  case_match; [|done]. by apply track_entry_ok.
Qed.

Lemma fold_left_preserves {A B} (P : A -> Prop) (f : A -> B -> A) (l : list B) (a : A) :
  (forall a b, P a -> P (f a b)) -> P a -> P (fold_left f l a).
Proof.
  intros Hf. revert a. induction l as [|b l IH]; intros a Ha; simpl; [done|].
  by apply IH, Hf.
Qed.

Lemma video_element_ok acc video :
  (NoDup (JSMap.keys acc.1) /\ Forall source_ok acc.1) /\ Forall subtitle_ok acc.2 ->
  (NoDup (JSMap.keys (video_element acc video).1)
   /\ Forall source_ok (video_element acc video).1)
  /\ Forall subtitle_ok (video_element acc video).2.
Proof.
  destruct acc as [sources subtitles]. intros [Hs Ht]. simpl in *. split.
  - apply (fold_left_preserves
             (fun m => NoDup (JSMap.keys m) /\ Forall source_ok m)).
    + intros m x. apply source_element_ok.
    + case_bool_decide; [done|].
      apply put_source_ok; [done | | done]. by apply attr_or_nonempty.
  - apply (fold_left_preserves (Forall subtitle_ok)); [|done].
    intros m x. apply video_track_subtitle_ok.
Qed.

(** X4.  What the first in-page script reports for a detail page: no two
    sources carry the same quality label, every source has a URL and a
    label, and the label is never ['Unknown']; every subtitle has a URL.
    When the language word of no download button names a member that
    plain objects inherit, every subtitle also has a language code and an
    identifier, both not empty. *)
Theorem videoData_wellformed (dom : Dom) :
  NoDup (vs_quality <$> (videoData dom).1)
  /\ Forall (fun source => vs_url source ≠ "" /\ vs_quality source ≠ ""
                           /\ vs_quality source ≠ "Unknown") (videoData dom).1
  /\ Forall (fun sub => sub_url sub ≠ "") (videoData dom).2
  /\ (Forall plain_button (d_buttons dom) ->
      Forall (fun sub => sub_lang sub ≠ "" /\ sub_id sub ≠ "") (videoData dom).2).
Proof.
  unfold videoData.
  assert ((NoDup (JSMap.keys (fold_left video_element (d_videos dom)
                                (JSMap.empty, page_subtitles dom)).1)
           /\ Forall source_ok (fold_left video_element (d_videos dom)
                                  (JSMap.empty, page_subtitles dom)).1)
          /\ Forall subtitle_ok (fold_left video_element (d_videos dom)
                                   (JSMap.empty, page_subtitles dom)).2) as Hinv.
  { apply (fold_left_preserves
             (fun acc => (NoDup (JSMap.keys acc.1) /\ Forall source_ok acc.1)
                         /\ Forall subtitle_ok acc.2)).
    - intros acc video. apply video_element_ok.
    - simpl. split; [split; [apply NoDup_nil_2 | constructor]|].
      unfold page_subtitles.
      apply (fold_left_preserves (Forall subtitle_ok)).
      + intros m x. apply track_subtitle_ok.
      + apply (fold_left_preserves (Forall subtitle_ok)); [|constructor].
        intros m x. apply button_subtitle_ok. }
  destruct (fold_left video_element (d_videos dom) (JSMap.empty, page_subtitles dom))
    as [sources subtitles]. simpl in *.
  destruct Hinv as [[Hnd Hs] Ht].
  assert (vs_quality <$> JSMap.values sources = JSMap.keys sources) as Hlabels.
  { unfold JSMap.values, JSMap.keys. clear -Hs.
    induction Hs as [|[k c] m Hk _ IH]; csimpl; [done|].
    destruct Hk as [Hk _]. simpl in Hk. by rewrite Hk, IH. }
  split_and!.
  - by rewrite Hlabels.
  - unfold JSMap.values. apply Forall_fmap.
    eapply Forall_impl; [exact Hs|]. intros [k c] (Hk & Hu & Hne & Hunk). simpl in *.
    by rewrite Hk.
  - unfold JSMap.values. apply Forall_fmap.
    eapply Forall_impl; [exact Ht|]. by intros [k c] (Hurl & _ & _).
  - intros _. unfold JSMap.values. apply Forall_fmap.
    eapply Forall_impl; [exact Ht|]. by intros [k c] (_ & Hlang & Hid).
Qed.

(** The page of the English subtitles has a plain button, and both its
    subtitles carry the code [eng]. *)
Example english_page_plain :
  Forall plain_button (d_buttons english_page)
  /\ map sub_lang (videoData english_page).2 = ["eng"; "eng"].
Proof.
  split; [|by vm_compute].
  repeat constructor. unfold plain_button. apply (bool_decide_unpack _). by vm_compute.
Qed.

(** ** Strings *)

Lemma string_app_cons c s t : String c s +:+ t = String c (s +:+ t).
Proof. reflexivity. Qed.

Lemma string_app_nil_r s : s +:+ "" = s.
Proof. induction s as [|c s IH]; [done|]. by rewrite string_app_cons, IH. Qed.

Lemma string_app_assoc a b c : (a +:+ b) +:+ c = a +:+ (b +:+ c).
Proof. induction a as [|x a IH]; [done|]. by rewrite !string_app_cons, IH. Qed.

Lemma string_length_app a b :
  String.length (a +:+ b) = (String.length a + String.length b)%nat.
Proof. induction a as [|x a IH]; [done|]. rewrite string_app_cons. simpl. by rewrite IH. Qed.

Lemma substring_all s : String.substring 0 (String.length s) s = s.
Proof. induction s as [|c s IH]; simpl; [done|]. by rewrite IH. Qed.

Lemma substring_app_skip a b n :
  String.substring (String.length a) n (a +:+ b) = String.substring 0 n b.
Proof. induction a as [|x a IH]; [done|]. rewrite string_app_cons. simpl. exact IH. Qed.

Lemma substring_app_prefix a b : String.substring 0 (String.length a) (a +:+ b) = a.
Proof.
  induction a as [|x a IH]; [by destruct b|].
  rewrite string_app_cons. simpl. by rewrite IH.
Qed.

Lemma endsWith_app a b : endsWith (a +:+ b) b = true.
Proof.
  unfold endsWith. rewrite string_length_app.
  rewrite (proj2 (Nat.leb_le _ _)) by lia. simpl.
  replace (String.length a + String.length b - String.length b)%nat
    with (String.length a) by lia.
  rewrite substring_app_skip, substring_all. by rewrite bool_decide_eq_true_2.
Qed.

Lemma split_on_nonempty sep s cur : split_on sep s cur ≠ [].
Proof.
  revert cur. induction s as [|c s IH]; intros cur; simpl; [done|].
  case_bool_decide; [done | apply IH].
Qed.

(** A part without the separator, followed by the separator, is split
    off as it is. *)
Lemma split_on_single sep a cur x :
  split_on sep a cur = [x] ->
  forall cur' b,
    split_on sep (a +:+ String sep b) cur' = (cur' +:+ a) :: split_on sep b "".
Proof.
  revert cur x. induction a as [|c a IH]; intros cur x Hone cur' b; simpl in *.
  - rewrite bool_decide_eq_true_2 by done. rewrite string_app_nil_r. reflexivity.
  - case_bool_decide as E.
    + exfalso. injection Hone as _ Hrest. by apply split_on_nonempty in Hrest.
    + rewrite (IH _ _ Hone). by rewrite string_app_assoc.
Qed.

(** ** The in-page extraction *)

Lemma episode_match_spec s n :
  episode_match s = Some n ->
  n ≠ "" /\ all_digits n = true /\ exists p, s = p +:+ "-" +:+ n.
Proof.
  induction s as [|c s IH]; simpl; [done|].
  destruct (bool_decide_reflect (c = "-"%char)) as [->|Hc]; simpl.
  - destruct (bool_decide_reflect (s = "")) as [Hs|Hs]; simpl.
    + intros H. destruct (IH H) as (? & ? & p & ->). by destruct p.
    + destruct (all_digits s) eqn:Hd.
      * intros [= <-]. split_and!; [done | done |]. by exists "".
      * intros H. destruct (IH H) as (? & ? & p & ->).
        split_and!; [done | done |]. by exists (String "-" p).
  - intros H. destruct (IH H) as (? & ? & p & ->).
    split_and!; [done | done |]. by exists (String c p).
Qed.

Lemma pick_title_nonempty candidates : pick_title candidates ≠ "".
Proof.
  induction candidates as [|[candidate|] rest IH]; simpl; [done | | done].
  destruct (candidate_text candidate) as [text|] eqn:E; [|done].
  unfold candidate_text in E.
  destruct (bool_decide_reflect (te_text candidate = "")); simpl in E; [|by simplify_eq].
  destruct (te_title candidate) as [t|];
    [destruct (bool_decide_reflect (t = "")); simpl in E; [|by simplify_eq]|];
    (destruct (te_alt candidate) as [a|]; [|done];
     destruct (bool_decide_reflect (a = "")); simpl in E; by simplify_eq).
Qed.

Lemma pick_poster_first candidates :
  pick_poster candidates = ""
  \/ exists img, Some img ∈ candidates
       /\ pick_poster candidates = str_or (img_src img) (attr_or (img_data_src img) "").
Proof.
  induction candidates as [|[img|] rest IH]; simpl; [by left | |].
  - case_bool_decide as E.
    + destruct IH as [?|(img' & Hin & ?)]; [by left|].
      right. exists img'. split; [by right | done].
    + right. exists img. split; [by left | done].
  - destruct IH as [?|(img' & Hin & ?)]; [by left|].
    right. exists img'. split; [by right | done].
Qed.

Example extract_items_page :
  extract_items "popular" [alpha_container; foreign_container; plain_container]
  = [entry_a;
     Entry "hstream:popular:gamma" "Gamma" "https://cdn.example/gamma.webp"
       "https://hstream.moe/hentai/gamma-watch-online-free" None].
Proof. reflexivity. Qed.

(** X5.  Every record the listing script builds is identified as
    [hstream:<catalog>:<slug>] with a slug that is not empty, and, as
    long as the catalog name has no colon in it, splitting that identity
    at its colons (as the meta and stream handlers do) gives back the
    catalog whose listing the record came from, whatever the slug. *)
Theorem extracted_id_names_its_catalog (catalogType : string) (item : Container)
    (e : CatalogEntry) :
  extract_item catalogType item = Some e ->
  (exists slug, slug ≠ "" /\ e_id e = "hstream:" +:+ catalogType +:+ ":" +:+ slug)
  /\ (split_on ":" catalogType "" = [catalogType] ->
      catalogType_of (e_id e) = catalogType).
Proof.
  unfold extract_item. intros He.
  destruct (c_href item) as [href|]; [|done].
  case_bool_decide; [done|].
  destruct (includes href "/hentai/"); [|done]. cbn [negb] in He.
  destruct (second_part "/hentai/" href) as [rawId|]; [|done].
  case_bool_decide as Hid; [done|].
  injection He as <-. cbn [e_id].
  split; [by eexists|].
  intros Hone. unfold catalogType_of.
  change ("hstream:" +:+ catalogType +:+ ":"
          +:+ match episode_match href with
              | Some episodeNumber => strip_slug rawId +:+ "-" +:+ episodeNumber
              | None => strip_slug rawId
              end)
    with ("hstream" +:+ String ":"
            (catalogType +:+ String ":"
               match episode_match href with
               | Some episodeNumber => strip_slug rawId +:+ "-" +:+ episodeNumber
               | None => strip_slug rawId
               end)).
  rewrite (split_on_single ":" "hstream" "" "hstream") by done.
  rewrite (split_on_single ":" catalogType "" catalogType) by done.
  done.
Qed.

Lemma extracted_id_names_its_catalog_witness :
  (exists slug, slug ≠ "" /\ e_id entry_a = "hstream:" +:+ "popular" +:+ ":" +:+ slug)
  /\ (split_on ":" "popular" "" = ["popular"] -> catalogType_of (e_id entry_a) = "popular").
Proof.
  apply (extracted_id_names_its_catalog "popular" alpha_container entry_a).
  reflexivity.
Defined.

(** X6.  The shape of an extracted record.  Its link is the [href] of
    the container and contains [/hentai/]; its name is never empty; its
    poster is empty or starts with [http] (a relative address is put
    under the site's origin).  It has an episode number exactly when the
    link ends in a hyphen followed by digits; the number is those digits,
    and the identity and the name then end with them too. *)
Theorem extracted_record_shape (catalogType : string) (item : Container)
    (e : CatalogEntry) :
  extract_item catalogType item = Some e ->
  c_href item = Some (e_link e)
  /\ includes (e_link e) "/hentai/" = true
  /\ e_name e ≠ ""
  /\ (e_poster e = "" \/ startsWith (e_poster e) "http" = true)
  /\ e_episodeNumber e = episode_match (e_link e)
  /\ (forall n, e_episodeNumber e = Some n ->
        n ≠ "" /\ all_digits n = true
        /\ endsWith (e_link e) ("-" +:+ n) = true
        /\ endsWith (e_id e) ("-" +:+ n) = true
        /\ endsWith (e_name e) (" - " +:+ n) = true).
Proof.
  unfold extract_item. intros He.
  destruct (c_href item) as [href|]; [|done].
  case_bool_decide; [done|].
  destruct (includes href "/hentai/") eqn:Hinc; [|done]. cbn [negb] in He.
  destruct (second_part "/hentai/" href) as [rawId|]; [|done].
  case_bool_decide as Hid; [done|].
  injection He as <-. cbn [e_id e_link e_name e_poster e_episodeNumber].
  split_and!; [done | done | | | done |].
  - pose proof (pick_title_nonempty (c_titles item)) as Ht.
    destruct (episode_match href); [|done].
    by destruct (pick_title (c_titles item)).
  - destruct (bool_decide_reflect (pick_poster (c_images item) = "")) as [->|Hp];
      [by left|]. right. cbn [negb andb].
    by destruct (startsWith (pick_poster (c_images item)) "http") eqn:Hs.
  - intros n Hn. rewrite Hn.
    destruct (episode_match_spec _ _ Hn) as (Hne & Hd & p & ->).
    split_and!; [done | done | | |].
    + exact (endsWith_app p ("-" +:+ n)).
    + rewrite <- (string_app_assoc ":" (strip_slug rawId) ("-" +:+ n)).
      rewrite <- (string_app_assoc catalogType _ ("-" +:+ n)).
      rewrite <- (string_app_assoc "hstream:" _ ("-" +:+ n)).
      apply endsWith_app.
    + exact (endsWith_app (pick_title (c_titles item)) (" - " +:+ n)).
Qed.

Lemma extracted_record_shape_witness :
  c_href alpha_container = Some (e_link entry_a)
  /\ includes (e_link entry_a) "/hentai/" = true
  /\ e_name entry_a ≠ ""
  /\ (e_poster entry_a = "" \/ startsWith (e_poster entry_a) "http" = true)
  /\ e_episodeNumber entry_a = episode_match (e_link entry_a)
  /\ (forall n, e_episodeNumber entry_a = Some n ->
        n ≠ "" /\ all_digits n = true
        /\ endsWith (e_link entry_a) ("-" +:+ n) = true
        /\ endsWith (e_id entry_a) ("-" +:+ n) = true
        /\ endsWith (e_name entry_a) (" - " +:+ n) = true).
Proof.
  apply (extracted_record_shape "popular" alpha_container entry_a).
  reflexivity.
Defined.

(** ** The repair of a doubled origin *)

Lemma substring_app_drop a b k n :
  String.substring (String.length a + k) n (a +:+ b) = String.substring k n b.
Proof. induction a as [|x a IH]; [done|]. rewrite string_app_cons. simpl. exact IH. Qed.

(** X7.  The repair at the top of [fetchVideoDetails] removes the first
    [hstream.moe] that is directly followed by [https://], and nothing
    else: what stands before it is kept.  So an address doubled as
    [hstream.moe] + absolute address is repaired, while one doubled as
    [https://hstream.moe] + absolute address comes out with two
    schemes. *)
Theorem normalize_url_cuts_first_doubling (before rest : string) :
  String.index 0 "hstream.moehttps://" (before +:+ "hstream.moehttps://" +:+ rest)
  = Some (String.length before) ->
  normalize_url (before +:+ "hstream.moehttps://" +:+ rest)
  = before +:+ "https://" +:+ rest.
Proof.
  intros Hfirst. unfold normalize_url, includes, replace_first. rewrite Hfirst.
  rewrite substring_app_prefix.
  rewrite substring_app_drop.
  rewrite !string_length_app.
  replace (String.length before + (String.length "hstream.moehttps://" + String.length rest)
           - (String.length before + String.length "hstream.moehttps://"))%nat
    with (String.length rest) by lia.
  rewrite (substring_app_skip "hstream.moehttps://" rest).
  by rewrite substring_all.
Qed.

Lemma normalize_url_cuts_first_doubling_witness :
  normalize_url ("https://" +:+ "hstream.moehttps://" +:+ "hstream.moe/hentai/alpha-1")
  = "https://" +:+ "https://" +:+ "hstream.moe/hentai/alpha-1".
Proof.
  apply (normalize_url_cuts_first_doubling "https://" "hstream.moe/hentai/alpha-1").
  vm_compute. reflexivity.
Defined.

(** ** Sessions *)

Lemma track_session_mono e (o o' : list nat) :
  o ⊆ o' -> track_session o e ⊆ track_session o' e.
Proof.
  intros Hsub. destruct e; simpl; try done.
  - intros x [->|Hx]%elem_of_cons; [by left | right; by apply Hsub].
  - intros x [Hne Hx]%list_elem_of_filter. apply list_elem_of_filter. split; [done|].
    by apply Hsub.
Qed.

Lemma track_sessions_mono events (o o' : list nat) :
  o ⊆ o' -> fold_left track_session events o ⊆ fold_left track_session events o'.
Proof.
  revert o o'. induction events as [|e events IH]; intros o o' Hsub; simpl; [done|].
  by apply IH, track_session_mono.
Qed.

Lemma tidy_nil : tidy [].
Proof. by intros o. Qed.

Lemma tidy_app a b : tidy a -> tidy b -> tidy (a ++ b).
Proof.
  intros Ha Hb o. rewrite fold_left_app.
  etrans; [apply Hb | apply Ha].
Qed.

Lemma quiet_tidy events : quiet events -> tidy events.
Proof.
  induction 1 as [|e events He _ IH]; [apply tidy_nil|].
  intros o. simpl. etrans; [apply IH|].
  destruct e; simpl; try done.
  intros x [_ Hx]%list_elem_of_filter. done.
Qed.

(** A session that is launched, used without launching another, and
    closed. *)
Lemma tidy_session b mid : quiet mid -> tidy (Launch b :: mid ++ [Close b]).
Proof.
  intros Hq o. simpl. rewrite fold_left_app. simpl.
  intros x [Hne Hx]%list_elem_of_filter.
  apply (quiet_tidy _ Hq) in Hx. apply elem_of_cons in Hx as [->|Hx]; done.
Qed.

Lemma tidy_open_sessions events : tidy events -> open_sessions events = [].
Proof.
  intros Ht. unfold open_sessions. specialize (Ht []).
  destruct (fold_left track_session events []) as [|x l]; [done|].
  exfalso. by apply (not_elem_of_nil x), Ht; left.
Qed.

Lemma navigation_events_Forall (P : Event -> Prop) session url k :
  P (Goto session url) -> P (Delay 2000) -> Forall P (navigation_events session url k).
Proof.
  intros Hg Hd. destruct k as [|k]; [constructor|]. simpl. constructor; [done|].
  induction k as [|k IH]; simpl; [constructor|]. by repeat constructor.
Qed.

Section BatchEffects.
Context (env : Env).

(** A batch of page fetches leaves navigations to its pages and delays
    in the trace, and changes nothing else. *)
Lemma fetchPages_logs session pages search catalogType s :
  Forall (fun pageNum => 1 <= pageNum <= MAX_PAGES)%nat pages ->
  exists r events,
    fetchPages env session pages search catalogType s = (r, log events s)
    /\ quiet events /\ Forall (catalog_event search catalogType) events.
Proof.
  intros Hpages. revert s.
  induction Hpages as [|pageNum pages Hp _ IH]; intros s; simpl.
  { exists (Ret []), []. rewrite log_nil. by split_and!; [|constructor|constructor]. }
  destruct (fetchPage_logs env session pageNum search catalogType s) as (r & k & Hrun).
  rewrite Hrun.
  set (url := baseUrl search catalogType pageNum) in *.
  assert (quiet (navigation_events session url k)) as Hq
    by (by apply navigation_events_Forall).
  assert (Forall (catalog_event search catalogType) (navigation_events session url k)) as Hc.
  { apply navigation_events_Forall; [|done]. simpl. by exists pageNum. }
  destruct (IH (log (navigation_events session url k) s)) as (r' & events & Hrest & Hq' & Hc').
  exists (match r with
          | Ret items => match r' with Ret others => Ret (items :: others) | Throw e => Throw e end
          | Throw e => Throw e
          end), (navigation_events session url k ++ events).
  split_and!; [| by apply Forall_app | by apply Forall_app].
  rewrite <- log_log. destruct r as [items|e].
  - rewrite (bind_run _ _ _ _ _ Hrest). by destruct r'.
  - by rewrite Hrest.
Qed.

End BatchEffects.

(** ** Catalog builder: what a call changes *)

Lemma batch_of_range first :
  (1 <= first)%nat ->
  Forall (fun pageNum => 1 <= pageNum <= MAX_PAGES)%nat (batch_of first).
Proof.
  intros Hfirst. unfold batch_of. apply Forall_seq. intros p Hp. lia.
Qed.

Section CatalogEffects.
Context (env : Env).

Lemma fetchCatalog_loop_effects fuel skip search catalogType allItems s :
  exists allItems' s' events,
    fetchCatalog_loop env fuel skip search catalogType allItems s = (Ret allItems', s')
    /\ allItems `prefix_of` allItems'
    /\ trace s' = trace s ++ events
    /\ tidy events
    /\ Forall (catalog_event search catalogType) events
    /\ streamCache s' = streamCache s
    /\ Cache.ttl (catalogCache s') = Cache.ttl (catalogCache s)
    /\ (forall k, k ≠ globalCacheKey search catalogType ->
          Cache.data (catalogCache s') !! k = Cache.data (catalogCache s) !! k)
    /\ ((allItems' = allItems /\ catalogCache s' = catalogCache s /\ ticks s' = ticks s)
        \/ exists it,
             Cache.data (catalogCache s') !! globalCacheKey search catalogType = Some it
             /\ Cache.value it = allItems')
    /\ (launched s <= launched s')%nat
    /\ (launched s'
        <= launched s
           + ((skip + ITEMS_PER_PAGE) `min` (MAX_PAGES * ITEMS_PER_PAGE) - length allItems))%nat.
Proof.
  revert allItems s. induction fuel as [|fuel IH]; intros allItems s.
  { exists allItems, s, []. simpl. rewrite app_nil_r.
    split_and!; auto using tidy_nil; cbn [launched count_launch]; lia. }
  rewrite fetchCatalog_loop_turn.
  destruct (needs_more skip allItems) eqn:Hmore.
  2:{ exists allItems, s, []. rewrite app_nil_r.
      split_and!; auto using tidy_nil; cbn [launched count_launch]; lia. }
  apply needs_more_true in Hmore as [Hwin Hceil].
  unfold launchBrowser.
  destruct (env_launch env (launched s)) eqn:Hlaunch.
  2:{ exists allItems, (count_launch s), [].
      unfold count_launch. cbn [trace launched catalogCache streamCache ticks].
      rewrite app_nil_r. split_and!; auto using tidy_nil; lia. }
  set (b := launched s).
  set (s1 := log [Launch b] (count_launch s)).
  destruct (fetchPages_logs env b (batch_of (length allItems / ITEMS_PER_PAGE + 1))
              search catalogType s1) as (r & mid & Hrun & Hquiet & Hmid).
  { apply batch_of_range. lia. }
  rewrite Hrun.
  assert (tidy (Launch b :: mid ++ [Close b])) as Htidy by (by apply tidy_session).
  assert (Forall (catalog_event search catalogType) (Launch b :: mid ++ [Close b])) as Hev.
  { constructor; [done|]. apply Forall_app. split; [done|]. by constructor. }
  assert (forall s2, s2 = log [Close b] (log mid s1) ->
            exists allItems' s' events,
              (Ret allItems, s2) = (Ret allItems', s')
              /\ allItems `prefix_of` allItems'
              /\ trace s' = trace s ++ events
              /\ tidy events
              /\ Forall (catalog_event search catalogType) events
              /\ streamCache s' = streamCache s
              /\ Cache.ttl (catalogCache s') = Cache.ttl (catalogCache s)
              /\ (forall k, k ≠ globalCacheKey search catalogType ->
                    Cache.data (catalogCache s') !! k = Cache.data (catalogCache s) !! k)
              /\ ((allItems' = allItems /\ catalogCache s' = catalogCache s
                   /\ ticks s' = ticks s)
                  \/ exists it,
                       Cache.data (catalogCache s') !! globalCacheKey search catalogType
                       = Some it /\ Cache.value it = allItems')
              /\ (launched s <= launched s')%nat
              /\ (launched s'
                  <= launched s
                     + ((skip + ITEMS_PER_PAGE) `min` (MAX_PAGES * ITEMS_PER_PAGE)
                        - length allItems))%nat) as Hstop.
  { intros s2 ->. exists allItems, (log [Close b] (log mid s1)), (Launch b :: mid ++ [Close b]).
    split_and!; auto.
    - simpl. by rewrite <- !app_assoc.
    - cbn [launched count_launch log s1]. lia.
    - cbn [launched count_launch log s1]. lia. }
  destruct r as [fetched|e]; [|by apply Hstop].
  case_decide as Hc; [by apply Hstop|].
  clear Hstop.
  set (s3 := log [Close b]
               (catalogCache_set env (globalCacheKey search catalogType)
                  (allItems ++ concat fetched) (log mid s1)).2).
  destruct (IH (allItems ++ concat fetched) s3)
    as (allItems' & s' & rest & Hloop & Hpre & Htrace & Hrest & Hrestev & Hsc & Httl
        & Hother & Hcached & Hl1 & Hl2).
  exists allItems', s', ((Launch b :: mid ++ [Close b]) ++ rest).
  assert (length (concat fetched) ≠ 0)%nat as Hlen by (by intros ?%nil_length_inv).
  split_and!.
  - done.
  - etrans; [|exact Hpre]. by apply prefix_app_r.
  - rewrite Htrace. simpl. by rewrite <- !app_assoc.
  - by apply tidy_app.
  - by apply Forall_app.
  - by rewrite Hsc.
  - by rewrite Httl.
  - intros k Hk. rewrite (Hother k Hk). simpl. by rewrite lookup_insert_ne.
  - right. destruct Hcached as [(-> & Hsame & _)|?]; [|done].
    rewrite Hsame. simpl. rewrite lookup_insert_eq. by eexists.
  - cbn [launched count_launch log s1 s3 catalogCache_set snd] in Hl1. lia.
  - rewrite length_app in Hl2.
    cbn [launched count_launch log s1 s3 catalogCache_set snd] in Hl2. lia.
Qed.

End CatalogEffects.

Section CatalogCalls.
Context (env : Env).

(** The initial cache check of [fetchCatalog] and of the lookup. *)
Lemma catalogCache_get_effects key s :
  exists cached s0,
    catalogCache_get env key s = (Ret cached, s0)
    /\ trace s0 = trace s /\ launched s0 = launched s
    /\ streamCache s0 = streamCache s
    /\ Cache.ttl (catalogCache s0) = Cache.ttl (catalogCache s)
    /\ (forall k, k ≠ key ->
          Cache.data (catalogCache s0) !! k = Cache.data (catalogCache s) !! k)
    /\ match cached with
       | Some v =>
           catalogCache s0 = catalogCache s
           /\ exists it, Cache.data (catalogCache s) !! key = Some it /\ Cache.value it = v
       | None =>
           Cache.data (catalogCache s0) !! key = None
           /\ forall it, Cache.data (catalogCache s) !! key = Some it ->
                         (env_now env (ticks s) > Cache.expires it)%Z
       end.
Proof.
  unfold catalogCache_get, Cache.has.
  destruct (Cache.data (catalogCache s) !! key) as [it|] eqn:E.
  - rewrite bool_decide_eq_true_2 by (by eexists).
    unfold Cache.get. rewrite E. case_bool_decide as Hexp.
    + eexists None, _. split; [done|]. cbn.
      split_and!; try done.
      * intros k Hk. by rewrite lookup_delete_ne.
      * apply lookup_delete_eq.
      * by intros it' [= <-].
    + eexists (Some _), _. split; [done|]. cbn. split_and!; try done. by exists it.
  - rewrite bool_decide_eq_false_2 by (by intros [? ?]).
    exists None, s. by split_and!.
Qed.

Lemma catalogCache_get_live key s it :
  Cache.data (catalogCache s) !! key = Some it ->
  (env_now env (ticks s) <= Cache.expires it)%Z ->
  catalogCache_get env key s
  = (Ret (Some (Cache.value it)),
     {| ticks := S (ticks s); launched := launched s; catalogCache := catalogCache s;
        streamCache := streamCache s; trace := trace s |}).
Proof.
  intros E Hlive. unfold catalogCache_get, Cache.has. rewrite E.
  rewrite bool_decide_eq_true_2 by (by eexists).
  by rewrite (get_live _ _ _ it).
Qed.

(** A whole call of [fetchCatalog], with what it accumulates. *)
Lemma fetchCatalog_full_effects skip search catalogType s :
  exists cached s0 allItems s' events,
    catalogCache_get env (globalCacheKey search catalogType) s = (Ret cached, s0)
    /\ fetchCatalog_full env skip search catalogType s
       = (Ret (slice skip ((skip + ITEMS_PER_PAGE) `min` length allItems) allItems,
               allItems), s')
    /\ default [] cached `prefix_of` allItems
    /\ trace s' = trace s ++ events
    /\ tidy events
    /\ Forall (catalog_event search catalogType) events
    /\ streamCache s' = streamCache s
    /\ Cache.ttl (catalogCache s') = Cache.ttl (catalogCache s)
    /\ (forall k, k ≠ globalCacheKey search catalogType ->
          Cache.data (catalogCache s') !! k = Cache.data (catalogCache s) !! k)
    /\ ((allItems = default [] cached /\ catalogCache s' = catalogCache s0)
        \/ exists it,
             Cache.data (catalogCache s') !! globalCacheKey search catalogType = Some it
             /\ Cache.value it = allItems)
    /\ (launched s <= launched s')%nat
    /\ (launched s'
        <= launched s
           + ((skip + ITEMS_PER_PAGE) `min` (MAX_PAGES * ITEMS_PER_PAGE)
              - length (default [] cached)))%nat.
Proof.
  destruct (catalogCache_get_effects (globalCacheKey search catalogType) s)
    as (cached & s0 & Hget & Ht0 & Hl0 & Hs0 & Httl0 & Hother0 & Hc0).
  destruct (fetchCatalog_loop_effects env (S (MAX_PAGES * ITEMS_PER_PAGE)) skip search
              catalogType (default [] cached) s0)
    as (allItems & s' & events & Hloop & Hpre & Htrace & Htidy & Hev & Hsc & Httl
        & Hother & Hcached & Hl1 & Hl2).
  exists cached, s0, allItems, s', events.
  split_and!; try done.
  - unfold fetchCatalog_full. rewrite (bind_run _ _ _ _ _ Hget).
    cbn beta iota. by rewrite (bind_run _ _ _ _ _ Hloop).
  - by rewrite Htrace, Ht0.
  - by rewrite Hsc.
  - by rewrite Httl.
  - intros k Hk. by rewrite Hother, Hother0.
  - destruct Hcached as [(-> & ? & _)|?]; [by left | by right].
  - lia.
  - lia.
Qed.

Lemma fetchCatalog_of_full skip search catalogType s r s' :
  fetchCatalog_full env skip search catalogType s = (Ret r, s') ->
  fetchCatalog env skip search catalogType s = (Ret r.1, s').
Proof. intros H. unfold fetchCatalog. by rewrite (bind_run _ _ _ _ _ H). Qed.

End CatalogCalls.

(** X8.  [fetchCatalog] only ever appends.  The sequence it accumulates
    starts with the sequence the cache held for the namespace when the
    call began (if that entry had not expired), record for record and in
    the same order; and when the accumulated sequence is not empty, it is
    what the cache holds for the namespace when the call returns. *)
Theorem fetchCatalog_only_appends (env : Env) (skip : nat)
    (search catalogType : string) (s : State) :
  exists allItems s',
    fetchCatalog_full env skip search catalogType s
    = (Ret (slice skip ((skip + ITEMS_PER_PAGE) `min` length allItems) allItems,
            allItems), s')
    /\ (forall it,
          Cache.data (catalogCache s) !! globalCacheKey search catalogType = Some it ->
          (env_now env (ticks s) <= Cache.expires it)%Z ->
          Cache.value it `prefix_of` allItems)
    /\ (allItems ≠ [] ->
        exists it,
          Cache.data (catalogCache s') !! globalCacheKey search catalogType = Some it
          /\ Cache.value it = allItems).
Proof.
  destruct (fetchCatalog_full_effects env skip search catalogType s)
    as (cached & s0 & allItems & s' & events & Hget & Hfull & Hpre & _ & _ & _ & _ & _
        & _ & Hcached & _ & _).
  exists allItems, s'. split_and!; [done | |].
  - intros it Hit Hlive.
    rewrite (catalogCache_get_live env _ _ it Hit Hlive) in Hget.
    by simplify_eq.
  - intros Hne. destruct Hcached as [[-> Hsame]|?]; [|done].
    destruct (catalogCache_get_effects env (globalCacheKey search catalogType) s)
      as (cached' & s0' & Hget' & _ & _ & _ & _ & _ & Hc).
    rewrite Hget in Hget'. simplify_eq.
    destruct cached' as [v|]; [|done].
    destruct Hc as [Hsame0 (it & Hit & Hv)].
    exists it. by rewrite Hsame, Hsame0.
Qed.

(** X9.  A call of [fetchCatalog] stays within its namespace: the
    stream cache is left as it was, and so are the entries of every other
    key of the catalog cache and the default lifetime of the cache. *)
Theorem fetchCatalog_stays_in_namespace (env : Env) (skip : nat)
    (search catalogType : string) (s : State) :
  streamCache (fetchCatalog env skip search catalogType s).2 = streamCache s
  /\ Cache.ttl (catalogCache (fetchCatalog env skip search catalogType s).2)
     = Cache.ttl (catalogCache s)
  /\ (forall k, k ≠ globalCacheKey search catalogType ->
        Cache.data (catalogCache (fetchCatalog env skip search catalogType s).2) !! k
        = Cache.data (catalogCache s) !! k).
Proof.
  destruct (fetchCatalog_full_effects env skip search catalogType s)
    as (cached & s0 & allItems & s' & events & _ & Hfull & _ & _ & _ & _ & Hsc & Httl
        & Hother & _ & _ & _).
  by rewrite (fetchCatalog_of_full env _ _ _ _ _ _ Hfull).
Qed.

(** X10.  What a call of [fetchCatalog] does on the site.  Apart from
    launching and closing sessions and waiting between attempts, it only
    navigates to listing pages of its own namespace with a page number
    from 1 to 20; it never opens a detail page.  Every session it
    launches is closed again before it returns.  It calls
    [launchBrowser] at most as many times as records were missing, at
    the start, up to the end of the requested window (or up to the
    ceiling of 10000, if that is lower). *)
Theorem fetchCatalog_site_discipline (env : Env) (skip : nat)
    (search catalogType : string) (s : State) :
  exists events,
    trace (fetchCatalog env skip search catalogType s).2 = trace s ++ events
    /\ Forall (catalog_event search catalogType) events
    /\ open_sessions events = []
    /\ (launched s <= launched (fetchCatalog env skip search catalogType s).2)%nat
    /\ (launched (fetchCatalog env skip search catalogType s).2
        <= launched s
           + ((skip + ITEMS_PER_PAGE) `min` (MAX_PAGES * ITEMS_PER_PAGE)
              - length (default []
                          (Cache.get (globalCacheKey search catalogType)
                             (env_now env (ticks s)) (catalogCache s)).1)))%nat.
Proof.
  destruct (fetchCatalog_full_effects env skip search catalogType s)
    as (cached & s0 & allItems & s' & events & Hget & Hfull & _ & Htrace & Htidy & Hev
        & _ & _ & _ & _ & Hl1 & Hl2).
  rewrite (fetchCatalog_of_full env _ _ _ _ _ _ Hfull). cbn [snd].
  exists events. split_and!; [done | done | by apply tidy_open_sessions | done |].
  assert (cached = (Cache.get (globalCacheKey search catalogType)
                      (env_now env (ticks s)) (catalogCache s)).1) as <-; [|done].
  revert Hget. unfold catalogCache_get, Cache.has, Cache.get.
  destruct (Cache.data (catalogCache s) !! globalCacheKey search catalogType) as [it|].
  - rewrite bool_decide_eq_true_2 by (by eexists).
    case_bool_decide; by intros [= <- _].
  - rewrite bool_decide_eq_false_2 by (by intros [? ?]). by intros [= <- _].
Qed.

(** X11.  A full window is served from the cache the next time.  When a
    call has returned 500 records and the entry of the namespace has not
    expired at the next reading of the clock, the same call made again
    returns the same records without launching a browser: nothing changes
    but the count of clock readings. *)
Theorem fetchCatalog_window_is_cached (env : Env) (skip : nat)
    (search catalogType : string) (s s1 : State) (window : list CatalogEntry) :
  fetchCatalog env skip search catalogType s = (Ret window, s1) ->
  length window = ITEMS_PER_PAGE ->
  (forall it,
     Cache.data (catalogCache s1) !! globalCacheKey search catalogType = Some it ->
     (env_now env (ticks s1) <= Cache.expires it)%Z) ->
  fetchCatalog env skip search catalogType s1
  = (Ret window,
     {| ticks := S (ticks s1); launched := launched s1; catalogCache := catalogCache s1;
        streamCache := streamCache s1; trace := trace s1 |}).
Proof.
  intros Hcall Hlen Hlive.
  destruct (fetchCatalog_full_effects env skip search catalogType s)
    as (cached & s0 & allItems & s' & events & Hget & Hfull & _ & _ & _ & _ & _ & _
        & _ & Hcached & _ & _).
  rewrite (fetchCatalog_of_full env _ _ _ _ _ _ Hfull) in Hcall. cbn [fst] in Hcall.
  injection Hcall as <- <-.
  unfold slice in Hlen. rewrite length_drop, length_take in Hlen.
  assert (exists it,
            Cache.data (catalogCache s') !! globalCacheKey search catalogType = Some it
            /\ Cache.value it = allItems) as (it & Hit & Hv).
  { destruct Hcached as [[-> Hsame]|?]; [|done].
    destruct (catalogCache_get_effects env (globalCacheKey search catalogType) s)
      as (cached' & s0' & Hget' & _ & _ & _ & _ & _ & Hc).
    rewrite Hget in Hget'. simplify_eq.
    destruct cached' as [v|].
    - destruct Hc as [Hsame0 (it & Hit & Hv)]. exists it. by rewrite Hsame, Hsame0.
    - simpl in Hlen. unfold ITEMS_PER_PAGE in Hlen. lia. }
  apply fetchCatalog_of_full with
    (r := (slice skip ((skip + ITEMS_PER_PAGE) `min` length allItems) allItems, allItems)).
  unfold fetchCatalog_full.
  rewrite (bind_run _ _ _ _ _ (catalogCache_get_live env _ _ it Hit (Hlive it Hit))).
  cbn beta iota. rewrite Hv. cbn [default].
  assert (needs_more skip allItems = false) as Hmore.
  { unfold needs_more. apply andb_false_iff. left. apply Nat.ltb_ge.
    unfold ITEMS_PER_PAGE in *. lia. }
  set (st := {| ticks := S (ticks s'); launched := launched s';
                catalogCache := catalogCache s'; streamCache := streamCache s';
                trace := trace s' |}).
  assert (fetchCatalog_loop env (S (MAX_PAGES * ITEMS_PER_PAGE)) skip search catalogType
            allItems st = (Ret allItems, st)) as Hloop
    by (by rewrite fetchCatalog_loop_turn, Hmore).
  by rewrite (bind_run _ _ _ _ _ Hloop).
Qed.

Lemma fetchCatalog_window_is_cached_witness :
  fetchCatalog calm_env 0 "" "popular" (fetchCatalog calm_env 0 "" "popular" warm_state).2
  = (Ret first_window,
     {| ticks := S (ticks (fetchCatalog calm_env 0 "" "popular" warm_state).2);
        launched := launched (fetchCatalog calm_env 0 "" "popular" warm_state).2;
        catalogCache := catalogCache (fetchCatalog calm_env 0 "" "popular" warm_state).2;
        streamCache := streamCache (fetchCatalog calm_env 0 "" "popular" warm_state).2;
        trace := trace (fetchCatalog calm_env 0 "" "popular" warm_state).2 |}).
Proof.
  apply (fetchCatalog_window_is_cached calm_env 0 "" "popular" warm_state).
  - vm_compute. reflexivity.
  - vm_compute. reflexivity.
  - intros it Hit. vm_compute in Hit. injection Hit as <-. vm_compute. discriminate.
Defined.

(** ** Lookup fallback: what a call changes *)

Lemma find_item_Some id items item :
  find_item id items = Some item -> e_id item = id /\ item ∈ items.
Proof.
  unfold find_item. intros [Hin Hid]%find_some.
  apply bool_decide_eq_true in Hid. split; [done|]. by apply list_elem_of_In.
Qed.

Lemma find_item_elem item items :
  item ∈ items ->
  exists item', find_item (e_id item) items = Some item' /\ e_id item' = e_id item.
Proof.
  intros Hin. unfold find_item.
  destruct (List.find (fun i => bool_decide (e_id i = e_id item)) items) as [item'|] eqn:E.
  - exists item'. split; [done|]. by apply find_some, proj2, bool_decide_eq_true in E.
  - exfalso. apply list_elem_of_In in Hin.
    pose proof (find_none _ _ E item Hin) as Hf. cbn beta in Hf.
    by rewrite bool_decide_eq_true_2 in Hf.
Qed.

Section LookupEffects.
Context (env : Env).

Lemma lookup_turn_effects browser pageNum id catalogType cacheKey cachedItems s :
  (1 <= pageNum <= MAX_PAGES)%nat ->
  exists r s' mid,
    lookup_turn env browser pageNum id catalogType cacheKey cachedItems s = (r, s')
    /\ trace s' = trace s ++ mid
    /\ quiet mid
    /\ Forall (lookup_event catalogType) mid
    /\ launched s' = launched s
    /\ streamCache s' = streamCache s
    /\ Cache.ttl (catalogCache s') = Cache.ttl (catalogCache s)
    /\ (forall k, k ≠ cacheKey ->
          Cache.data (catalogCache s') !! k = Cache.data (catalogCache s) !! k)
    /\ match r with
       | Ret (Found item) =>
           e_id item = id
           /\ exists it, Cache.data (catalogCache s') !! cacheKey = Some it
                /\ cachedItems `prefix_of` Cache.value it /\ item ∈ Cache.value it
       | Ret (Next cachedItems') =>
           cachedItems `prefix_of` cachedItems'
           /\ exists it, Cache.data (catalogCache s') !! cacheKey = Some it
                /\ Cache.value it = cachedItems'
       | _ => catalogCache s' = catalogCache s
       end.
Proof.
  intros Hpage. unfold lookup_turn. rewrite bind_emit.
  set (url := baseUrl "" catalogType pageNum).
  assert (lookup_event catalogType (ProbeGoto browser url)) as Hprobe
    by (by exists pageNum).
  assert (lookup_event catalogType (Goto browser url)) as Hgoto
    by (by exists pageNum).
  destruct (env_probe env browser url) as [|status ready].
  { eexists _, _, [ProbeGoto browser url]. split; [reflexivity|].
    split_and!; try done; by repeat constructor. }
  destruct (bool_decide (status = 200%nat)); cbn [negb].
  2:{ eexists _, _, [ProbeGoto browser url]. split; [reflexivity|].
      split_and!; try done; by repeat constructor. }
  destruct ready.
  2:{ eexists _, _, [ProbeGoto browser url]. split; [reflexivity|].
      split_and!; try done; by repeat constructor. }
  run_m.
  destruct (fetchPage_logs env browser pageNum "" catalogType
              (log [ProbeGoto browser url; Delay 1000] s)) as (r & k & Hrun).
  fold url in Hrun. rewrite (bind_run _ _ _ _ _ Hrun). rewrite log_log in *.
  set (mid := [ProbeGoto browser url; Delay 1000] ++ navigation_events browser url k) in *.
  assert (quiet mid) as Hq.
  { apply Forall_app. split; [by repeat constructor|].
    by apply navigation_events_Forall. }
  assert (Forall (lookup_event catalogType) mid) as Hev.
  { apply Forall_app. split; [by repeat constructor|].
    by apply navigation_events_Forall. }
  destruct r as [pageItems|e].
  2:{ eexists _, _, mid. split; [reflexivity|]. by split_and!. }
  destruct pageItems as [|x pageItems].
  { eexists _, _, mid. split; [reflexivity|]. by split_and!. }
  rewrite (bind_run _ _ _ _ _ (proj1 (catalogCache_set_trace _ _ _ _))).
  destruct (find_item id (x :: pageItems)) as [item|] eqn:Hfind.
  - apply find_item_Some in Hfind as [Hid Hin].
    eexists _, _, mid. split; [reflexivity|]. cbn.
    split_and!; try done.
    + intros k' Hk'. by rewrite lookup_insert_ne.
    + eexists. rewrite lookup_insert_eq. split; [done|]. cbn.
      split; [by apply prefix_app_r | apply elem_of_app; by right].
  - eexists _, _, mid. split; [reflexivity|]. cbn.
    split_and!; try done.
    + intros k' Hk'. by rewrite lookup_insert_ne.
    + by apply prefix_app_r.
    + eexists. rewrite lookup_insert_eq. done.
Qed.

Lemma lookup_loop_effects fuel pageNum browser id catalogType cacheKey cachedItems s :
  (1 <= pageNum)%nat ->
  exists r s' events,
    lookup_loop env fuel pageNum browser id catalogType cacheKey cachedItems s = (Ret r, s')
    /\ trace s' = trace s ++ events
    /\ tidy events
    /\ Forall (lookup_event catalogType) events
    /\ streamCache s' = streamCache s
    /\ Cache.ttl (catalogCache s') = Cache.ttl (catalogCache s)
    /\ (forall k, k ≠ cacheKey ->
          Cache.data (catalogCache s') !! k = Cache.data (catalogCache s) !! k)
    /\ ((r = None /\ catalogCache s' = catalogCache s)
        \/ exists it, Cache.data (catalogCache s') !! cacheKey = Some it
             /\ cachedItems `prefix_of` Cache.value it
             /\ forall item, r = Some item -> item ∈ Cache.value it)
    /\ (forall item, r = Some item -> e_id item = id)
    /\ (launched s <= launched s' <= launched s + fuel)%nat.
Proof.
  revert pageNum browser cachedItems s.
  induction fuel as [|fuel IH]; intros pageNum browser cachedItems s Hpage.
  { exists None, s, []. cbn [lookup_loop]. rewrite app_nil_r.
    split_and!; auto using tidy_nil; try done; lia. }
  cbn [lookup_loop].
  destruct (Nat.leb_spec pageNum MAX_PAGES) as [Hp|Hp].
  2:{ exists None, s, []. rewrite app_nil_r.
      split_and!; auto using tidy_nil; try done; lia. }
  unfold launchBrowser.
  destruct (env_launch env (launched s)) eqn:Hlaunch.
  2:{ destruct browser as [b|].
      - exists None, (log [Close b] (count_launch s)), [Close b].
        split; [by run_m|]. unfold count_launch, log.
        cbn [trace launched catalogCache streamCache ticks].
        split_and!; auto; try done; try lia.
        + apply quiet_tidy. by repeat constructor.
        + by repeat constructor.
      - exists None, (count_launch s), [].
        split; [by run_m|]. unfold count_launch.
        cbn [trace launched catalogCache streamCache ticks]. rewrite app_nil_r.
        split_and!; auto using tidy_nil; try done; lia. }
  set (b := launched s).
  set (s1 := log [Launch b] (count_launch s)).
  destruct (lookup_turn_effects b pageNum id catalogType cacheKey cachedItems s1)
    as (r & s2 & mid & Hturn & Htrace & Hq & Hev & Hl & Hsc & Httl & Hother & Hr);
    [lia|].
  rewrite Hturn.
  assert (tidy (Launch b :: mid ++ [Close b])) as Htidy by (by apply tidy_session).
  assert (Forall (lookup_event catalogType) (Launch b :: mid ++ [Close b])) as Hevs.
  { constructor; [done|]. apply Forall_app. split; [done|]. by constructor. }
  assert (trace (log [Close b] s2) = trace s ++ Launch b :: mid ++ [Close b]) as Htr.
  { cbn [trace log]. rewrite Htrace. cbn [trace log s1 count_launch].
    by rewrite <- !app_assoc. }
  assert (launched (log [Close b] s2) = S (launched s)) as Hl'.
  { cbn [launched log]. by rewrite Hl. }
  destruct r as [[|item|cachedItems']|e].
  - exists None, (log [Close b] s2), (Launch b :: mid ++ [Close b]).
    split; [by run_m|]. split_and!; try done; [by left | lia | lia].
  - destruct Hr as (Hid & it & Hit & Hpre & Hin).
    exists (Some item), (log [Close b] s2), (Launch b :: mid ++ [Close b]).
    split; [by run_m|]. split_and!; try done.
    + right. exists it. split_and!; [done | done |]. by intros ? [= <-].
    + by intros ? [= <-].
    + lia.
    + lia.
  - destruct Hr as (Hpre & it & Hit & Hv).
    destruct (IH (S pageNum) (Some b) cachedItems' (log [Close b] s2))
      as (r & s' & rest & Hloop & Htrace' & Htidy' & Hev' & Hsc' & Httl' & Hother'
          & Hcached & Hid & Hl1); [lia|].
    exists r, s', ((Launch b :: mid ++ [Close b]) ++ rest).
    split; [by run_m|]. split_and!.
    + rewrite Htrace', Htr. by rewrite <- !app_assoc.
    + by apply tidy_app.
    + by apply Forall_app.
    + rewrite Hsc'. cbn [streamCache log]. by rewrite Hsc.
    + rewrite Httl'. cbn [catalogCache log]. by rewrite Httl.
    + intros k Hk. rewrite (Hother' k Hk). cbn [catalogCache log].
      by rewrite (Hother k Hk).
    + right. destruct Hcached as [[-> Hsame]|(it' & Hit' & Hpre' & Hin')].
      * exists it. rewrite Hsame. cbn [catalogCache log].
        split_and!; [done | by rewrite Hv | done].
      * exists it'. split_and!; [done | by etrans | done].
    + done.
    + lia.
    + lia.
  - exists None, (log [Close b] s2), (Launch b :: mid ++ [Close b]).
    split; [by run_m|]. split_and!; try done; [by left | lia | lia].
Qed.

End LookupEffects.

Section LookupCalls.
Context (env : Env).

(** A whole run of the lookup block. *)
Lemma lookupItem_effects id s :
  let cacheKey := "catalog-" +:+ catalogType_of id +:+ "-all" in
  exists r s' events,
    lookupItem env id s = (Ret r, s')
    /\ trace s' = trace s ++ events
    /\ tidy events
    /\ Forall (lookup_event (catalogType_of id)) events
    /\ streamCache s' = streamCache s
    /\ Cache.ttl (catalogCache s') = Cache.ttl (catalogCache s)
    /\ (forall k, k ≠ cacheKey ->
          Cache.data (catalogCache s') !! k = Cache.data (catalogCache s) !! k)
    /\ (forall item, r = Some item ->
          e_id item = id
          /\ exists it, Cache.data (catalogCache s') !! cacheKey = Some it
               /\ item ∈ Cache.value it)
    /\ (forall it, Cache.data (catalogCache s) !! cacheKey = Some it ->
          (env_now env (ticks s) <= Cache.expires it)%Z ->
          exists it', Cache.data (catalogCache s') !! cacheKey = Some it'
            /\ Cache.value it `prefix_of` Cache.value it')
    /\ (launched s <= launched s' <= launched s + MAX_PAGES)%nat.
Proof.
  intros cacheKey.
  destruct (catalogCache_get_effects env cacheKey s)
    as (cached & s0 & Hget & Ht0 & Hl0 & Hs0 & Httl0 & Hother0 & Hc0).
  assert (forall it, Cache.data (catalogCache s) !! cacheKey = Some it ->
            (env_now env (ticks s) <= Cache.expires it)%Z ->
            cached = Some (Cache.value it) /\ catalogCache s0 = catalogCache s) as Hlive.
  { intros it Hit Hle. rewrite (catalogCache_get_live env _ _ it Hit Hle) in Hget.
    by simplify_eq. }
  unfold lookupItem. fold cacheKey. rewrite (bind_run _ _ _ _ _ Hget). cbn beta iota zeta.
  destruct (find_item id (default [] cached)) as [item|] eqn:Hfind.
  - apply find_item_Some in Hfind as [Hid Hin].
    destruct cached as [v|]; [|by apply elem_of_nil in Hin].
    destruct Hc0 as [Hsame (it & Hit & Hv)]. cbn [default] in Hin.
    exists (Some item), s0, []. rewrite app_nil_r.
    split_and!; auto using tidy_nil; try done.
    + intros ? [= <-]. split; [done|]. exists it. rewrite Hsame. by rewrite Hv.
    + intros it' Hit' _. exists it'. by rewrite Hsame.
    + lia.
    + lia.
  - destruct (lookup_loop_effects env MAX_PAGES 1 None id (catalogType_of id) cacheKey
                (default [] cached) s0)
      as (r & s' & events & Hloop & Htrace & Htidy & Hev & Hsc & Httl & Hother
          & Hcached & Hid & Hl); [lia|].
    exists r, s', events. split_and!; try done.
    + by rewrite Htrace, Ht0.
    + by rewrite Hsc.
    + by rewrite Httl.
    + intros k Hk. by rewrite Hother, Hother0.
    + intros item ->. split; [by apply Hid|].
      destruct Hcached as [[? _]|(it & Hit & _ & Hin)]; [done|].
      exists it. split; [done|]. by apply Hin.
    + intros it Hit Hle. destruct (Hlive it Hit Hle) as [-> Hsame].
      destruct Hcached as [[_ Hsame']|(it' & Hit' & Hpre & _)].
      * exists it. by rewrite Hsame', Hsame.
      * by exists it'.
    + lia.
    + lia.
Qed.

End LookupCalls.

(** X12.  The lookup block of the meta and stream handlers always
    returns, and what it returns is right: a record it finds carries the
    requested identity, and when the block is left that record is in the
    sequence which the catalog cache holds for the catalog named in the
    identity (the handlers store every page they crawl before they look
    at it). *)
Theorem lookupItem_returns_requested (env : Env) (id : string) (s : State) :
  exists r s',
    lookupItem env id s = (Ret r, s')
    /\ forall item, r = Some item ->
         e_id item = id
         /\ exists it,
              Cache.data (catalogCache s') !! ("catalog-" +:+ catalogType_of id +:+ "-all")
              = Some it
              /\ item ∈ Cache.value it.
Proof.
  destruct (lookupItem_effects env id s)
    as (r & s' & events & Hrun & _ & _ & _ & _ & _ & _ & Hfound & _).
  by exists r, s'.
Qed.

(** X13.  The lookup block stays within the catalog named in the
    identity: the stream cache, the entries of all other keys of the
    catalog cache and the default lifetime are left as they were.  The
    entry of its own key only grows: a sequence that was cached and had
    not expired when the block began is a prefix of the one cached when
    it is left. *)
Theorem lookupItem_stays_in_namespace (env : Env) (id : string) (s : State) :
  streamCache (lookupItem env id s).2 = streamCache s
  /\ Cache.ttl (catalogCache (lookupItem env id s).2) = Cache.ttl (catalogCache s)
  /\ (forall k, k ≠ "catalog-" +:+ catalogType_of id +:+ "-all" ->
        Cache.data (catalogCache (lookupItem env id s).2) !! k
        = Cache.data (catalogCache s) !! k)
  /\ (forall it,
        Cache.data (catalogCache s) !! ("catalog-" +:+ catalogType_of id +:+ "-all")
        = Some it ->
        (env_now env (ticks s) <= Cache.expires it)%Z ->
        exists it',
          Cache.data (catalogCache (lookupItem env id s).2)
            !! ("catalog-" +:+ catalogType_of id +:+ "-all") = Some it'
          /\ Cache.value it `prefix_of` Cache.value it').
Proof.
  destruct (lookupItem_effects env id s)
    as (r & s' & events & Hrun & _ & _ & _ & Hsc & Httl & Hother & _ & Hgrow & _).
  by rewrite Hrun.
Qed.

(** X14.  What the lookup block does on the site.  Apart from launching
    and closing sessions and waiting, it only opens and navigates to
    listing pages of the catalog named in the identity, in the
    view-count or recently-released order, with a page number from 1 to
    20; it never opens a detail page and never runs a search.  Every
    session it launches is closed again when the block is left, and it
    calls [launchBrowser] at most 20 times. *)
Theorem lookupItem_site_discipline (env : Env) (id : string) (s : State) :
  exists events,
    trace (lookupItem env id s).2 = trace s ++ events
    /\ Forall (lookup_event (catalogType_of id)) events
    /\ open_sessions events = []
    /\ (launched s <= launched (lookupItem env id s).2 <= launched s + MAX_PAGES)%nat.
Proof.
  destruct (lookupItem_effects env id s)
    as (r & s' & events & Hrun & Htrace & Htidy & Hev & _ & _ & _ & _ & _ & Hl).
  rewrite Hrun. cbn [snd]. exists events.
  split_and!; [done | done | by apply tidy_open_sessions | lia | lia].
Qed.

(** ** Page fetcher: outcomes *)

(** X15.  [fetchPage] throws in one case only: when the page cannot be
    opened in the session (then nothing has been navigated).  Otherwise
    it returns a list, and a list that is not empty is exactly what the
    listing script extracted, after the page was set up and one of the
    three navigation attempts was answered with status 200. *)
Theorem fetchPage_outcomes (env : Env) (session pageNum : nat)
    (search catalogType : string) (s : State) :
  let url := baseUrl search catalogType pageNum in
  (env_newPage env session url = false ->
   fetchPage env session pageNum search catalogType s = (Throw "newPage", s))
  /\ (env_newPage env session url = true ->
      exists items,
        (fetchPage env session pageNum search catalogType s).1 = Ret items
        /\ (items ≠ [] ->
            env_prepare env session url = true
            /\ env_extract env session url = Some items
            /\ exists attempt, (attempt < 3)%nat
                 /\ env_goto env session url attempt = Responded 200)).
Proof.
  intros url. unfold fetchPage. fold url. split; intros Hnew; rewrite Hnew; [done|].
  cbn -[navigate]. rewrite bind_ret. unfold try_catch.
  destruct (env_prepare env session url); [|by exists []].
  cbn -[navigate]. rewrite bind_ret.
  destruct (navigate_spec env session url 2 0 None s)
    as (k & r & Hrun & Hk & _ & Hok & Hfail).
  cbn [Nat.add] in *. rewrite (bind_run _ _ _ _ _ Hrun).
  destruct (decide (env_goto env session url (k - 1) = Responded 200)) as [Hlast|Hlast].
  - rewrite (Hok Hlast). cbn.
    destruct (env_extract env session url) as [pageItems|]; [|by exists []].
    exists pageItems. split; [done|]. intros _. split_and!; [done | done |].
    exists (k - 1)%nat. split; [lia | done].
  - destruct (Hfail Hlast) as [_ [[e ->]|(status & Hne & ->)]]; [by exists []|].
    cbn. rewrite bool_decide_eq_false_2 by done. by exists [].
Qed.

(** ** Stream resolver: a whole call *)

Section ResolveEffects.
Context (env : Env).

(** The [try] block by its outcome. *)
Lemma resolve_in_effects browser url key s :
  (exists meta dom,
     r_meta (env_render env browser url) = Some meta
     /\ r_dom (env_render env browser url) = Some dom
     /\ rendering_ok (env_render env browser url) = true
     /\ resolve_in env browser url key s
        = (Ret (Resolved meta
                  (uniqueStreams (env_protocol env) (m_title meta) (videoData dom).2
                     (collected_streams (r_requests_early (env_render env browser url))
                        (videoData dom).1
                        (r_requests_late (env_render env browser url))))),
           {| ticks := S (ticks s); launched := launched s;
              catalogCache := catalogCache s;
              streamCache :=
                Cache.set key
                  (Resolved meta
                     (uniqueStreams (env_protocol env) (m_title meta) (videoData dom).2
                        (collected_streams (r_requests_early (env_render env browser url))
                           (videoData dom).1
                           (r_requests_late (env_render env browser url)))))
                  None (env_now env (ticks s)) (streamCache s);
              trace := trace s ++ [GotoDetail browser url; Close browser] |}))
  \/ (rendering_ok (env_render env browser url) = false
      /\ exists e events,
           resolve_in env browser url key s = (Throw e, log events s)
           /\ Forall (fun ev => ev = GotoDetail browser url \/ ev = Close browser) events).
Proof.
  unfold rendering_ok, resolve_in.
  destruct (env_render env browser url)
    as [newPage intercept goto video early dom late meta compose]; cbn [r_newPage
      r_intercept r_goto r_video r_requests_early r_dom r_requests_late r_meta r_compose].
  destruct newPage;
    [|right; split; [done|]; exists "newPage", []; by rewrite log_nil].
  destruct intercept;
    [|right; split; [done|]; exists "setRequestInterception", []; by rewrite log_nil].
  destruct goto;
    [|right; split; [done|]; exists "goto", [GotoDetail browser url];
      split; [done|]; constructor; [by left | constructor]].
  destruct video;
    [|right; split; [done|]; exists "waitForSelector", [GotoDetail browser url];
      split; [done|]; constructor; [by left | constructor]].
  destruct dom as [dom|];
    [|right; split; [done|]; exists "evaluate", [GotoDetail browser url];
      split; [done|]; constructor; [by left | constructor]].
  destruct meta as [meta|];
    [|right; split; [done|]; exists "evaluate", [GotoDetail browser url];
      split; [done|]; constructor; [by left | constructor]].
  destruct compose.
  - left. exists meta, dom. split_and!; try done. run_m. reflexivity.
  - right. split; [done|]. exists "compose", [GotoDetail browser url; Close browser].
    split; [by run_m|]. constructor; [by left|]. constructor; [by right | constructor].
Qed.

Lemma streamCache_get_live key s it :
  Cache.data (streamCache s) !! key = Some it ->
  (env_now env (ticks s) <= Cache.expires it)%Z ->
  streamCache_get env key s
  = (Ret (Some (Cache.value it)),
     {| ticks := S (ticks s); launched := launched s; catalogCache := catalogCache s;
        streamCache := streamCache s; trace := trace s |}).
Proof.
  intros E Hlive. unfold streamCache_get, Cache.has. rewrite E.
  rewrite bool_decide_eq_true_2 by (by eexists).
  by rewrite (get_live _ _ _ it).
Qed.

(** The initial cache check of [fetchVideoDetails]. *)
Lemma streamCache_get_effects key s :
  exists cached s0,
    streamCache_get env key s = (Ret cached, s0)
    /\ trace s0 = trace s /\ launched s0 = launched s
    /\ catalogCache s0 = catalogCache s
    /\ Cache.ttl (streamCache s0) = Cache.ttl (streamCache s)
    /\ (forall k, k ≠ key ->
          Cache.data (streamCache s0) !! k = Cache.data (streamCache s) !! k)
    /\ match cached with
       | Some v =>
           streamCache s0 = streamCache s
           /\ exists it, Cache.data (streamCache s) !! key = Some it /\ Cache.value it = v
       | None => Cache.data (streamCache s0) !! key = None
       end.
Proof.
  unfold streamCache_get, Cache.has.
  destruct (Cache.data (streamCache s) !! key) as [it|] eqn:E.
  - rewrite bool_decide_eq_true_2 by (by eexists).
    unfold Cache.get. rewrite E. case_bool_decide as Hexp.
    + eexists None, _. split; [done|]. cbn.
      split_and!; try done.
      * intros k Hk. by rewrite lookup_delete_ne.
      * apply lookup_delete_eq.
    + eexists (Some _), _. split; [done|]. cbn. split_and!; try done. by exists it.
  - rewrite bool_decide_eq_false_2 by (by intros [? ?]).
    exists None, s. by split_and!.
Qed.

(** A whole call of [fetchVideoDetails]. *)
Lemma fetchVideoDetails_effects url s :
  exists details s' events,
    fetchVideoDetails env url s = (Ret details, s')
    /\ trace s' = trace s ++ events
    /\ tidy events
    /\ Forall (detail_event url) events
    /\ catalogCache s' = catalogCache s
    /\ Cache.ttl (streamCache s') = Cache.ttl (streamCache s)
    /\ (forall k, k ≠ detailsKey url ->
          Cache.data (streamCache s') !! k = Cache.data (streamCache s) !! k)
    /\ (launched s <= launched s' <= S (launched s))%nat
    /\ (forall meta streams, details = Resolved meta streams ->
          exists it, Cache.data (streamCache s') !! detailsKey url = Some it
            /\ Cache.value it = details).
Proof.
  unfold fetchVideoDetails. fold (detailsKey url).
  destruct (streamCache_get_effects (detailsKey url) s)
    as (cached & s0 & Hget & Ht0 & Hl0 & Hc0 & Httl0 & Hother0 & Hcached).
  rewrite (bind_run _ _ _ _ _ Hget).
  destruct cached as [details|].
  { destruct Hcached as [Hsame (it & Hit & Hv)].
    exists details, s0, []. rewrite app_nil_r.
    split_and!; auto using tidy_nil; try done; try lia.
    intros meta streams _. exists it. by rewrite Hsame. }
  unfold launchBrowser.
  destruct (env_launch env (launched s0)) eqn:Hlaunch.
  2:{ exists Degraded, (count_launch s0), []. split; [done|]. unfold count_launch.
      cbn [trace launched catalogCache streamCache ticks]. rewrite app_nil_r.
      split_and!; auto using tidy_nil; try done; lia. }
  set (b := launched s0).
  set (s1 := log [Launch b] (count_launch s0)).
  destruct (resolve_in_effects b (normalize_url url) (detailsKey url) s1)
    as [(meta & dom & _ & _ & _ & Hrun)|(_ & e & mid & Hrun & Hmid)]; rewrite Hrun.
  - eexists _, _, [Launch b; GotoDetail b (normalize_url url); Close b].
    split; [reflexivity|]. cbn [trace launched catalogCache streamCache ticks].
    split_and!; try done.
    + cbn. by rewrite Ht0, <- app_assoc.
    + apply (tidy_session b [GotoDetail b (normalize_url url)]).
      constructor; [done | constructor].
    + constructor; [done|]. constructor; [done|]. constructor; [done | constructor].
    + intros k Hk. unfold Cache.set. cbn. rewrite lookup_insert_ne by done.
      by apply Hother0.
    + cbn. lia.
    + cbn. lia.
    + intros meta' streams' _. eexists. unfold Cache.set. cbn.
      rewrite lookup_insert_eq. done.
  - exists Degraded, (log [Close b] (log mid s1)), (Launch b :: mid ++ [Close b]).
    split; [by run_m|]. cbn [trace launched catalogCache streamCache ticks log s1 count_launch].
    split_and!; try done.
    + rewrite Ht0. by rewrite <- !app_assoc.
    + apply tidy_session. eapply Forall_impl; [exact Hmid|].
      by intros ev [->| ->].
    + constructor; [done|]. apply Forall_app. split; [|by repeat constructor].
      eapply Forall_impl; [exact Hmid|]. by intros ev [->| ->].
    + lia.
    + lia.
Qed.

End ResolveEffects.

(** X16.  A call of [fetchVideoDetails] always returns a result and
    never throws.  It calls [launchBrowser] at most once and closes the
    session before it returns; the only page it opens is the detail page
    at the repaired address.  It leaves the catalog cache alone, and in the stream cache
    it touches no entry but the one of its own key. *)
Theorem fetchVideoDetails_is_contained (env : Env) (url : string) (s : State) :
  exists details events,
    (fetchVideoDetails env url s).1 = Ret details
    /\ trace (fetchVideoDetails env url s).2 = trace s ++ events
    /\ Forall (detail_event url) events
    /\ open_sessions events = []
    /\ (launched s <= launched (fetchVideoDetails env url s).2 <= S (launched s))%nat
    /\ catalogCache (fetchVideoDetails env url s).2 = catalogCache s
    /\ Cache.ttl (streamCache (fetchVideoDetails env url s).2) = Cache.ttl (streamCache s)
    /\ (forall k, k ≠ detailsKey url ->
          Cache.data (streamCache (fetchVideoDetails env url s).2) !! k
          = Cache.data (streamCache s) !! k).
Proof.
  destruct (fetchVideoDetails_effects env url s)
    as (details & s' & events & Hrun & Htrace & Htidy & Hev & Hcc & Httl & Hother & Hl & _).
  rewrite Hrun. cbn [fst snd]. exists details, events.
  split_and!; try done; [by apply tidy_open_sessions | lia | lia].
Qed.

(** X17.  A resolved result is served from the cache the next time.
    When a call has returned a resolved result (not the degraded one)
    and the entry of the address has not expired at the next reading of
    the clock, the same call made again returns the same result without
    launching a browser: nothing changes but the count of clock
    readings. *)
Theorem fetchVideoDetails_result_is_cached (env : Env) (url : string) (s s1 : State)
    (meta : Meta) (streams : list StreamData) :
  fetchVideoDetails env url s = (Ret (Resolved meta streams), s1) ->
  (forall it, Cache.data (streamCache s1) !! detailsKey url = Some it ->
              (env_now env (ticks s1) <= Cache.expires it)%Z) ->
  fetchVideoDetails env url s1
  = (Ret (Resolved meta streams),
     {| ticks := S (ticks s1); launched := launched s1; catalogCache := catalogCache s1;
        streamCache := streamCache s1; trace := trace s1 |}).
Proof.
  intros Hcall Hlive.
  destruct (fetchVideoDetails_effects env url s)
    as (details & s' & events & Hrun & _ & _ & _ & _ & _ & _ & _ & Hcached).
  rewrite Hrun in Hcall. injection Hcall as -> ->.
  destruct (Hcached meta streams eq_refl) as (it & Hit & Hv).
  unfold fetchVideoDetails. fold (detailsKey url).
  rewrite (bind_run _ _ _ _ _ (streamCache_get_live env _ _ it Hit (Hlive it Hit))).
  by rewrite Hv.
Qed.

Lemma fetchVideoDetails_result_is_cached_witness :
  fetchVideoDetails alpha_env detail_alpha (fetchVideoDetails alpha_env detail_alpha boot).2
  = (Ret (Resolved meta_alpha
            (uniqueStreams scheme_of "Alpha - 1" (videoData english_page).2
               (collected_streams three_playlists (videoData english_page).1 []))),
     {| ticks := S (ticks (fetchVideoDetails alpha_env detail_alpha boot).2);
        launched := launched (fetchVideoDetails alpha_env detail_alpha boot).2;
        catalogCache := catalogCache (fetchVideoDetails alpha_env detail_alpha boot).2;
        streamCache := streamCache (fetchVideoDetails alpha_env detail_alpha boot).2;
        trace := trace (fetchVideoDetails alpha_env detail_alpha boot).2 |}).
Proof.
  apply (fetchVideoDetails_result_is_cached alpha_env detail_alpha boot).
  - vm_compute. reflexivity.
  - intros it Hit. vm_compute in Hit. injection Hit as <-. vm_compute. discriminate.
Defined.

(** X18.  What a successful resolution returns.  When the cache has no
    entry for the address, a browser can be launched and every step of
    the rendering goes through, the result is the page's metadata with
    the streams composed from the merged map: the requests intercepted
    before the page sources are read, the page sources, the requests
    intercepted afterwards.  The session is launched, the detail page is
    opened and the session is closed, in that order; the result is stored
    under the key of the address with the default lifetime of the stream
    cache, counted from the clock reading of the store. *)
Theorem fetchVideoDetails_resolves_page (env : Env) (url : string) (s : State)
    (meta : Meta) (dom : Dom) :
  let r := env_render env (launched s) (normalize_url url) in
  let result :=
    Resolved meta
      (uniqueStreams (env_protocol env) (m_title meta) (videoData dom).2
         (collected_streams (r_requests_early r) (videoData dom).1 (r_requests_late r))) in
  Cache.data (streamCache s) !! detailsKey url = None ->
  env_launch env (launched s) = true ->
  rendering_ok r = true ->
  r_meta r = Some meta ->
  r_dom r = Some dom ->
  (fetchVideoDetails env url s).1 = Ret result
  /\ trace (fetchVideoDetails env url s).2
     = trace s ++ [Launch (launched s); GotoDetail (launched s) (normalize_url url);
                   Close (launched s)]
  /\ Cache.data (streamCache (fetchVideoDetails env url s).2) !! detailsKey url
     = Some (Cache.Item result (env_now env (ticks s) + Cache.ttl (streamCache s))%Z).
Proof.
  intros r result Habs Hlaunch Hok Hmeta Hdom.
  unfold fetchVideoDetails. fold (detailsKey url).
  rewrite (bind_run _ _ _ _ _ (streamCache_get_absent env _ _ Habs)).
  unfold launchBrowser. rewrite Hlaunch.
  destruct (resolve_in_effects env (launched s) (normalize_url url) (detailsKey url)
              (log [Launch (launched s)] (count_launch s)))
    as [(meta' & dom' & Hmeta' & Hdom' & _ & Hrun)|(Hbad & _)].
  - fold r in Hmeta', Hdom', Hrun. rewrite Hmeta in Hmeta'. rewrite Hdom in Hdom'.
    simplify_eq. rewrite Hrun. cbn. split_and!; [done | by rewrite <- app_assoc |].
    by rewrite lookup_insert_eq.
  - fold r in Hbad. congruence.
Qed.

Lemma fetchVideoDetails_resolves_page_witness :
  (fetchVideoDetails alpha_env detail_alpha boot).1
  = Ret (Resolved meta_alpha
           (uniqueStreams scheme_of "Alpha - 1" (videoData english_page).2
              (collected_streams three_playlists (videoData english_page).1 [])))
  /\ trace (fetchVideoDetails alpha_env detail_alpha boot).2
     = trace boot ++ [Launch 0; GotoDetail 0 detail_alpha; Close 0]
  /\ Cache.data (streamCache (fetchVideoDetails alpha_env detail_alpha boot).2)
       !! detailsKey detail_alpha
     = Some (Cache.Item
               (Resolved meta_alpha
                  (uniqueStreams scheme_of "Alpha - 1" (videoData english_page).2
                     (collected_streams three_playlists (videoData english_page).1 [])))
               (0 + 3600000)%Z).
Proof.
  apply (fetchVideoDetails_resolves_page alpha_env detail_alpha boot meta_alpha english_page);
    reflexivity.
Defined.

(** ** The handlers *)

(** A meta request for a cached record whose detail page renders. *)
Example metaHandler_renders :
  (metaHandler alpha_env (e_id (numbered 1)) warm_state).1
  = Ret (Some {| mv_id := "hstream:popular:item-1"; mv_name := "Alpha - 1";
                 mv_poster := ""; mv_background := "";
                 mv_description := Some ""; mv_releaseInfo := Some "2024-01-05";
                 mv_genres := Some ["4k"]; mv_runtime := "Episode 1";
                 mv_awards := None; mv_director := None; mv_originalTitle := None |})
  /\ trace (metaHandler alpha_env (e_id (numbered 1)) warm_state).2
     = [Launch 0; GotoDetail 0 "https://hstream.moe/hentai/item-1"; Close 0].
Proof. split; by vm_compute. Qed.

(** X19.  The catalog handler never fails and never returns more than
    500 entries.  Its entries are the previews, in order, of the window
    that [fetchCatalog] yields for the catalog [recent] when the
    requested catalog is [hstream-recent] and for the catalog [popular]
    for every other catalog id; every session launched on the way is
    closed again. *)
Theorem catalogHandler_response (env : Env) (id : string) (skip : nat)
    (search : string) (s : State) :
  exists window s' events,
    catalogHandler env id skip search s = (Ret (preview <$> window), s')
    /\ fetchCatalog env skip search
         (if bool_decide (id = "hstream-recent") then "recent" else "popular") s
       = (Ret window, s')
    /\ (length (preview <$> window) <= ITEMS_PER_PAGE)%nat
    /\ mp_id <$> (preview <$> window) = e_id <$> window
    /\ trace s' = trace s ++ events
    /\ open_sessions events = [].
Proof.
  set (catalogType := if bool_decide (id = "hstream-recent") then "recent" else "popular").
  destruct (fetchCatalog_full_effects env skip search catalogType s)
    as (cached & s0 & allItems & s' & events & _ & Hfull & _ & Htrace & Htidy & _).
  pose proof (fetchCatalog_of_full env _ _ _ _ _ _ Hfull) as Hcall. cbn [fst] in Hcall.
  eexists _, s', events. split_and!.
  - unfold catalogHandler. fold catalogType. by rewrite (bind_run _ _ _ _ _ Hcall).
  - done.
  - rewrite length_fmap. unfold slice. rewrite length_drop, length_take. lia.
  - by rewrite <- list_fmap_compose.
  - done.
  - by apply tidy_open_sessions.
Qed.

(** X20.  What the catalog lists, the handlers find.  After the catalog
    handler has answered a request without a search term, an entry of
    its response whose identity names the catalog served is found by the
    lookup block of the meta and stream handlers in the cache, without a
    browser, as long as the entry of the catalog has not expired at the
    next reading of the clock: the block returns a record of that
    identity and changes nothing but the count of clock readings. *)
Theorem listed_entry_is_found (env : Env) (id : string) (skip : nat)
    (s s1 : State) (metas : list MetaPreview) (entry : MetaPreview) :
  let catalogType := if bool_decide (id = "hstream-recent") then "recent" else "popular" in
  catalogHandler env id skip "" s = (Ret metas, s1) ->
  entry ∈ metas ->
  catalogType_of (mp_id entry) = catalogType ->
  (forall it,
     Cache.data (catalogCache s1) !! ("catalog-" +:+ catalogType +:+ "-all") = Some it ->
     (env_now env (ticks s1) <= Cache.expires it)%Z) ->
  exists found,
    lookupItem env (mp_id entry) s1
    = (Ret (Some found),
       {| ticks := S (ticks s1); launched := launched s1; catalogCache := catalogCache s1;
          streamCache := streamCache s1; trace := trace s1 |})
    /\ e_id found = mp_id entry.
Proof.
  intros catalogType Hcall Hin Hct Hlive.
  destruct (fetchCatalog_full_effects env skip "" catalogType s)
    as (cached & s0 & allItems & s' & events & Hget & Hfull & _ & _ & _ & _ & _ & _
        & _ & Hcached & _ & _).
  pose proof (fetchCatalog_of_full env _ _ _ _ _ _ Hfull) as Hfetch. cbn [fst] in Hfetch.
  unfold catalogHandler in Hcall. fold catalogType in Hcall.
  rewrite (bind_run _ _ _ _ _ Hfetch) in Hcall. injection Hcall as <- <-.
  apply list_elem_of_fmap in Hin as (item & -> & Hin). cbn [mp_id preview] in *.
  assert (item ∈ allItems) as Hall.
  { apply list_elem_of_lookup in Hin as [i Hi]. rewrite slice_lookup in Hi.
    case_decide; [|done]. by eapply list_elem_of_lookup_2. }
  assert (exists it,
            Cache.data (catalogCache s') !! globalCacheKey "" catalogType = Some it
            /\ Cache.value it = allItems) as (it & Hit & Hv).
  { destruct Hcached as [[-> Hsame]|?]; [|done].
    destruct (catalogCache_get_effects env (globalCacheKey "" catalogType) s)
      as (cached' & s0' & Hget' & _ & _ & _ & _ & _ & Hc).
    rewrite Hget in Hget'. simplify_eq.
    destruct cached' as [v|]; [|by apply elem_of_nil in Hall].
    destruct Hc as [Hsame0 (it & Hit & Hv)]. exists it. by rewrite Hsame, Hsame0. }
  destruct (find_item_elem item allItems Hall) as (found & Hfind & Hid).
  exists found. split; [|done].
  unfold lookupItem. rewrite Hct.
  change ("catalog-" +:+ catalogType +:+ "-all") with (globalCacheKey "" catalogType) in *.
  rewrite (bind_run _ _ _ _ _ (catalogCache_get_live env _ _ it Hit (Hlive it Hit))).
  cbn beta iota zeta. rewrite Hv. cbn [default from_option Datatypes.id]. by rewrite Hfind.
Qed.

Lemma listed_entry_is_found_witness :
  exists found,
    lookupItem twin_env (mp_id (preview entry_a))
      (catalogHandler twin_env "hstream-popular" 0 "" boot).2
    = (Ret (Some found),
       {| ticks := S (ticks (catalogHandler twin_env "hstream-popular" 0 "" boot).2);
          launched := launched (catalogHandler twin_env "hstream-popular" 0 "" boot).2;
          catalogCache := catalogCache (catalogHandler twin_env "hstream-popular" 0 "" boot).2;
          streamCache := streamCache (catalogHandler twin_env "hstream-popular" 0 "" boot).2;
          trace := trace (catalogHandler twin_env "hstream-popular" 0 "" boot).2 |})
    /\ e_id found = mp_id (preview entry_a).
Proof.
  apply (listed_entry_is_found twin_env "hstream-popular" 0 boot
           (catalogHandler twin_env "hstream-popular" 0 "" boot).2
           (preview <$> [entry_a; entry_b; entry_b]) (preview entry_a)).
  - vm_compute. reflexivity.
  - left.
  - reflexivity.
  - intros it Hit. vm_compute in Hit. injection Hit as <-. vm_compute. discriminate.
Defined.

(** X21.  The meta handler never fails.  It answers [null] exactly when
    the lookup block finds no record; otherwise the response carries the
    requested identity and the poster of the catalog record, as poster
    and as background.  Every session launched on the way is closed
    again; [launchBrowser] is called at most 20 times by the lookup and
    once more by the resolution. *)
Theorem metaHandler_response (env : Env) (id : string) (s : State) :
  exists r s' events,
    metaHandler env id s = (Ret r, s')
    /\ (r = None <-> (lookupItem env id s).1 = Ret None)
    /\ (forall view, r = Some view ->
          mv_id view = id
          /\ exists item, (lookupItem env id s).1 = Ret (Some item)
               /\ mv_poster view = e_poster item /\ mv_background view = e_poster item)
    /\ trace s' = trace s ++ events
    /\ open_sessions events = []
    /\ (launched s <= launched s' <= launched s + MAX_PAGES + 1)%nat.
Proof.
  destruct (lookupItem_effects env id s)
    as (found & s1 & events & Hrun & Htrace & Htidy & _ & _ & _ & _ & Hfound & _ & Hl).
  unfold metaHandler. rewrite (bind_run _ _ _ _ _ Hrun). rewrite Hrun. cbn [fst].
  destruct found as [item|].
  - destruct (fetchVideoDetails_effects env (e_link item) s1)
      as (details & s' & events' & Hres & Htrace' & Htidy' & _ & _ & _ & _ & Hl' & _).
    rewrite (bind_run _ _ _ _ _ Hres).
    destruct (Hfound item eq_refl) as [Hid _].
    eexists _, s', (events ++ events'). split; [reflexivity|].
    split_and!.
    + split; intros; discriminate.
    + intros view [= <-]. split; [done|]. by exists item.
    + by rewrite Htrace', Htrace, <- app_assoc.
    + by apply tidy_open_sessions, tidy_app.
    + lia.
    + lia.
  - exists None, s1, events. split; [done|].
    split_and!; [done | done | done | by apply tidy_open_sessions | lia | lia].
Qed.

(** X22.  When the resolution fails, the meta handler still answers for
    a record it has found, but with the placeholder of the degraded
    result: the name is ["Unknown"], not the name of the catalog record
    (the placeholder title is not empty, so the fallback to the record's
    name does not apply), the runtime reads ["Episode undefined"], and
    description, release, genres, views, studio and original title are
    missing. *)
Theorem metaHandler_degraded (env : Env) (id : string) (s s1 : State)
    (item : CatalogEntry) :
  lookupItem env id s = (Ret (Some item), s1) ->
  (fetchVideoDetails env (e_link item) s1).1 = Ret Degraded ->
  (metaHandler env id s).1
  = Ret (Some {| mv_id := e_id item; mv_name := "Unknown";
                 mv_poster := e_poster item; mv_background := e_poster item;
                 mv_description := None; mv_releaseInfo := None; mv_genres := None;
                 mv_runtime := "Episode undefined"; mv_awards := None;
                 mv_director := None; mv_originalTitle := None |}).
Proof.
  intros Hfound Hres. unfold metaHandler. rewrite (bind_run _ _ _ _ _ Hfound).
  destruct (fetchVideoDetails env (e_link item) s1) as [r s2] eqn:Hrun.
  cbn [fst] in Hres. subst r. by rewrite (bind_run _ _ _ _ _ Hrun).
Qed.

Lemma metaHandler_degraded_witness :
  (metaHandler stalled_env (e_id (numbered 1)) warm_state).1
  = Ret (Some {| mv_id := e_id (numbered 1); mv_name := "Unknown";
                 mv_poster := e_poster (numbered 1);
                 mv_background := e_poster (numbered 1);
                 mv_description := None; mv_releaseInfo := None; mv_genres := None;
                 mv_runtime := "Episode undefined"; mv_awards := None;
                 mv_director := None; mv_originalTitle := None |}).
Proof.
  apply (metaHandler_degraded stalled_env (e_id (numbered 1)) warm_state
           (lookupItem stalled_env (e_id (numbered 1)) warm_state).2 (numbered 1)).
  - vm_compute. reflexivity.
  - vm_compute. reflexivity.
Defined.
